(** * COVID-19 data pipeline: transform and quality gate

    A shallow embedding of [src/transform.py] (class [CovidDataTransformer])
    and [src/data_quality.py] (class [DataQualityValidator]).

    The Python code is written against pandas.  A DataFrame is modelled as
    the list of its rows, each row a record whose fields are the columns the
    code names; the pandas operations the code calls ([melt], [to_datetime],
    [rename], [fillna], [drop], [merge], column arithmetic, comparisons,
    [isnull], [sum]) are modelled by list functions with the behaviour pandas
    documents for them.

    Modelling conventions.
    - A missing value (NaN, None, NaT) of a text column is [None] in an
      [option string], of a numeric column [None] in an [option Z], of a
      datetime column [None] in an [option Timestamp].
    - Counts are modelled as [Z].  pandas holds them in int64 or float64
      columns, whose subtraction wraps or rounds; [int64_sub] and
      [float64_sub] are those operations, and the statements about the
      values of counts carry the range, [exact_range], in which both agree
      with [Z].
    - A pandas [Timestamp] is the number of nanoseconds since the Unix epoch.
    - The column layout is the fixed one of the source files: the four
      leading identifier columns are [Province/State], [Country/Region],
      [Lat], [Long]; the remaining columns are labelled by dates.  The
      [value_name] argument of [pivot_to_long_format] only names the value
      column, which is the field [lr_value] here.
    - Columns carry no dtype of their own: what a column holds is the type
      of its field.  Where pandas looks at a dtype the model computes it
      from the column: [merge] refuses key columns of incompatible dtypes,
      which here can only be the region columns ([region_dtype]), and
      [merge_datasets_checked] is [merge_datasets] with that refusal.
    - [pd.to_datetime] converts a column as a whole: it infers a format
      from the first text and reads every text under it, or reads the
      texts one by one when it can infer none.  The development is
      parametric in the functions of pandas that infer and read
      ([DateParser]).
    - Console output ([print]) is not modelled, except where printing
      evaluates something that can raise (the date range in
      [transform_all]).
    - The order of the rows of a merged frame is not modelled (pandas
      sorts an outer join by key); no statement is about it. *)

From Stdlib Require Import ZArith List String Ascii Bool Lia Arith.
From Stdlib Require Import DecimalString Permutation.
Import ListNotations.

Local Open Scope string_scope.
Local Open Scope list_scope.

(** ** Values, exceptions *)

Definition Timestamp := Z.

(** A cell of a column of dtype [object]: the columns of the merged dataset
    hold such cells once [fillna(0)] has run over them, because the integer
    [0] then sits next to strings or timestamps. *)
Inductive cell : Type :=
| Null
| Str (s : string)
| Num (z : Z)
| Date (t : Timestamp).

Definition isnull (c : cell) : bool :=
  match c with Null => true | _ => false end.

Definition str_cell (o : option string) : cell :=
  match o with Some s => Str s | None => Null end.

Definition date_cell (o : option Timestamp) : cell :=
  match o with Some t => Date t | None => Null end.

Definition num_cell (o : option Z) : cell :=
  match o with Some z => Num z | None => Null end.

(** The Python exceptions the modelled code can raise. *)
Inductive exn : Type :=
| ValueError (what : string)   (* [to_datetime] on a text it refuses; [merge] *)
| TypeError (what : string).   (* comparison of a non-datetime with a Timestamp *)

Inductive result (A : Type) : Type :=
| Return (a : A)
| Raise (e : exn).
Arguments Return {A} a.
Arguments Raise {A} e.

Definition rbind {A B} (r : result A) (k : A -> result B) : result B :=
  match r with
  | Return a => k a
  | Raise e => Raise e
  end.

Declare Scope result_scope.
Delimit Scope result_scope with result.
Notation "x <- c ;; k" := (rbind c (fun x => k))
  (at level 61, c at next level, right associativity) : result_scope.

(** Element by element, left to right; the first failure aborts the whole
    conversion and nothing of the partial result survives. *)
Fixpoint mapM {A B} (f : A -> result B) (xs : list A) : result (list B) :=
  match xs with
  | [] => Return []
  | x :: xs' =>
      (y <- f x ;;
       ys <- mapM f xs' ;;
       Return (y :: ys))%result
  end.

(** [str(n)] for a non-negative count. *)
Definition str_of_nat (n : nat) : string :=
  NilZero.string_of_uint (Nat.to_uint n).

(** ** Reshaper: [pivot_to_long_format] *)

(** One row of a wide table.  [Lat] and [Long] are kept as the text of the
    file: no operation of the pipeline looks inside them.  [counts] holds
    the cells under the date columns, in column order. *)
Record RawRow : Type := {
  Province_State : option string;
  Country_Region : option string;
  Lat : option string;
  Long : option string;
  counts : list (option Z)
}.

(** A wide table: the labels of the columns after the first four, and the
    rows. *)
Record RawSeriesTable : Type := {
  date_labels : list string;
  raw_rows : list RawRow
}.

(** A row of the long table; [D] is the type of the [date] column, the label
    text after [melt] and a datetime after [to_datetime]. *)
Record LongRecord (D : Type) : Type := {
  lr_Province_State : option string;
  lr_Country_Region : option string;
  lr_Lat : option string;
  lr_Long : option string;
  lr_date : D;
  lr_value : option Z
}.
Arguments lr_Province_State {D} _.
Arguments lr_Country_Region {D} _.
Arguments lr_Lat {D} _.
Arguments lr_Long {D} _.
Arguments lr_date {D} _.
Arguments lr_value {D} _.

Definition melt_cell (j : nat) (label : string) (r : RawRow) : LongRecord string :=
  {| lr_Province_State := Province_State r;
     lr_Country_Region := Country_Region r;
     lr_Lat := Lat r;
     lr_Long := Long r;
     lr_date := label;
     lr_value := nth j (counts r) None |}.

Definition enumerate {A} (xs : list A) : list (nat * A) :=
  combine (seq 0 (List.length xs)) xs.

(** [df.melt(id_vars=first four columns, var_name='date', value_name=...)]:
    the value columns one after the other, each contributing every row. *)
Definition melt (df : RawSeriesTable) : list (LongRecord string) :=
  flat_map (fun jl => map (melt_cell (fst jl) (snd jl)) (raw_rows df))
           (enumerate (date_labels df)).

Definition with_date {D E} (r : LongRecord D) (d : E) : LongRecord E :=
  {| lr_Province_State := lr_Province_State r;
     lr_Country_Region := lr_Country_Region r;
     lr_Lat := lr_Lat r;
     lr_Long := lr_Long r;
     lr_date := d;
     lr_value := lr_value r |}.

(** [df_long['date'] = new_column] *)
Definition assign_date {D E} (df_long : list (LongRecord D)) (col : list E)
  : list (LongRecord E) :=
  map (fun rd => with_date (fst rd) (snd rd)) (combine df_long col).

(** What [pd.to_datetime] draws on when it converts a column of texts.
    The development is parametric in these four functions of pandas.
    - [null_string]: the texts [first_non_null] passes over when it looks
      for the text to infer a format from (the empty text, the spellings
      of NaT, [now] and [today]).
    - [guess_datetime_format]: the format inferred from one text, if any.
    - [array_strptime fmt s]: the reading of one text under a format:
      [None] when it raises, [Some None] for NaT, [Some (Some t)] for a
      date.  The text has to match the format in full.
    - [parse_datetime_string s]: the reading of one text on its own, the
      way of [dateutil], used when no format was inferred. *)
Record DateParser : Type := {
  null_string : string -> bool;
  guess_datetime_format : string -> option string;
  array_strptime : string -> string -> option (option Timestamp);
  parse_datetime_string : string -> option (option Timestamp)
}.

(** The first text of a column that is not passed over. *)
Definition first_non_null (parse_datetime : DateParser) (col : list string)
  : option string :=
  find (fun s => negb (null_string parse_datetime s)) col.

(** How the texts of a column are read: all of them under the format
    inferred from the first text that is not passed over; one by one, each
    on its own, when no format can be inferred from that text or every
    text is passed over. *)
Definition reader (parse_datetime : DateParser) (col : list string)
  : string -> option (option Timestamp) :=
  match first_non_null parse_datetime col with
  | Some first =>
      match guess_datetime_format parse_datetime first with
      | Some fmt => array_strptime parse_datetime fmt
      | None => parse_datetime_string parse_datetime
      end
  | None => parse_datetime_string parse_datetime
  end.

(** One text under a way of reading; the error names the text. *)
Definition to_datetime_scalar (read : string -> option (option Timestamp))
    (s : string) : result (option Timestamp) :=
  match read s with
  | Some d => Return d
  | None => Raise (ValueError s)
  end.

(** [pd.to_datetime(column)]: the way of reading is fixed by the column,
    then the texts are converted in order and the first one that is
    refused ends the call. *)
Definition to_datetime (parse_datetime : DateParser) (col : list string)
  : result (list (option Timestamp)) :=
  mapM (to_datetime_scalar (reader parse_datetime col)) col.

Definition pivot_to_long_format (parse_datetime : DateParser)
    (df : RawSeriesTable) : result (list (LongRecord (option Timestamp))) :=
  let df_long := melt df in
  (dates <- to_datetime parse_datetime (map lr_date df_long) ;;
   Return (assign_date df_long dates))%result.


(** A date parser to run the model on the sample tables.  It gives
    pandas' readings of the empty text, of the spellings of NaT and of
    labels [M/D/YY] and [M/D/YYYY] with a month from 1 to 12 and a day of
    that month; it refuses every other text (pandas reads more forms than
    these; the sample tables use none of them).  A format is inferred from
    a label with a four-digit year only; a two-digit year is resolved by
    [dateutil] against the year of the clock, fixed here as [this_year]. *)
Module MDY.

Definition digit_of (c : ascii) : option nat :=
  let n := nat_of_ascii c in
  if ((48 <=? n) && (n <=? 57))%nat then Some (n - 48) else None.

Fixpoint digits_acc (s : string) (acc : nat) : option nat :=
  match s with
  | EmptyString => Some acc
  | String c s' =>
      match digit_of c with
      | Some d => digits_acc s' (10 * acc + d)
      | None => None
      end
  end.

(** A number of one or two digits. *)
Definition number (s : string) : option nat :=
  match s with
  | EmptyString => None
  | _ => if Nat.leb (String.length s) 2 then digits_acc s 0 else None
  end.

(** A number of exactly [n] digits. *)
Definition number_of_length (n : nat) (s : string) : option nat :=
  if Nat.eqb (String.length s) n then digits_acc s 0 else None.

Fixpoint split_slash (s : string) (cur : string) : list string :=
  match s with
  | EmptyString => [cur]
  | String c s' =>
      if Ascii.eqb c "/"%char then cur :: split_slash s' EmptyString
      else split_slash s' (cur ++ String c EmptyString)
  end.

Definition leap (y : Z) : bool :=
  ((y mod 4 =? 0) && negb (y mod 100 =? 0) || (y mod 400 =? 0))%Z.

Definition days_in_month (y : Z) (m : nat) : nat :=
  match m with
  | 2 => if leap y then 29 else 28
  | 4 | 6 | 9 | 11 => 30
  | _ => 31
  end.

(** Days since 1970-01-01 of a civil date. *)
Definition days_from_civil (y : Z) (m d : Z) : Z :=
  (let y' := if m <=? 2 then y - 1 else y in
   let era := y' / 400 in
   let yoe := y' - era * 400 in
   let mp := if m >? 2 then m - 3 else m + 9 in
   let doy := (153 * mp + 2) / 5 + d - 1 in
   let doe := yoe * 365 + yoe / 4 - yoe / 100 + doy in
   era * 146097 + doe - 719468)%Z.

Definition ns_per_day : Z := 86400 * 1000000000.

Definition nat_strings : list string :=
  ["NaT"; "nat"; "NAT"; "nan"; "NaN"; "NAN"].

Definition is_nat_string (s : string) : bool :=
  existsb (String.eqb s) nat_strings || String.eqb s "".

(** The year of the clock. *)
Definition this_year : Z := 2026.

(** [dateutil]'s reading of a two-digit year: the year of the current
    century, moved by a century when it is 50 years or more ahead of the
    clock or more than 50 years behind it. *)
Definition convertyear (yy : Z) : Z :=
  (let y := yy + this_year / 100 * 100 in
   if y >=? this_year + 50 then y - 100
   else if y <? this_year - 50 then y + 100
   else y)%Z.

(** The Timestamp of a civil date, if it is one. *)
Definition civil (y : Z) (m d : nat) : option Timestamp :=
  if (1 <=? m)%nat && (m <=? 12)%nat
     && (1 <=? d)%nat && (d <=? days_in_month y m)%nat
  then Some (days_from_civil y (Z.of_nat m) (Z.of_nat d) * ns_per_day)%Z
  else None.

(** A label [M/D/YYYY]. *)
Definition month_day_year4 (s : string) : option Timestamp :=
  match split_slash s EmptyString with
  | [ms; ds; ys] =>
      match number ms, number ds, number_of_length 4 ys with
      | Some m, Some d, Some y => civil (Z.of_nat y) m d
      | _, _, _ => None
      end
  | _ => None
  end.

(** A label [M/D/YY]. *)
Definition month_day_year2 (s : string) : option Timestamp :=
  match split_slash s EmptyString with
  | [ms; ds; ys] =>
      match number ms, number ds, number_of_length 2 ys with
      | Some m, Some d, Some yy => civil (convertyear (Z.of_nat yy)) m d
      | _, _, _ => None
      end
  | _ => None
  end.

Definition or_else {A} (a b : option A) : option A :=
  match a with
  | Some _ => a
  | None => b
  end.

Definition timestamp_or_raise (o : option Timestamp)
  : option (option Timestamp) :=
  match o with
  | Some t => Some (Some t)
  | None => None
  end.

Definition parse : DateParser :=
  {| null_string := is_nat_string;
     guess_datetime_format := fun s =>
       match month_day_year4 s with
       | Some _ => Some "%m/%d/%Y"
       | None => None
       end;
     array_strptime := fun fmt s =>
       if is_nat_string s then Some None
       else if String.eqb fmt "%m/%d/%Y"
            then timestamp_or_raise (month_day_year4 s)
            else None;
     parse_datetime_string := fun s =>
       if is_nat_string s then Some None
       else timestamp_or_raise
              (or_else (month_day_year4 s) (month_day_year2 s)) |}.

End MDY.

(** 2020-01-01 00:00:00, in nanoseconds since the epoch:
    [pd.Timestamp('2020-01-01')]. *)
Definition ts_2020_01_01 : Timestamp := 1577836800000000000%Z.

(** ** Normalizer: [clean_data] *)

(** The long table after [rename]. *)
Record RenamedRecord : Type := {
  rn_province_state : option string;
  rn_country_region : option string;
  rn_latitude : option string;
  rn_longitude : option string;
  rn_date : option Timestamp;
  rn_value : option Z
}.

(** The long table after [clean_data]: the columns of the merge key and the
    metric. *)
Record NormRecord : Type := {
  n_province_state : option string;
  n_country_region : option string;
  n_date : option Timestamp;
  n_value : option Z
}.

Definition rename (r : LongRecord (option Timestamp)) : RenamedRecord :=
  {| rn_province_state := lr_Province_State r;
     rn_country_region := lr_Country_Region r;
     rn_latitude := lr_Lat r;
     rn_longitude := lr_Long r;
     rn_date := lr_date r;
     rn_value := lr_value r |}.

(** [Series.fillna(text)] on one cell of a text column. *)
Definition fillna_text (v : string) (c : option string) : option string :=
  match c with
  | None => Some v
  | Some s => Some s
  end.

(** [df['province_state'] = df['province_state'].fillna(v)] *)
Definition fillna_province_state (v : string) (r : RenamedRecord) : RenamedRecord :=
  {| rn_province_state := fillna_text v (rn_province_state r);
     rn_country_region := rn_country_region r;
     rn_latitude := rn_latitude r;
     rn_longitude := rn_longitude r;
     rn_date := rn_date r;
     rn_value := rn_value r |}.

(** [df.drop(['latitude', 'longitude'], axis=1)] *)
Definition drop_coordinates (r : RenamedRecord) : NormRecord :=
  {| n_province_state := rn_province_state r;
     n_country_region := rn_country_region r;
     n_date := rn_date r;
     n_value := rn_value r |}.

Definition clean_data (df : list (LongRecord (option Timestamp))) : list NormRecord :=
  let df := map rename df in
  let df := map (fillna_province_state "All") df in
  let df := map drop_coordinates df in
  df.

(** ** Merger: [merge_datasets] *)

(** The values under [merge_keys = ['country_region', 'province_state',
    'date']] of one row. *)
Definition MergeKey : Type := (option string * option string * option Timestamp)%type.

Definition merge_keys (r : NormRecord) : MergeKey :=
  (n_country_region r, n_province_state r, n_date r).

Definition option_eqb {A} (eqb : A -> A -> bool) (x y : option A) : bool :=
  match x, y with
  | Some a, Some b => eqb a b
  | None, None => true
  | _, _ => false
  end.

(** Key matching of [merge]: pandas matches a missing key value with a
    missing key value. *)
Definition key_eqb (k1 k2 : MergeKey) : bool :=
  let '(r1, p1, d1) := k1 in
  let '(r2, p2, d2) := k2 in
  option_eqb String.eqb r1 r2 && option_eqb String.eqb p1 p2
  && option_eqb Z.eqb d1 d2.

(** A frame seen from a merge: each row is its key and the values of its
    other columns. *)
Definition keyed (V : Type) : Type := list (MergeKey * V).

Definition on_keys (df : list NormRecord) : keyed (option Z) :=
  map (fun r => (merge_keys r, n_value r)) df.

Section OuterMerge.

Context {A B : Type}.
(** The all-missing value of the columns of the left and right frame. *)
Variable null_left : A.
Variable null_right : B.

Definition matches (k : MergeKey) (right : keyed B) : keyed B :=
  filter (fun kb => key_eqb k (fst kb)) right.

Definition has_key (k : MergeKey) (left : keyed A) : bool :=
  existsb (fun ka => key_eqb (fst ka) k) left.

(** The rows a left row contributes: one per matching right row, or the
    row itself with the right columns missing. *)
Definition join_left_row (right : keyed B) (ka : MergeKey * A)
  : keyed (A * B) :=
  match matches (fst ka) right with
  | [] => [(fst ka, (snd ka, null_right))]
  | ms => map (fun kb => (fst ka, (snd ka, snd kb))) ms
  end.

(** [left.merge(right, on=merge_keys, how='outer')].  Rows with equal keys
    are paired in all combinations; a key of one side only keeps its row
    with the columns of the other side missing.  pandas also sorts the
    result by key; the row order is not modelled, and the statements
    below are about the rows, not their positions. *)
Definition merge_outer (left : keyed A) (right : keyed B) : keyed (A * B) :=
  flat_map (join_left_row right) left
  ++ map (fun kb => (fst kb, (null_left, snd kb)))
         (filter (fun kb => negb (has_key (fst kb) left)) right).

End OuterMerge.

(** A row of the merged frame before [active] exists.  After [fillna(0)] a
    key column may hold the number 0, hence [cell]. *)
Record MergedRecord : Type := {
  m_country_region : cell;
  m_province_state : cell;
  m_date : cell;
  m_confirmed : option Z;
  m_deaths : option Z;
  m_recovered : option Z
}.

(** UnifiedRecord: a row of the merged dataset. *)
Record UnifiedRecord : Type := {
  country_region : cell;
  province_state : cell;
  date : cell;
  confirmed : option Z;
  deaths : option Z;
  recovered : option Z;
  active : option Z
}.

Definition merged_row (kv : MergeKey * (option Z * option Z * option Z))
  : MergedRecord :=
  let '(cr, ps, d) := fst kv in
  let '(c, de, r) := snd kv in
  {| m_country_region := str_cell cr;
     m_province_state := str_cell ps;
     m_date := date_cell d;
     m_confirmed := c;
     m_deaths := de;
     m_recovered := r |}.

Definition fillna_cell (v : Z) (c : cell) : cell :=
  match c with
  | Null => Num v
  | _ => c
  end.

Definition fillna_num (v : Z) (o : option Z) : option Z :=
  match o with
  | None => Some v
  | Some z => Some z
  end.

(** [df.fillna(v)] on one row: every column. *)
Definition fillna (v : Z) (r : MergedRecord) : MergedRecord :=
  {| m_country_region := fillna_cell v (m_country_region r);
     m_province_state := fillna_cell v (m_province_state r);
     m_date := fillna_cell v (m_date r);
     m_confirmed := fillna_num v (m_confirmed r);
     m_deaths := fillna_num v (m_deaths r);
     m_recovered := fillna_num v (m_recovered r) |}.

(** Subtraction of two cells of numeric columns: missing if either is.
    Over [Z]: the subtraction of pandas on counts in [exact_range], see
    [int64_sub] and [float64_sub] below for what it is beyond. *)
Definition sub (a b : option Z) : option Z :=
  match a, b with
  | Some x, Some y => Some (x - y)%Z
  | _, _ => None
  end.

(** [df['active'] = df['confirmed'] - df['deaths'] - df['recovered']],
    for counts in [exact_range]. *)
Definition assign_active (r : MergedRecord) : UnifiedRecord :=
  {| country_region := m_country_region r;
     province_state := m_province_state r;
     date := m_date r;
     confirmed := m_confirmed r;
     deaths := m_deaths r;
     recovered := m_recovered r;
     active := sub (sub (m_confirmed r) (m_deaths r)) (m_recovered r) |}.

(** The two outer joins of [merge_datasets]. *)
Definition outer_join3 (confirmed_df deaths_df recovered_df : list NormRecord)
  : keyed (option Z * option Z * option Z) :=
  let df := merge_outer None None (on_keys confirmed_df) (on_keys deaths_df) in
  merge_outer (None, None) None df (on_keys recovered_df).

(** The frame [merge_datasets] returns when its two merges accept the key
    columns; [merge_datasets_checked] below is the call with their
    refusal. *)
Definition merge_datasets (confirmed_df deaths_df recovered_df : list NormRecord)
  : list UnifiedRecord :=
  let df := merge_outer None None (on_keys confirmed_df) (on_keys deaths_df) in
  let df := merge_outer (None, None) None df (on_keys recovered_df) in
  let df := map (fillna 0) (map merged_row df) in
  map assign_active df.

(** The cells under the merge key columns: of a row of the join result, and
    of a UnifiedRecord. *)
Definition key_cells (k : MergeKey) : cell * cell * cell :=
  let '(cr, ps, d) := k in (str_cell cr, str_cell ps, date_cell d).

Definition fillna_key (v : Z) (k : cell * cell * cell) : cell * cell * cell :=
  let '(cr, ps, d) := k in (fillna_cell v cr, fillna_cell v ps, fillna_cell v d).

Definition key_of (r : UnifiedRecord) : cell * cell * cell :=
  (country_region r, province_state r, date r).

(** ** What [DataFrame.merge] checks before it joins *)

(** The dtype of the region column of a frame: [read_csv] makes a column
    of texts [object] when it holds a text, and [float64] when every cell
    of it is missing. *)
Inductive dtype : Type :=
| object
| float64.

Definition dtype_eqb (a b : dtype) : bool :=
  match a, b with
  | object, object | float64, float64 => true
  | _, _ => false
  end.

Definition dtype_name (a : dtype) : string :=
  match a with
  | object => "object"
  | float64 => "float64"
  end.

Definition is_none {A} (o : option A) : bool :=
  match o with
  | None => true
  | Some _ => false
  end.

(** The dtype of the region column of a long table; [None] for a table
    without rows, whose key columns [merge] does not look at. *)
Definition region_dtype (df : list NormRecord) : option dtype :=
  match df with
  | [] => None
  | _ :: _ =>
      Some (if forallb (fun r => is_none (n_country_region r)) df
            then float64 else object)
  end.

(** The check of one [merge] on the region columns of its two frames, and
    the dtype of the region column of the frame it returns.  A frame
    without rows is not checked; a column of texts does not merge with a
    column of numbers, and the error names the two dtypes.  The sub-region
    columns are [object] after
    [fillna("All")] and the date columns are datetimes in every table, so
    only the region columns can disagree. *)
Definition merge_region_dtype (left right : option dtype)
  : result (option dtype) :=
  match left, right with
  | None, _ => Return right
  | _, None => Return left
  | Some a, Some b =>
      if dtype_eqb a b then Return left
      else Raise (ValueError (dtype_name a ++ " and " ++ dtype_name b))
  end.

(** [merge_datasets] as the call is made: the first merge is checked, then
    the second, and when neither raises the frame is the one of
    [merge_datasets] above. *)
Definition merge_datasets_checked
    (confirmed_df deaths_df recovered_df : list NormRecord)
  : result (list UnifiedRecord) :=
  (df <- merge_region_dtype (region_dtype confirmed_df)
                            (region_dtype deaths_df) ;;
   df <- merge_region_dtype df (region_dtype recovered_df) ;;
   Return (merge_datasets confirmed_df deaths_df recovered_df))%result.

(** ** Subtraction on machine numbers *)

(** [sub] computes over [Z].  pandas holds a metric column as int64 as
    long as no cell of it is missing and as float64 from then on
    ([fillna(0)] keeps the dtype); its subtraction is that of the dtype.
    int64 subtraction wraps around; float64 subtraction rounds to the
    nearest number of 53 significant bits, ties to even.  Both agree with
    [Z] on counts in [exact_range]. *)
Definition int64_wrap (z : Z) : Z :=
  ((z + 2 ^ 63) mod 2 ^ 64 - 2 ^ 63)%Z.

Definition int64_sub (a b : Z) : Z := int64_wrap (a - b).

(** The float64 nearest to an integer. *)
Definition float64_round (z : Z) : Z :=
  (let m := Z.abs z in
   if m <? 2 ^ 53 then z
   else
     let e := Z.log2 m - 52 in
     let q := m / 2 ^ e in
     let rem := m mod 2 ^ e in
     let half := 2 ^ (e - 1) in
     let q' := if rem <? half then q
               else if half <? rem then q + 1
               else if Z.even q then q else q + 1 in
     Z.sgn z * (q' * 2 ^ e))%Z.

Definition float64_sub (a b : Z) : Z :=
  float64_round (float64_round a - float64_round b).

Definition exact_range (z : Z) : Prop := (- 2 ^ 51 <= z <= 2 ^ 51)%Z.

(** A long table all of whose counts are in the exact range. *)
Definition counts_in_range (df : list NormRecord) : Prop :=
  forall x v, In x df -> n_value x = Some v -> exact_range v.

(** ** The summary [transform_all] prints *)

(** [a <= b] between two cells of a column.  Two Timestamps, two numbers
    and two texts compare; Python raises [TypeError] on anything else, a
    Timestamp and the number 0 for one. *)
Definition cell_le (a b : cell) : result bool :=
  match a, b with
  | Date x, Date y => Return (x <=? y)%Z
  | Num x, Num y => Return (x <=? y)%Z
  | Str x, Str y => Return (String.leb x y)
  | _, _ => Raise (TypeError "'<=' not supported between instances")
  end.

(** The smaller and the larger of two cells. *)
Definition minimum (a b : cell) : result cell :=
  (le <- cell_le a b ;;
   Return (if le : bool then a else b))%result.

Definition maximum (a b : cell) : result cell :=
  (ge <- cell_le b a ;;
   Return (if ge : bool then a else b))%result.

Fixpoint reduce (pick : cell -> cell -> result cell) (acc : cell)
    (xs : list cell) : result cell :=
  match xs with
  | [] => Return acc
  | x :: xs' => (acc' <- pick acc x ;; reduce pick acc' xs')%result
  end.

(** A reduction of a column that skips the missing cells; [None] is the
    answer for a column with nothing else. *)
Definition series_reduce (pick : cell -> cell -> result cell)
    (col : list cell) : result (option cell) :=
  match filter (fun c => negb (isnull c)) col with
  | [] => Return None
  | x :: xs => (m <- reduce pick x xs ;; Return (Some m))%result
  end.

(** [Series.min()], [Series.max()] *)
Definition series_min : list cell -> result (option cell) :=
  series_reduce minimum.

Definition series_max : list cell -> result (option cell) :=
  series_reduce maximum.

(** [transform_all], from the three tables [load_raw_data] has read.  Of
    the lines it prints, the one with the date range evaluates the minimum
    and the maximum of the date column, which can raise. *)
Definition transform_all (parse_datetime : DateParser)
    (confirmed_raw deaths_raw recovered_raw : RawSeriesTable)
  : result (list UnifiedRecord) :=
  (confirmed <- pivot_to_long_format parse_datetime confirmed_raw ;;
   deaths <- pivot_to_long_format parse_datetime deaths_raw ;;
   recovered <- pivot_to_long_format parse_datetime recovered_raw ;;
   let confirmed := clean_data confirmed in
   let deaths := clean_data deaths in
   let recovered := clean_data recovered in
   final_df <- merge_datasets_checked confirmed deaths recovered ;;
   earliest <- series_min (map date final_df) ;;
   latest <- series_max (map date final_df) ;;
   Return final_df)%result.

(** ** Quality Gate: [DataQualityValidator] *)

(** The validator object: the dataset and the two lists the checks append
    to. *)
Record DataQualityValidator : Type := {
  df : list UnifiedRecord;
  errors : list string;
  warnings : list string
}.

(** [DataQualityValidator(df)] *)
Definition init (df : list UnifiedRecord) : DataQualityValidator :=
  {| df := df; errors := []; warnings := [] |}.

(** A method of the validator: it reads and updates [self], and returns or
    raises. *)
Definition method (A : Type) : Type :=
  DataQualityValidator -> result (A * DataQualityValidator).

Definition ret {A} (a : A) : method A :=
  fun self => Return (a, self).

Definition bind {A B} (m : method A) (k : A -> method B) : method B :=
  fun self =>
    match m self with
    | Return (a, self') => k a self'
    | Raise e => Raise e
    end.

Declare Scope method_scope.
Delimit Scope method_scope with method.
Notation "x <- c ;; k" := (bind c (fun x => k))
  (at level 61, c at next level, right associativity) : method_scope.
Notation "c ;; k" := (bind c (fun _ => k))
  (at level 61, right associativity) : method_scope.

Definition get_self : method DataQualityValidator :=
  fun self => Return (self, self).

(** An expression of the method body that may raise. *)
Definition eval {A} (r : result A) : method A :=
  fun self =>
    match r with
    | Return a => Return (a, self)
    | Raise e => Raise e
    end.

(** The validator with [msgs] put at the end of its list of errors, or of
    warnings. *)
Definition add_errors (self : DataQualityValidator) (msgs : list string)
  : DataQualityValidator :=
  {| df := df self;
     errors := errors self ++ msgs;
     warnings := warnings self |}.

Definition add_warnings (self : DataQualityValidator) (msgs : list string)
  : DataQualityValidator :=
  {| df := df self;
     errors := errors self;
     warnings := warnings self ++ msgs |}.

(** [self.errors.append(msg)] *)
Definition errors_append (msg : string) : method unit :=
  fun self => Return (tt, add_errors self [msg]).

(** [self.warnings.append(msg)] *)
Definition warnings_append (msg : string) : method unit :=
  fun self => Return (tt, add_warnings self [msg]).

(** [for x in xs: body(x)] *)
Fixpoint for_each {A} (xs : list A) (body : A -> method unit) : method unit :=
  match xs with
  | [] => ret tt
  | x :: xs' => (body x ;; for_each xs' body)%method
  end.

(** [mask.sum()]: the number of true entries of a boolean column. *)
Definition series_sum (mask : list bool) : nat :=
  List.length (filter (fun b => b) mask).

(** A column the checks loop over: its name and the cells under it. *)
Definition column (V : Type) : Type := (string * (UnifiedRecord -> V))%type.

Definition critical_columns : list (column cell) :=
  [ ("country_region", country_region);
    ("date", date);
    ("confirmed", fun r => num_cell (confirmed r));
    ("deaths", fun r => num_cell (deaths r)) ].

Definition numeric_columns : list (column (option Z)) :=
  [ ("confirmed", confirmed);
    ("deaths", deaths);
    ("recovered", recovered) ].

(** The body of the loop of [check_null_values]. *)
Definition null_values_in (col : column cell) : method unit :=
  (self <- get_self ;;
   let null_count :=
     series_sum (map (fun r => isnull (snd col r)) (df self)) in
   if (0 <? null_count)%nat
   then errors_append ("Found " ++ str_of_nat null_count
                       ++ " NULL values in " ++ fst col)
   else ret tt)%method.

Definition check_null_values : method bool :=
  (for_each critical_columns null_values_in ;;
   self <- get_self ;;
   ret (List.length (errors self) =? 0)%nat)%method.

(** [x < 0] on a cell of a numeric column; a missing value compares false. *)
Definition lt_zero (o : option Z) : bool :=
  match o with
  | Some z => (z <? 0)%Z
  | None => false
  end.

(** The body of the loop of [check_negative_values]. *)
Definition negative_values_in (col : column (option Z)) : method unit :=
  (self <- get_self ;;
   let negative_count :=
     series_sum (map (fun r => lt_zero (snd col r)) (df self)) in
   if (0 <? negative_count)%nat
   then warnings_append ("Found " ++ str_of_nat negative_count
                         ++ " negative values in " ++ fst col)
   else ret tt)%method.

Definition check_negative_values : method bool :=
  (for_each numeric_columns negative_values_in ;;
   ret true)%method.  (* Warnings don't fail validation *)

(** Comparison of a cell of the [date] column with a Timestamp.  NaT
    compares false; a cell that is no datetime (the 0 that [fillna(0)] puts
    in place of NaT, a text) cannot be compared and pandas raises. *)
Definition compare_timestamp (cmp : Z -> Z -> bool) (c : cell) (t : Timestamp)
  : result bool :=
  match c with
  | Date d => Return (cmp d t)
  | Null => Return false
  | Num _ => Raise (TypeError "int")
  | Str _ => Raise (TypeError "str")
  end.

Definition series_lt (col : list cell) (t : Timestamp) : result (list bool) :=
  mapM (fun c => compare_timestamp Z.ltb c t) col.

Definition series_gt (col : list cell) (t : Timestamp) : result (list bool) :=
  mapM (fun c => compare_timestamp Z.gtb c t) col.

(** [a | b] on two boolean columns. *)
Definition series_or (a b : list bool) : list bool :=
  map (fun xy => fst xy || snd xy) (combine a b).

(** [df[mask]] *)
Definition select {A} (rows : list A) (mask : list bool) : list A :=
  map fst (filter snd (combine rows mask)).

(** [now] is the reading of the clock, [pd.Timestamp.now()]. *)
Definition check_date_range (now : Timestamp) : method bool :=
  (let min_date := ts_2020_01_01 in
   let max_date := now in
   self <- get_self ;;
   too_early <- eval (series_lt (map date (df self)) min_date) ;;
   too_late <- eval (series_gt (map date (df self)) max_date) ;;
   let invalid_dates := select (df self) (series_or too_early too_late) in
   (if (0 <? List.length invalid_dates)%nat
    then errors_append ("Found " ++ str_of_nat (List.length invalid_dates)
                        ++ " records with invalid dates")
    else ret tt) ;;
   ret (List.length invalid_dates =? 0)%nat)%method.

(** [a - b] on two numeric columns. *)
Definition series_sub (a b : list (option Z)) : list (option Z) :=
  map (fun xy => sub (fst xy) (snd xy)) (combine a b).

(** [x != y] on cells of numeric columns; a missing value differs from
    everything, itself included. *)
Definition ne (a b : option Z) : bool :=
  match a, b with
  | Some x, Some y => negb (x =? y)%Z
  | _, _ => true
  end.

Definition series_ne (a b : list (option Z)) : list bool :=
  map (fun xy => ne (fst xy) (snd xy)) (combine a b).

Definition check_logical_consistency : method bool :=
  (self <- get_self ;;
   let expected_active :=
     series_sub (series_sub (map confirmed (df self)) (map deaths (df self)))
                (map recovered (df self)) in
   let inconsistent :=
     series_sum (series_ne (map active (df self)) expected_active) in
   (if (0 <? inconsistent)%nat
    then errors_append ("Found " ++ str_of_nat inconsistent
                        ++ " records with inconsistent active calculation")
    else ret tt) ;;
   ret (inconsistent =? 0)%nat)%method.

Definition checks (now : Timestamp) : list (string * method bool) :=
  [ ("NULL values check", check_null_values);
    ("Negative values check", check_negative_values);
    ("Date range check", check_date_range now);
    ("Logical consistency check", check_logical_consistency) ].

(** The loop of [validate_all] over [checks], [all_passed] being the flag it
    maintains. *)
Fixpoint run_checks (cs : list (string * method bool)) (all_passed : bool)
  : method bool :=
  match cs with
  | [] => ret all_passed
  | (name, check_func) :: cs' =>
      (passed <- check_func ;;
       run_checks cs' (if negb passed then false else all_passed))%method
  end.

Definition validate_all (now : Timestamp)
  : method (bool * list string * list string) :=
  (all_passed <- run_checks (checks now) true ;;
   self <- get_self ;;
   ret (all_passed, errors self, warnings self))%method.

(** The value a method call returns. *)
Definition returned {A} (r : result (A * DataQualityValidator)) : result A :=
  match r with
  | Return (a, _) => Return a
  | Raise e => Raise e
  end.

(** [validate_data(df)], run when the clock reads [now]. *)
Definition validate_data (now : Timestamp) (df : list UnifiedRecord)
  : result (bool * list string * list string) :=
  let validator := init df in
  returned (validate_all now validator).

(** The [date] column has dtype datetime64: every cell is a Timestamp or
    NaT. *)
Definition is_datetime (c : cell) : bool :=
  match c with
  | Date _ | Null => true
  | Num _ | Str _ => false
  end.

Definition datetime_dates (df : list UnifiedRecord) : Prop :=
  forall r, In r df -> is_datetime (date r) = true.

Definition is_empty {A} (l : list A) : bool :=
  match l with
  | [] => true
  | _ :: _ => false
  end.

(** ** Sample data *)

Module Sample.

Definition chad : RawRow :=
  {| Province_State := None; Country_Region := Some "Chad";
     Lat := Some "15.4542"; Long := Some "18.7322";
     counts := [Some 1%Z; Some 2%Z] |}.

Definition hubei : RawRow :=
  {| Province_State := Some "Hubei"; Country_Region := Some "China";
     Lat := Some "30.9756"; Long := Some "112.2707";
     counts := [Some 444%Z; None] |}.

(** Two rows, two date columns. *)
Definition wide : RawSeriesTable :=
  {| date_labels := ["1/22/20"; "1/23/20"]; raw_rows := [chad; hubei] |}.


(** A file with that header and no data line. *)
Definition header_only : RawSeriesTable :=
  {| date_labels := ["1/22/20"; "Unnamed: 5"]; raw_rows := [] |}.

(** The long table of [wide]. *)
Definition long : list (LongRecord (option Timestamp)) :=
  let d22 := Some (ts_2020_01_01 + 21 * MDY.ns_per_day)%Z in
  let d23 := Some (ts_2020_01_01 + 22 * MDY.ns_per_day)%Z in
  [ with_date (melt_cell 0 "1/22/20" chad) d22;
    with_date (melt_cell 0 "1/22/20" hubei) d22;
    with_date (melt_cell 1 "1/23/20" chad) d23;
    with_date (melt_cell 1 "1/23/20" hubei) d23 ].

Definition d22 : option Timestamp := Some (ts_2020_01_01 + 21 * MDY.ns_per_day)%Z.

Definition norm (region sub_region : option string) (d : option Timestamp) (v : Z)
  : NormRecord :=
  {| n_province_state := sub_region; n_country_region := region;
     n_date := d; n_value := Some v |}.

(** Three long tables for one day.  France is known to the deaths table
    only. *)
Definition confirmed_df : list NormRecord :=
  [ norm (Some "Chad") (Some "All") d22 1;
    norm (Some "China") (Some "Hubei") d22 444 ].

Definition deaths_df : list NormRecord :=
  [ norm (Some "China") (Some "Hubei") d22 17;
    norm (Some "France") (Some "All") d22 2 ].

Definition recovered_df : list NormRecord :=
  [ norm (Some "China") (Some "Hubei") d22 28 ].

Definition unified (region sub_region : string) (d : Timestamp) (c de r a : Z)
  : UnifiedRecord :=
  {| country_region := Str region; province_state := Str sub_region;
     date := Date d;
     confirmed := Some c; deaths := Some de; recovered := Some r;
     active := Some a |}.

Definition france : UnifiedRecord :=
  unified "France" "All" (ts_2020_01_01 + 21 * MDY.ns_per_day)%Z 0 2 0 (-2).

(** One record dated 2021-01-01, and two readings of the clock around it:
    2020-06-01 and 2022-01-01. *)
Definition ts (y m d : Z) : Timestamp :=
  (MDY.days_from_civil y m d * MDY.ns_per_day)%Z.

Definition new_year_2021 : list UnifiedRecord :=
  [ unified "Chad" "All" (ts 2021 1 1) 100 5 10 85 ].

Definition mid_2020 : Timestamp := ts 2020 6 1.
Definition early_2022 : Timestamp := ts 2022 1 1.
Definition mid_2023 : Timestamp := ts 2023 6 1.

(** A wide table whose last column is labelled [NaT] and whose only row
    names no country. *)
Definition wide_nat_label : RawSeriesTable :=
  {| date_labels := ["1/22/20"; "NaT"];
     raw_rows := [ {| Province_State := None; Country_Region := None;
                      Lat := None; Long := None;
                      counts := [Some 3%Z; Some 4%Z] |} ] |}.

Definition no_rows : RawSeriesTable :=
  {| date_labels := ["1/22/20"; "NaT"]; raw_rows := [] |}.

End Sample.

(** ** What the rules of the gate report *)

(** The message of a rule that counted [n] offending rows: none when the
    count is 0. *)
Definition found (n : nat) (what : string) : list string :=
  if (0 <? n)%nat then [("Found " ++ str_of_nat n ++ what)%string] else [].

Definition null_count (col : column cell) (df : list UnifiedRecord) : nat :=
  series_sum (map (fun r => isnull (snd col r)) df).

Definition negative_count (col : column (option Z)) (df : list UnifiedRecord)
  : nat :=
  series_sum (map (fun r => lt_zero (snd col r)) df).

Definition null_messages (df : list UnifiedRecord) : list string :=
  flat_map (fun col => found (null_count col df)
                             (" NULL values in " ++ fst col))
           critical_columns.

Definition negative_messages (df : list UnifiedRecord) : list string :=
  flat_map (fun col => found (negative_count col df)
                             (" negative values in " ++ fst col))
           numeric_columns.

(** The mask of [check_date_range] on one cell of a datetime column. *)
Definition out_of_range (now : Timestamp) (c : cell) : bool :=
  match c with
  | Date t => (t <? ts_2020_01_01)%Z || (t >? now)%Z
  | _ => false
  end.

Definition invalid_dates (now : Timestamp) (df : list UnifiedRecord)
  : list UnifiedRecord :=
  filter (fun r => out_of_range now (date r)) df.

Definition date_messages (now : Timestamp) (df : list UnifiedRecord)
  : list string :=
  found (List.length (invalid_dates now df)) " records with invalid dates".

(** The mask of [check_logical_consistency] on one row. *)
Definition inconsistent (r : UnifiedRecord) : bool :=
  ne (active r) (sub (sub (confirmed r) (deaths r)) (recovered r)).

Definition consistency_messages (df : list UnifiedRecord) : list string :=
  found (series_sum (map inconsistent df))
        " records with inconsistent active calculation".

(** A record none of the blocking rules objects to. *)
Definition clean_record (now : Timestamp) (r : UnifiedRecord) : Prop :=
  country_region r <> Null
  /\ (exists t, date r = Date t /\ (ts_2020_01_01 <= t <= now)%Z)
  /\ exists c d rec,
       confirmed r = Some c /\ deaths r = Some d /\ recovered r = Some rec
       /\ active r = Some (c - d - rec)%Z.

(** A record the warning rule has nothing to say about. *)
Definition no_negative_count (r : UnifiedRecord) : Prop :=
  lt_zero (confirmed r) = false /\ lt_zero (deaths r) = false
  /\ lt_zero (recovered r) = false.

(** More sample datasets for the gate. *)
Module GateSample.

(** One record whose recovered count is negative and whose active fits. *)
Definition negative_recovered : list UnifiedRecord :=
  [ Sample.unified "Chad" "All" (Sample.ts 2021 1 1) 100 5 (-5) 100 ].

(** A record whose date went missing and was filled with 0. *)
Definition date_filled : list UnifiedRecord :=
  merge_datasets [] [ Sample.norm (Some "Chad") (Some "All") None 5 ] [].

End GateSample.

(** ** Counting rows by key *)

(** The number of rows of a long table under key [k]. *)
Definition occurrences (k : MergeKey) (table : list NormRecord) : nat :=
  List.length (matches k (on_keys table)).

(** The number of rows an outer join has for a key that occurs [a] times on
    the left and [b] times on the right. *)
Definition joined_rows (a b : nat) : nat :=
  if (a =? 0)%nat then b else a * Nat.max 1 b.

Definition cell_eqb (x y : cell) : bool :=
  match x, y with
  | Null, Null => true
  | Str a, Str b => String.eqb a b
  | Num a, Num b => Z.eqb a b
  | Date a, Date b => Z.eqb a b
  | _, _ => false
  end.

Definition cells_eqb (k1 k2 : cell * cell * cell) : bool :=
  let '(a1, b1, c1) := k1 in
  let '(a2, b2, c2) := k2 in
  cell_eqb a1 a2 && cell_eqb b1 b2 && cell_eqb c1 c2.

(** The rows of a merged dataset that carry the key cells [k]. *)
Definition rows_with_key (k : cell * cell * cell) (df : list UnifiedRecord)
  : list UnifiedRecord :=
  filter (fun row => cells_eqb (key_of row) k) df.

(** More sample tables for the Merger. *)
Module MergeSample.

(** The confirmed table names Chad twice for the same day. *)
Definition confirmed_twice : list NormRecord :=
  [ Sample.norm (Some "Chad") (Some "All") Sample.d22 1;
    Sample.norm (Some "Chad") (Some "All") Sample.d22 3 ].

Definition deaths_twice : list NormRecord :=
  [ Sample.norm (Some "Chad") (Some "All") Sample.d22 0;
    Sample.norm (Some "Chad") (Some "All") Sample.d22 2 ].

Definition chad_key : MergeKey := (Some "Chad", Some "All", Sample.d22).

Definition hubei_deaths : NormRecord :=
  Sample.norm (Some "China") (Some "Hubei") Sample.d22 17.

End MergeSample.

(** ** Tables the Reshaper can convert *)

(** A wide table is readable when it has no row, or every date label is
    accepted under the way of reading that its header fixes. *)
Definition readable (parse_datetime : DateParser) (df : RawSeriesTable)
  : Prop :=
  raw_rows df = []
  \/ forall l, In l (date_labels df) ->
               reader parse_datetime (date_labels df) l <> None.

(** The labels that reach the date column of the long table: those of the
    header when the table has a row, none otherwise. *)
Definition labels_in_use (df : RawSeriesTable) : list string :=
  match raw_rows df with
  | [] => []
  | _ :: _ => date_labels df
  end.

(** What the labels in use are read as. *)
Definition dates_read (parse_datetime : DateParser) (df : RawSeriesTable)
  : list (option (option Timestamp)) :=
  map (reader parse_datetime (date_labels df)) (labels_in_use df).

(** The dtype of the region column of the long table of a wide table: the
    long table has rows when the wide table has a row and a date column. *)
Definition long_region_dtype (df : RawSeriesTable) : option dtype :=
  match raw_rows df, date_labels df with
  | _ :: _, _ :: _ =>
      Some (if forallb (fun r => is_none (Country_Region r)) (raw_rows df)
            then float64 else object)
  | _, _ => None
  end.

(** Three region columns that agree: those of the tables with rows have
    one dtype. *)
Definition regions_agree (a b c : option dtype) : Prop :=
  forall x y, In (Some x) [a; b; c] -> In (Some y) [a; b; c] -> x = y.

(** Three region columns that the two merges accept. *)
Definition regions_merge (a b c : option dtype) : Prop :=
  exists ab abc,
    merge_region_dtype a b = Return ab
    /\ merge_region_dtype ab c = Return abc.

(** Two cells that [<=] accepts: both Timestamps, both numbers or both
    texts. *)
Definition same_kind (a b : cell) : bool :=
  match a, b with
  | Date _, Date _ | Num _, Num _ | Str _, Str _ => true
  | _, _ => false
  end.

(** More sample tables for the Reshaper. *)
Module ReshapeSample.

(** A header with two labels that are no dates, after a good one. *)
Definition two_bad_labels : RawSeriesTable :=
  {| date_labels := ["1/22/20"; "Unnamed: 5"; "total"];
     raw_rows := [Sample.chad; Sample.hubei] |}.

(** One row without country under the single label [NaT]. *)
Definition nat_only : RawSeriesTable :=
  {| date_labels := ["NaT"];
     raw_rows := [ {| Province_State := None; Country_Region := None;
                      Lat := None; Long := None;
                      counts := [Some 4%Z] |} ] |}.

(** A header with labels that are no dates, and no data line. *)
Definition two_bad_labels_no_rows : RawSeriesTable :=
  {| date_labels := ["Unnamed: 5"; "total"]; raw_rows := [] |}.

(** A header whose first label has a four-digit year and whose second has
    a two-digit one. *)
Definition mixed_years : RawSeriesTable :=
  {| date_labels := ["1/22/2020"; "1/23/20"];
     raw_rows := [ Sample.chad ] |}.

End ReshapeSample.

(** ** Loader and orchestrator: the calls to the outside *)

(** What ends a call early: a Python exception of the modelled code, or an
    exception raised by a collaborator (requests, the file system,
    psycopg2). *)
Inductive error : Type :=
| Exn (e : exn)
| External (what : string).

Inductive outcome (A : Type) : Type :=
| Done (a : A)
| Failed (e : error).
Arguments Done {A} a.
Arguments Failed {A} e.

(** A row as [load_data] sends it. *)
Record DataTuple : Type := {
  t_country_region : cell;
  t_province_state : cell;
  t_date : cell;
  t_confirmed : Z;
  t_deaths : Z;
  t_recovered : Z;
  t_active : Z;
  t_run_id : Z
}.

(** The result of [get_latest_stats]. *)
Record Stats : Type := {
  total_records : cell;
  countries : cell;
  earliest_date : cell;
  latest_date : cell;
  total_confirmed : cell;
  total_deaths : cell
}.

(** The calls that leave the process.  The methods of the loader other than
    [load_data] are thin wrappers around one statement and count as one
    action each; [load_data] is modelled down to [execute_values],
    [commit] and [rollback]. *)
Inductive Action : Type :=
| MakeDirs (dir : string)
| Download (filename : string)
| ReadCsv (filename : string)
| Connect
| CreateRunMetadata (data_source_url : string)
| Execute (batch : list DataTuple)
| Commit
| Rollback
| UpdateMetadata (run_id : Z) (records_processed : nat) (status : string)
| GetLatestStats
| Close.

Definition touches_database (a : Action) : bool :=
  match a with
  | MakeDirs _ | Download _ | ReadCsv _ => false
  | _ => true
  end.

(** The outside: how each call answers, given the calls made so far, plus
    the date parser of pandas and the reading of the clock. *)
Record World : Type := {
  w_parse_datetime : DateParser;
  w_now : Timestamp;
  w_makedirs : list Action -> string -> outcome unit;
  w_download : list Action -> string -> outcome string;
  w_read_csv : list Action -> string -> outcome RawSeriesTable;
  w_connect : list Action -> outcome unit;
  w_create_run_metadata : list Action -> string -> outcome Z;
  w_execute_values : list Action -> list DataTuple -> outcome unit;
  w_commit : list Action -> outcome unit;
  w_rollback : list Action -> outcome unit;
  w_update_metadata : list Action -> Z -> nat -> string -> outcome unit;
  w_get_latest_stats : list Action -> option Stats;
  w_close : list Action -> outcome unit
}.

(** A computation that makes calls to the outside: it extends the log of
    calls and ends normally or with an exception. *)
Definition io (A : Type) : Type := list Action -> list Action * outcome A.

Definition io_ret {A} (a : A) : io A := fun log => (log, Done a).

Definition io_raise {A} (e : error) : io A := fun log => (log, Failed e).

Definition io_bind {A B} (m : io A) (k : A -> io B) : io B :=
  fun log =>
    match m log with
    | (log', Done a) => k a log'
    | (log', Failed e) => (log', Failed e)
    end.

Declare Scope io_scope.
Delimit Scope io_scope with io.
Notation "x <- c ;; k" := (io_bind c (fun x => k))
  (at level 61, c at next level, right associativity) : io_scope.
Notation "c ;; k" := (io_bind c (fun _ => k))
  (at level 61, right associativity) : io_scope.

(** One call: it is logged, and the outside answers. *)
Definition perform {A} (a : Action) (answer : list Action -> outcome A)
  : io A :=
  fun log => (log ++ [a], answer log).

(** A piece of the modelled code that may raise. *)
Definition io_eval {A} (r : result A) : io A :=
  match r with
  | Return a => io_ret a
  | Raise e => io_raise (Exn e)
  end.

(** [try: body  except Exception as e: handler(e)] *)
Definition try_except {A} (body : io A) (handler : error -> io A) : io A :=
  fun log =>
    match body log with
    | (log', Done a) => (log', Done a)
    | (log', Failed e) => handler e log'
    end.

Fixpoint io_for_each {A} (xs : list A) (body : A -> io unit) : io unit :=
  match xs with
  | [] => io_ret tt
  | x :: xs' => (body x ;; io_for_each xs' body)%io
  end.

Fixpoint io_mapM {A B} (f : A -> io B) (xs : list A) : io (list B) :=
  match xs with
  | [] => io_ret []
  | x :: xs' =>
      (y <- f x ;;
       ys <- io_mapM f xs' ;;
       io_ret (y :: ys))%io
  end.

(** [int(x)] on a cell of a numeric column. *)
Definition int (x : option Z) : result Z :=
  match x with
  | Some z => Return z
  | None => Raise (ValueError "cannot convert float NaN to integer")
  end.

Definition data_tuple (run_id : Z) (row : UnifiedRecord) : result DataTuple :=
  (c <- int (confirmed row) ;;
   d <- int (deaths row) ;;
   r <- int (recovered row) ;;
   a <- int (active row) ;;
   Return {| t_country_region := country_region row;
             t_province_state := province_state row;
             t_date := date row;
             t_confirmed := c;
             t_deaths := d;
             t_recovered := r;
             t_active := a;
             t_run_id := run_id |})%result.

(** [range(0, stop, step)] for a positive [step]. *)
Definition range_step (stop step : nat) : list nat :=
  map (fun q => q * step) (seq 0 ((stop + step - 1) / step)).

(** [data[i:j]] for [i <= j]. *)
Definition slice {A} (data : list A) (i j : nat) : list A :=
  firstn (j - i) (skipn i data).

Definition batch_size : nat := 1000.

(** The batches the loop of [load_data] cuts [data] into. *)
Definition batches {A} (size : nat) (data : list A) : list (list A) :=
  map (fun i => slice data i (i + size)) (range_step (List.length data) size).

Section Outside.

Variable W : World.

Definition load_data (df : list UnifiedRecord) (run_id : Z) : io nat :=
  (data <- io_eval (mapM (data_tuple run_id) df) ;;
   try_except
     (io_for_each (batches batch_size data)
        (fun batch => perform (Execute batch)
                        (fun log => w_execute_values W log batch)) ;;
      perform Commit (w_commit W) ;;
      io_ret (List.length data))
     (fun e =>
        perform Rollback (w_rollback W) ;;
        io_raise e))%io.

Definition files : list string :=
  [ "time_series_covid19_confirmed_global.csv";
    "time_series_covid19_deaths_global.csv";
    "time_series_covid19_recovered_global.csv" ].

(** [CovidDataExtractor.extract_all]: file name and path of each download,
    in the order of [files]. *)
Definition extract_all : io (list (string * string)) :=
  io_mapM (fun filename =>
             (path <- perform (Download filename)
                        (fun log => w_download W log filename) ;;
              io_ret (filename, path))%io)
          files.

Definition load_raw_data (filename : string) : io RawSeriesTable :=
  perform (ReadCsv filename) (fun log => w_read_csv W log filename).

(** [CovidDataTransformer.transform_all], reading included. *)
Definition transform_all_from_files : io (list UnifiedRecord) :=
  (confirmed_raw <- load_raw_data "time_series_covid19_confirmed_global.csv" ;;
   deaths_raw <- load_raw_data "time_series_covid19_deaths_global.csv" ;;
   recovered_raw <- load_raw_data "time_series_covid19_recovered_global.csv" ;;
   io_eval (transform_all (w_parse_datetime W)
              confirmed_raw deaths_raw recovered_raw))%io.

Definition data_source_url : string :=
  "https://github.com/CSSEGISandData/COVID-19".

(** Step 4 of [run_pipeline], "Load": everything after the gate let the
    dataset through. *)
Definition load_stage (df : list UnifiedRecord) : io bool :=
  (perform Connect (w_connect W) ;;
   run_id <- perform (CreateRunMetadata data_source_url)
               (fun log => w_create_run_metadata W log data_source_url) ;;
   records_loaded <- load_data df run_id ;;
   perform (UpdateMetadata run_id records_loaded "SUCCESS")
     (fun log => w_update_metadata W log run_id records_loaded "SUCCESS") ;;
   stats <- perform GetLatestStats
              (fun log => Done (w_get_latest_stats W log)) ;;
   perform Close (w_close W) ;;
   io_ret true)%io.

(** The body of the [try] of [run_pipeline]. *)
Definition pipeline_steps : io bool :=
  (perform (MakeDirs "data/raw") (fun log => w_makedirs W log "data/raw") ;;
   files <- extract_all ;;
   df <- transform_all_from_files ;;
   report <- io_eval (validate_data (w_now W) df) ;;
   let '(passed, errors, warnings) := report in
   if negb passed then io_ret false
   else load_stage df)%io.

(** [run_pipeline]: the calls it made, and what it returned. *)
Definition run_pipeline : list Action * bool :=
  match try_except pipeline_steps (fun e => io_ret false) [] with
  | (log, Done b) => (log, b)
  | (log, Failed _) => (log, false)
  end.

End Outside.

(** The calls of [run_pipeline] before the gate, when none of them fails:
    the directory, the three downloads, the three reads. *)
Definition calls_before_gate : list Action :=
  [ MakeDirs "data/raw";
    Download "time_series_covid19_confirmed_global.csv";
    Download "time_series_covid19_deaths_global.csv";
    Download "time_series_covid19_recovered_global.csv";
    ReadCsv "time_series_covid19_confirmed_global.csv";
    ReadCsv "time_series_covid19_deaths_global.csv";
    ReadCsv "time_series_covid19_recovered_global.csv" ].

(** The calls of the load stage when none of them fails. *)
Definition calls_of_load (run_id : Z) (data : list DataTuple) : list Action :=
  [Connect; CreateRunMetadata data_source_url]
  ++ map Execute (batches batch_size data)
  ++ [ Commit;
       UpdateMetadata run_id (List.length data) "SUCCESS";
       GetLatestStats;
       Close ].

(** Sample worlds. *)
Module WorldSample.

(** Nothing fails; every file holds the table [Sample.wide]; the run id
    is 7. *)
Definition calm : World :=
  {| w_parse_datetime := MDY.parse;
     w_now := Sample.mid_2023;
     w_makedirs := fun _ _ => Done tt;
     w_download := fun _ filename => Done ("data/raw/" ++ filename)%string;
     w_read_csv := fun _ _ => Done Sample.wide;
     w_connect := fun _ => Done tt;
     w_create_run_metadata := fun _ _ => Done 7%Z;
     w_execute_values := fun _ _ => Done tt;
     w_commit := fun _ => Done tt;
     w_rollback := fun _ => Done tt;
     w_update_metadata := fun _ _ _ _ => Done tt;
     w_get_latest_stats := fun _ => None;
     w_close := fun _ => Done tt |}.

(** The same, but the database refuses the commit. *)
Definition commit_refused : World :=
  {| w_parse_datetime := MDY.parse;
     w_now := Sample.mid_2023;
     w_makedirs := fun _ _ => Done tt;
     w_download := fun _ filename => Done ("data/raw/" ++ filename)%string;
     w_read_csv := fun _ _ => Done Sample.wide;
     w_connect := fun _ => Done tt;
     w_create_run_metadata := fun _ _ => Done 7%Z;
     w_execute_values := fun _ _ => Done tt;
     w_commit := fun _ => Failed (External "connection lost");
     w_rollback := fun _ => Done tt;
     w_update_metadata := fun _ _ _ _ => Done tt;
     w_get_latest_stats := fun _ => None;
     w_close := fun _ => Done tt |}.

(** A record without a recovered count. *)
Definition recovered_missing : list UnifiedRecord :=
  [ {| country_region := Str "Chad"; province_state := Str "All";
       date := Date (Sample.ts 2021 1 1);
       confirmed := Some 100%Z; deaths := Some 5%Z; recovered := None;
       active := None |} ].

End WorldSample.

(** * Properties *)

(** ** Runs on concrete inputs *)

Example parse_first_day :
  parse_datetime_string MDY.parse "1/1/20" = Some (Some ts_2020_01_01).
Proof. reflexivity. Qed.

Example parse_jhu_first_column :
  parse_datetime_string MDY.parse "1/22/20"
  = Some (Some (ts_2020_01_01 + 21 * MDY.ns_per_day)%Z).
Proof. reflexivity. Qed.

Example parse_unnamed_column :
  parse_datetime_string MDY.parse "Unnamed: 5" = None.
Proof. reflexivity. Qed.

Example parse_bad_day : parse_datetime_string MDY.parse "2/30/20" = None.
Proof. reflexivity. Qed.

(** A two-digit year is resolved against the clock: [70] is 2070 in
    2026. *)
Example parse_two_digit_year :
  parse_datetime_string MDY.parse "1/22/70"
  = Some (Some (Sample.ts 2070 1 22))
  /\ parse_datetime_string MDY.parse "1/22/76"
     = Some (Some (Sample.ts 1976 1 22)).
Proof. split; reflexivity. Qed.

(** A four-digit year gives a format, and the format then binds the whole
    column: a label with a two-digit year, read without complaint on its
    own, is refused under it. *)
Example parse_four_digit_year :
  guess_datetime_format MDY.parse "1/22/2020" = Some "%m/%d/%Y"
  /\ array_strptime MDY.parse "%m/%d/%Y" "1/22/2020"
     = Some (Some (Sample.ts 2020 1 22))
  /\ array_strptime MDY.parse "%m/%d/%Y" "1/23/20" = None
  /\ parse_datetime_string MDY.parse "1/23/20"
     = Some (Some (Sample.ts 2020 1 23)).
Proof. repeat split; reflexivity. Qed.

Example pivot_sample :
  pivot_to_long_format MDY.parse Sample.wide = Return Sample.long.
Proof. reflexivity. Qed.

Example pivot_mixed_years :
  pivot_to_long_format MDY.parse ReshapeSample.mixed_years
  = Raise (ValueError "1/23/20").
Proof. reflexivity. Qed.

(** ** Generic facts on [mapM] and on lists *)

Lemma mapM_Return_inv {A B} (f : A -> result B) xs ys :
  mapM f xs = Return ys -> Forall2 (fun x y => f x = Return y) xs ys.
Proof.
  revert ys; induction xs as [|x xs IH]; simpl; intros ys H.
  - injection H as <-. constructor.
  - destruct (f x) as [y|e] eqn:Hx; simpl in H; [|discriminate].
    destruct (mapM f xs) as [ys'|e] eqn:Hxs; simpl in H; [|discriminate].
    injection H as <-. constructor; auto.
Qed.

Lemma mapM_total {A B} (f : A -> result B) (g : A -> B) xs :
  (forall x, In x xs -> f x = Return (g x)) ->
  mapM f xs = Return (map g xs).
Proof.
  induction xs as [|x xs IH]; simpl; intros H; [reflexivity|].
  rewrite (H x) by auto. simpl. rewrite IH by auto. reflexivity.
Qed.

Lemma mapM_Raise {A B} (f : A -> result B) xs :
  (exists x, In x xs /\ exists e, f x = Raise e) ->
  exists x e, In x xs /\ f x = Raise e /\ mapM f xs = Raise e.
Proof.
  induction xs as [|x xs IH]; simpl; intros [x0 [Hin [e0 He0]]]; [contradiction|].
  destruct (f x) as [y|e] eqn:Hx.
  - destruct Hin as [->|Hin]; [congruence|].
    destruct IH as [x1 [e1 [Hin1 [Hf1 Hm1]]]]; [now exists x0; split; [|exists e0]|].
    exists x1, e1. simpl. rewrite Hm1. auto.
  - exists x, e. simpl. auto.
Qed.

Lemma Forall2_nth_error_l {A B} (P : A -> B -> Prop) xs ys :
  Forall2 P xs ys ->
  forall k x, nth_error xs k = Some x ->
  exists y, nth_error ys k = Some y /\ P x y.
Proof.
  induction 1 as [|x0 y0 xs ys HP _ IH]; intros [|k] x Hk; simpl in *;
    try discriminate.
  - injection Hk as <-. eauto.
  - eauto.
Qed.

Lemma Forall2_length_eq {A B} (P : A -> B -> Prop) xs ys :
  Forall2 P xs ys -> List.length xs = List.length ys.
Proof. induction 1; simpl; congruence. Qed.

Lemma nth_error_enumerate_from {A} (xs : list A) s j x :
  nth_error xs j = Some x ->
  nth_error (combine (seq s (List.length xs)) xs) j = Some (s + j, x).
Proof.
  revert s j; induction xs as [|a xs IH]; intros s [|j] H; simpl in *;
    try discriminate.
  - injection H as <-. f_equal. f_equal. lia.
  - rewrite (IH (S s) j H). f_equal. f_equal. lia.
Qed.

Lemma nth_error_enumerate {A} (xs : list A) j x :
  nth_error xs j = Some x -> nth_error (enumerate xs) j = Some (j, x).
Proof. intros H. unfold enumerate. now rewrite (nth_error_enumerate_from xs 0 j x H). Qed.

Lemma length_enumerate {A} (xs : list A) :
  List.length (enumerate xs) = List.length xs.
Proof. unfold enumerate. rewrite length_combine, length_seq. lia. Qed.

(** Position [j * n + i] of a concatenation of blocks of length [n] is
    position [i] of block [j]. *)
Lemma nth_error_flat_map_block {A B} (f : A -> list B) n :
  (forall x, List.length (f x) = n) ->
  forall l j i x,
    nth_error l j = Some x -> i < n ->
    nth_error (flat_map f l) (j * n + i) = nth_error (f x) i.
Proof.
  intros Hlen l; induction l as [|a l IH]; intros [|j] i x Hj Hi; simpl in *;
    try discriminate.
  - injection Hj as <-. apply nth_error_app1. rewrite Hlen. exact Hi.
  - rewrite nth_error_app2 by (rewrite Hlen; lia).
    rewrite Hlen. replace (n + j * n + i - n) with (j * n + i) by lia.
    now apply IH.
Qed.

(** ** Reshaper *)

Lemma find_app_all_false {A} (p : A -> bool) xs ys :
  (forall x, In x xs -> p x = false) -> find p (xs ++ ys) = find p ys.
Proof.
  induction xs as [|x xs IH]; intros H; [reflexivity|].
  cbn [app find]. rewrite (H x) by now left.
  apply IH. intros x' Hx'. apply H. now right.
Qed.

(** In a column that repeats each label once per row, the first label with
    a property is the first such label of the header. *)
Lemma find_repeat_blocks {A B} (p : A -> bool) (rows : list B) labels :
  rows <> [] ->
  find p (flat_map (fun l => map (fun _ => l) rows) labels) = find p labels.
Proof.
  intros Hrows. induction labels as [|l labels IH]; [reflexivity|].
  cbn [flat_map find]. destruct (p l) eqn:Hp.
  - destruct rows as [|r rows]; [congruence|]. cbn. now rewrite Hp.
  - rewrite find_app_all_false; [exact IH|].
    intros x Hx. apply in_map_iff in Hx as [_ [<- _]]. exact Hp.
Qed.

Lemma melt_dates_from (rows : list RawRow) labels s :
  map lr_date
      (flat_map (fun jl => map (melt_cell (fst jl) (snd jl)) rows)
                (combine (seq s (List.length labels)) labels))
  = flat_map (fun l => map (fun _ => l) rows) labels.
Proof.
  revert s. induction labels as [|l labels IH]; intros s; [reflexivity|].
  cbn [List.length seq combine flat_map]. rewrite map_app, IH, map_map.
  reflexivity.
Qed.

(** The [date] column after [melt]: each label once per row, label after
    label. *)
Lemma melt_dates df :
  map lr_date (melt df)
  = flat_map (fun l => map (fun _ => l) (raw_rows df)) (date_labels df).
Proof. unfold melt, enumerate. apply melt_dates_from. Qed.

Section ReshaperFacts.

Variable parse_datetime : DateParser.

Lemma length_melt df :
  List.length (melt df)
  = List.length (raw_rows df) * List.length (date_labels df).
Proof.
  unfold melt.
  rewrite flat_map_constant_length with (c := List.length (raw_rows df)).
  - rewrite length_enumerate. lia.
  - intros x _. apply length_map.
Qed.

Lemma nth_error_melt df i j r l :
  nth_error (raw_rows df) i = Some r ->
  nth_error (date_labels df) j = Some l ->
  nth_error (melt df) (j * List.length (raw_rows df) + i)
  = Some (melt_cell j l r).
Proof.
  intros Hi Hj. unfold melt.
  rewrite nth_error_flat_map_block with (x := (j, l)).
  - simpl. rewrite nth_error_map, Hi. reflexivity.
  - intros x. apply length_map.
  - now apply nth_error_enumerate.
  - apply nth_error_Some. congruence.
Qed.

Lemma melt_no_rows df : raw_rows df = [] -> melt df = [].
Proof.
  intros H. unfold melt. rewrite H.
  induction (enumerate (date_labels df)); simpl; auto.
Qed.

Lemma in_melt_date df m :
  In m (melt df) -> In (lr_date m) (date_labels df).
Proof.
  unfold melt. rewrite in_flat_map. intros [[j l] [Hjl Hm]].
  apply in_map_iff in Hm as [r [<- _]]. simpl.
  unfold enumerate in Hjl. now apply in_combine_r in Hjl.
Qed.

Lemma label_in_melt df l r :
  In l (date_labels df) -> In r (raw_rows df) ->
  exists m, In m (melt df) /\ lr_date m = l.
Proof.
  intros Hl Hr. apply In_nth_error in Hl as [j Hj].
  exists (melt_cell j l r). split; [|reflexivity].
  unfold melt. apply in_flat_map. exists (j, l). split.
  - eapply nth_error_In. now apply nth_error_enumerate.
  - simpl. now apply in_map.
Qed.

(** With a row in the table, the way the melted [date] column is read is
    the one its header fixes. *)
Lemma reader_melt df :
  raw_rows df <> [] ->
  reader parse_datetime (map lr_date (melt df))
  = reader parse_datetime (date_labels df).
Proof.
  intros Hrows. unfold reader, first_non_null.
  rewrite melt_dates, find_repeat_blocks by exact Hrows. reflexivity.
Qed.

Lemma pivot_no_rows df :
  raw_rows df = [] -> pivot_to_long_format parse_datetime df = Return [].
Proof.
  intros H. unfold pivot_to_long_format. rewrite (melt_no_rows df H).
  reflexivity.
Qed.

Lemma pivot_Return_inv df out :
  pivot_to_long_format parse_datetime df = Return out ->
  Forall2 (fun m o =>
             exists d, reader parse_datetime (date_labels df) (lr_date m)
                       = Some d
                       /\ o = with_date m d)
          (melt df) out.
Proof.
  destruct (raw_rows df) as [|r0 rows0] eqn:Er.
  { rewrite (pivot_no_rows df Er), (melt_no_rows df Er).
    intros H; injection H as <-. constructor. }
  unfold pivot_to_long_format, to_datetime.
  rewrite reader_melt by congruence.
  destruct (mapM _ _) as [dates|e] eqn:Hm; simpl; [|discriminate].
  intros H; injection H as <-.
  apply mapM_Return_inv in Hm. unfold assign_date.
  remember (melt df) as ms eqn:E; clear E.
  revert dates Hm; induction ms as [|m ms IH]; intros dates Hm;
    inversion Hm as [|? d ? ds Hd Hds]; subst; simpl; constructor.
  - exists d. split; [|reflexivity].
    unfold to_datetime_scalar in Hd.
    destruct (reader parse_datetime (date_labels df) (lr_date m));
      congruence.
  - auto.
Qed.

Lemma pivot_total df :
  (forall l, In l (date_labels df) ->
             reader parse_datetime (date_labels df) l <> None) ->
  exists out, pivot_to_long_format parse_datetime df = Return out.
Proof.
  intros Hp. destruct (raw_rows df) as [|r0 rows0] eqn:Er.
  { exists []. now apply pivot_no_rows. }
  unfold pivot_to_long_format, to_datetime.
  rewrite reader_melt by congruence.
  rewrite mapM_total
    with (g := fun s => match reader parse_datetime (date_labels df) s with
                        | Some d => d
                        | None => None
                        end).
  - simpl. eauto.
  - intros s Hs. apply in_map_iff in Hs as [m [<- Hm]].
    apply in_melt_date in Hm. specialize (Hp _ Hm).
    unfold to_datetime_scalar.
    destruct (reader parse_datetime (date_labels df) (lr_date m));
      congruence.
Qed.

(** C5.  Whenever the Reshaper hands back a long table for a wide table
    with R rows and D date columns, that table has exactly R * D records:
    the record at position [j * R + i] is the one of input row [i] and
    date column [j] (identifier cells of the row, the label as the column
    is read, the cell of the row under that column), so equal rows or
    equal labels are all kept.  The Reshaper does hand back a table when
    every label is accepted under the way of reading that the header
    fixes (the format inferred from its first label, or each label on its
    own when none is inferred), and also when the table has no rows. *)
Theorem reshape_row_count df :
  ((forall l, In l (date_labels df) ->
              reader parse_datetime (date_labels df) l <> None)
   \/ raw_rows df = [] ->
   exists out, pivot_to_long_format parse_datetime df = Return out)
  /\
  (forall out,
     pivot_to_long_format parse_datetime df = Return out ->
     List.length out
     = List.length (raw_rows df) * List.length (date_labels df)
     /\
     forall i j r l,
       nth_error (raw_rows df) i = Some r ->
       nth_error (date_labels df) j = Some l ->
       exists d,
         reader parse_datetime (date_labels df) l = Some d /\
         nth_error out (j * List.length (raw_rows df) + i)
         = Some {| lr_Province_State := Province_State r;
                   lr_Country_Region := Country_Region r;
                   lr_Lat := Lat r;
                   lr_Long := Long r;
                   lr_date := d;
                   lr_value := nth j (counts r) None |}).
Proof.
  split.
  - intros [Hp|Hr]; [now apply pivot_total|].
    exists []. now apply pivot_no_rows.
  - intros out Hout. apply pivot_Return_inv in Hout. split.
    + rewrite <- (Forall2_length_eq _ _ _ Hout). apply length_melt.
    + intros i j r l Hi Hj.
      destruct (Forall2_nth_error_l _ _ _ Hout _ _
                  (nth_error_melt df i j r l Hi Hj))
        as [o [Ho [d [Hd ->]]]].
      exists d. split; [exact Hd|exact Ho].
Qed.




End ReshaperFacts.

Lemma reshape_row_count_witness :
  exists out,
    pivot_to_long_format MDY.parse Sample.wide = Return out
    /\ List.length out = 4.
Proof.
  destruct (reshape_row_count MDY.parse Sample.wide) as [Hex Hlen].
  destruct Hex as [out Hout].
  { left. intros l [<-|[<-|[]]]; vm_compute; discriminate. }
  exists out. split; [exact Hout|].
  apply Hlen in Hout as [-> _]. reflexivity.
Defined.




(** ** Normalizer *)

Lemma clean_data_map df :
  clean_data df
  = map (fun r => drop_coordinates (fillna_province_state "All" (rename r))) df.
Proof. unfold clean_data. now rewrite !map_map. Qed.

(** C6.  [clean_data] keeps the records one for one and in place.  No record
    of its output has a missing sub-region: a record whose sub-region was
    missing carries ["All"], any other keeps its sub-region; region, date
    and value are carried over unchanged (the coordinates are gone, the
    fields have their new names). *)
Theorem subregion_defaulting (df : list (LongRecord (option Timestamp))) :
  List.length (clean_data df) = List.length df
  /\ (forall o, In o (clean_data df) -> n_province_state o <> None)
  /\ (forall i r,
        nth_error df i = Some r ->
        exists o,
          nth_error (clean_data df) i = Some o
          /\ (lr_Province_State r = None -> n_province_state o = Some "All")
          /\ (forall s, lr_Province_State r = Some s ->
                        n_province_state o = Some s)
          /\ n_country_region o = lr_Country_Region r
          /\ n_date o = lr_date r
          /\ n_value o = lr_value r).
Proof.
  rewrite clean_data_map. split; [apply length_map|]. split.
  - intros o Ho. apply in_map_iff in Ho as [r [<- _]]. simpl.
    destruct (lr_Province_State r); discriminate.
  - intros i r Hi. eexists. split.
    + rewrite nth_error_map, Hi. reflexivity.
    + simpl. repeat split; auto.
      * intros ->. reflexivity.
      * intros s ->. reflexivity.
Qed.

Lemma subregion_defaulting_witness :
  exists o,
    nth_error (clean_data Sample.long) 0 = Some o
    /\ n_province_state o = Some "All"
    /\ n_province_state o <> None.
Proof.
  destruct (subregion_defaulting Sample.long) as [_ [Hnn H]].
  destruct (H 0 _ eq_refl) as [o [Ho [Hall _]]].
  exists o. split; [exact Ho|]. split.
  - apply Hall. reflexivity.
  - apply Hnn. eapply nth_error_In. exact Ho.
Defined.

(** ** Merger: the outer join *)

Lemma option_eqb_eq {A} (eqb : A -> A -> bool) :
  (forall a b, eqb a b = true <-> a = b) ->
  forall x y, option_eqb eqb x y = true <-> x = y.
Proof.
  intros H [a|] [b|]; simpl; try (split; congruence).
  rewrite H. split; congruence.
Qed.

Lemma key_eqb_eq k1 k2 : key_eqb k1 k2 = true <-> k1 = k2.
Proof.
  destruct k1 as [[r1 p1] d1], k2 as [[r2 p2] d2]. unfold key_eqb.
  rewrite !andb_true_iff.
  rewrite !(option_eqb_eq String.eqb String.eqb_eq).
  rewrite (option_eqb_eq Z.eqb Z.eqb_eq).
  split; [intros [[-> ->] ->]; reflexivity|intros H; injection H; auto].
Qed.

Lemma key_eqb_refl k : key_eqb k k = true.
Proof. now apply key_eqb_eq. Qed.

Section OuterMergeFacts.

Context {A B : Type}.
Variable null_left : A.
Variable null_right : B.

Lemma in_matches (k : MergeKey) (right : keyed B) kb :
  In kb (matches k right) <-> In kb right /\ fst kb = k.
Proof.
  unfold matches. rewrite filter_In, key_eqb_eq. intuition congruence.
Qed.

Lemma matches_nil (k : MergeKey) (right : keyed B) :
  matches k right = [] <-> ~ In k (map fst right).
Proof.
  split.
  - intros E Hin. apply in_map_iff in Hin as [kb [Hk Hkb]].
    assert (H : In kb (matches k right)) by (apply in_matches; auto).
    rewrite E in H. exact H.
  - intros Hn. destruct (matches k right) as [|kb ms] eqn:E; [reflexivity|].
    exfalso. apply Hn.
    assert (H : In kb (matches k right)) by (rewrite E; now left).
    apply in_matches in H as [Hin <-]. now apply in_map.
Qed.

Lemma has_key_true (k : MergeKey) (left : keyed A) :
  has_key k left = true <-> In k (map fst left).
Proof.
  unfold has_key. rewrite existsb_exists, in_map_iff.
  split; intros [ka [H1 H2]]; exists ka.
  - apply key_eqb_eq in H2. auto.
  - split; [exact H2|]. now apply key_eqb_eq.
Qed.

Lemma has_key_false (k : MergeKey) (left : keyed A) :
  has_key k left = false <-> ~ In k (map fst left).
Proof.
  rewrite <- has_key_true. destruct (has_key k left); split; congruence.
Qed.

Lemma in_join_left_row (right : keyed B) (ka : MergeKey * A) k a b :
  In (k, (a, b)) (join_left_row null_right right ka) <->
  ka = (k, a)
  /\ (In (k, b) right \/ (b = null_right /\ ~ In k (map fst right))).
Proof.
  unfold join_left_row. destruct ka as [k0 a0]. simpl.
  destruct (matches k0 right) as [|kb ms] eqn:E.
  - apply matches_nil in E. simpl. split.
    + intros [H|[]]. injection H as <- <- <-. auto.
    + intros [H [Hin|[-> _]]]; injection H as -> ->.
      * exfalso. apply E. now apply (in_map fst) in Hin.
      * now left.
  - change (In (k, (a, b))
              (map (fun kb0 : MergeKey * B => (k0, (a0, snd kb0))) (kb :: ms))
            <-> (k0, a0) = (k, a)
                /\ (In (k, b) right
                    \/ (b = null_right /\ ~ In k (map fst right)))).
    rewrite <- E, in_map_iff. split.
    + intros [[k1 b1] [H Hin]]. simpl in H. injection H as <- <- <-.
      apply in_matches in Hin as [Hin Hk]. simpl in Hk. subst k1. auto.
    + intros [H [Hin|[_ Hn]]]; injection H as -> ->.
      * exists (k, b). split; [reflexivity|]. apply in_matches. auto.
      * exfalso. apply matches_nil in Hn. congruence.
Qed.

(** The rows of an outer join: a pair of rows with the same key, or a row of
    one side whose key the other side does not have, completed with missing
    values. *)
Lemma in_merge_outer (left : keyed A) (right : keyed B) k a b :
  In (k, (a, b)) (merge_outer null_left null_right left right) <->
  (In (k, a) left /\ In (k, b) right)
  \/ (In (k, a) left /\ b = null_right /\ ~ In k (map fst right))
  \/ (a = null_left /\ In (k, b) right /\ ~ In k (map fst left)).
Proof.
  unfold merge_outer. rewrite in_app_iff, in_flat_map, in_map_iff. split.
  - intros [[ka [Hka H]]|[[k1 b1] [H Hin]]].
    + apply in_join_left_row in H as [-> [H|[-> H]]]; auto.
    + simpl in H. injection H as <- <- <-.
      apply filter_In in Hin as [Hin Hk]. simpl in Hk.
      apply negb_true_iff, has_key_false in Hk. auto.
  - intros [[Ha Hb]|[[Ha [-> Hn]]|[-> [Hb Hn]]]].
    + left. exists (k, a). split; [exact Ha|]. apply in_join_left_row. auto.
    + left. exists (k, a). split; [exact Ha|]. apply in_join_left_row. auto.
    + right. exists (k, b). split; [reflexivity|].
      apply filter_In. split; [exact Hb|]. simpl.
      now apply negb_true_iff, has_key_false.
Qed.

(** An outer join keeps every key of both sides and invents none. *)
Lemma keys_merge_outer (left : keyed A) (right : keyed B) k :
  In k (map fst (merge_outer null_left null_right left right)) <->
  In k (map fst left) \/ In k (map fst right).
Proof.
  rewrite !in_map_iff. split.
  - intros [[k1 [a b]] [Hk H]]. simpl in Hk. subst k1.
    apply in_merge_outer in H as [[Ha _]|[[Ha _]|[_ [Hb _]]]].
    + left. now exists (k, a).
    + left. now exists (k, a).
    + right. now exists (k, b).
  - intros [[[k1 a] [Hk Ha]]|[[k1 b] [Hk Hb]]]; simpl in Hk; subst k1.
    + destruct (matches k right) as [|[k2 b] ms] eqn:E.
      * exists (k, (a, null_right)). split; [reflexivity|].
        apply in_merge_outer. right. left. apply matches_nil in E. auto.
      * assert (H : In (k2, b) (matches k right)) by (rewrite E; now left).
        apply in_matches in H as [Hb Hk]. simpl in Hk. subst k2.
        exists (k, (a, b)). split; [reflexivity|].
        apply in_merge_outer. auto.
    + destruct (has_key k left) eqn:E.
      * apply has_key_true, in_map_iff in E as [[k2 a] [Hk Ha]].
        simpl in Hk. subst k2.
        exists (k, (a, b)). split; [reflexivity|].
        apply in_merge_outer. auto.
      * exists (k, (null_left, b)). split; [reflexivity|].
        apply in_merge_outer. right. right. apply has_key_false in E. auto.
Qed.

Lemma matches_unique (right : keyed B) k :
  NoDup (map fst right) -> List.length (matches k right) <= 1.
Proof.
  induction right as [|[k1 b1] right IH]; simpl; intros Hnd; [lia|].
  apply NoDup_cons_iff in Hnd as [Hnin Hnd].
  destruct (key_eqb k k1) eqn:E; simpl.
  - apply key_eqb_eq in E. subst k1.
    change (S (List.length (matches k right)) <= 1).
    rewrite (proj2 (matches_nil k right) Hnin). simpl. lia.
  - now apply IH.
Qed.

Lemma keys_join_left_row (right : keyed B) (ka : MergeKey * A) :
  NoDup (map fst right) ->
  map fst (join_left_row null_right right ka) = [fst ka].
Proof.
  intros Hnd. unfold join_left_row.
  pose proof (matches_unique right (fst ka) Hnd) as Hlen.
  destruct (matches (fst ka) right) as [|kb [|kb' ms]]; simpl in *;
    [reflexivity|reflexivity|lia].
Qed.

Lemma keys_flat_map_join (left : keyed A) (right : keyed B) :
  NoDup (map fst right) ->
  map fst (flat_map (join_left_row null_right right) left) = map fst left.
Proof.
  intros Hnd. induction left as [|ka left IH]; simpl; [reflexivity|].
  rewrite map_app, IH, keys_join_left_row by exact Hnd. reflexivity.
Qed.

Lemma NoDup_keys_filter {V} (p : MergeKey * V -> bool) (rows : keyed V) :
  NoDup (map fst rows) -> NoDup (map fst (filter p rows)).
Proof.
  induction rows as [|kv rows IH]; simpl; intros Hnd; [constructor|].
  apply NoDup_cons_iff in Hnd as [Hnin Hnd].
  destruct (p kv); simpl; [|now apply IH].
  constructor; [|now apply IH].
  intros Hin. apply Hnin.
  apply in_map_iff in Hin as [kv' [Hk Hin]].
  apply filter_In in Hin as [Hin _]. rewrite <- Hk. now apply in_map.
Qed.

(** Keys that are unique on both sides stay unique in the outer join. *)
Lemma NoDup_keys_merge_outer (left : keyed A) (right : keyed B) :
  NoDup (map fst left) -> NoDup (map fst right) ->
  NoDup (map fst (merge_outer null_left null_right left right)).
Proof.
  intros Hl Hr. unfold merge_outer.
  rewrite map_app, keys_flat_map_join, map_map by exact Hr. simpl.
  apply NoDup_app.
  - exact Hl.
  - change (fun x : MergeKey * B => fst x) with (@fst MergeKey B).
    now apply NoDup_keys_filter.
  - intros k Hk Hin. apply in_map_iff in Hin as [kb [Hkb Hin]].
    apply filter_In in Hin as [_ Hf]. subst k.
    apply negb_true_iff, has_key_false in Hf. contradiction.
Qed.

End OuterMergeFacts.

(** ** Merger: [merge_datasets] *)

Lemma merge_datasets_eq c d r :
  merge_datasets c d r
  = map (fun kv => assign_active (fillna 0 (merged_row kv))) (outer_join3 c d r).
Proof. unfold merge_datasets, outer_join3. now rewrite !map_map. Qed.

Lemma keys_on_keys df : map fst (on_keys df) = map merge_keys df.
Proof. unfold on_keys. rewrite map_map. reflexivity. Qed.

Lemma key_of_merged kv :
  key_of (assign_active (fillna 0 (merged_row kv)))
  = fillna_key 0 (key_cells (fst kv)).
Proof. destruct kv as [[[cr ps] dt] [[c d] r]]. reflexivity. Qed.

(** On the cells of a merge key the fill loses nothing: distinct keys stay
    distinct, a missing text or date becoming the number 0, which no text
    and no date is. *)
Lemma fillna_key_inj k1 k2 :
  fillna_key 0 (key_cells k1) = fillna_key 0 (key_cells k2) -> k1 = k2.
Proof.
  destruct k1 as [[[r1|] [p1|]] [d1|]], k2 as [[[r2|] [p2|]] [d2|]];
    simpl; intros H; congruence.
Qed.

Lemma fillna_key_total k :
  (let '(cr, ps, dt) := k in cr <> None /\ ps <> None /\ dt <> None) ->
  fillna_key 0 (key_cells k) = key_cells k.
Proof.
  destruct k as [[[cr|] [ps|]] [dt|]]; simpl; intros [H1 [H2 H3]];
    congruence.
Qed.

Lemma in_merge_datasets c d r row :
  In row (merge_datasets c d r) <->
  exists k c0 d0 r0,
    In (k, (c0, d0, r0)) (outer_join3 c d r)
    /\ row = assign_active (fillna 0 (merged_row (k, (c0, d0, r0)))).
Proof.
  rewrite merge_datasets_eq, in_map_iff. split.
  - intros [[k [[c0 d0] r0]] [<- Hin]]. eauto 6.
  - intros [k [c0 [d0 [r0 [Hin ->]]]]]. eauto.
Qed.

(** *** Machine subtraction agrees with [Z] on counts in the exact range *)

Lemma int64_sub_exact a b :
  (- 2 ^ 62 <= a - b < 2 ^ 62)%Z -> int64_sub a b = (a - b)%Z.
Proof.
  intros H. unfold int64_sub, int64_wrap.
  rewrite Z.mod_small by lia. lia.
Qed.

Lemma float64_round_exact z :
  (Z.abs z < 2 ^ 53)%Z -> float64_round z = z.
Proof.
  intros H. unfold float64_round.
  destruct (Z.abs z <? 2 ^ 53)%Z eqn:E; [reflexivity|].
  apply Z.ltb_ge in E. lia.
Qed.

Lemma float64_sub_exact a b :
  (Z.abs a < 2 ^ 53)%Z -> (Z.abs b < 2 ^ 53)%Z -> (Z.abs (a - b) < 2 ^ 53)%Z ->
  float64_sub a b = (a - b)%Z.
Proof.
  intros Ha Hb Hab. unfold float64_sub.
  rewrite (float64_round_exact a Ha), (float64_round_exact b Hb).
  now apply float64_round_exact.
Qed.

Lemma active_exact cv dv rv :
  exact_range cv -> exact_range dv -> exact_range rv ->
  int64_sub (int64_sub cv dv) rv = (cv - dv - rv)%Z
  /\ float64_sub (float64_sub cv dv) rv = (cv - dv - rv)%Z.
Proof.
  unfold exact_range. intros Hc Hd Hr. split.
  - rewrite (int64_sub_exact cv dv) by lia. apply int64_sub_exact. lia.
  - rewrite (float64_sub_exact cv dv) by lia. apply float64_sub_exact; lia.
Qed.

Lemma merge_datasets_checked_Return c d r out :
  merge_datasets_checked c d r = Return out -> out = merge_datasets c d r.
Proof.
  unfold merge_datasets_checked.
  destruct (merge_region_dtype (region_dtype c) (region_dtype d)) as [ab|e];
    simpl; [|discriminate].
  destruct (merge_region_dtype ab (region_dtype r)) as [abc|e];
    simpl; [|discriminate].
  intros H. injection H as <-. reflexivity.
Qed.

(** Where the values of a row of the three-way join come from. *)
Lemma join3_values c d r k c0 d0 r0 :
  In (k, (c0, d0, r0)) (outer_join3 c d r) ->
  (c0 = None \/ exists x, In x c /\ n_value x = c0)
  /\ (d0 = None \/ exists x, In x d /\ n_value x = d0)
  /\ (r0 = None \/ exists x, In x r /\ n_value x = r0).
Proof.
  assert (Hon : forall t k' v,
            In (k', v) (on_keys t) -> exists x, In x t /\ n_value x = v).
  { intros t k' v H. unfold on_keys in H.
    apply in_map_iff in H as [x [E Hx]]. injection E as _ <-. eauto. }
  assert (Hfirst : forall cv dv,
            In (k, (cv, dv)) (merge_outer None None (on_keys c) (on_keys d)) ->
            (cv = None \/ exists x, In x c /\ n_value x = cv)
            /\ (dv = None \/ exists x, In x d /\ n_value x = dv)).
  { intros cv dv H1. apply in_merge_outer in H1.
    destruct H1 as [[Ha Hb]|[[Ha [-> _]]|[-> [Hb _]]]].
    - split; right; eapply Hon; eassumption.
    - split; [right; eapply Hon; eassumption|now left].
    - split; [now left|right; eapply Hon; eassumption]. }
  unfold outer_join3. intros H. apply in_merge_outer in H.
  destruct H as [[Ha Hb]|[[Ha [-> _]]|[Ha [Hb _]]]].
  - destruct (Hfirst _ _ Ha) as [H1 H2].
    split; [exact H1|]. split; [exact H2|]. right. eapply Hon; eassumption.
  - destruct (Hfirst _ _ Ha) as [H1 H2].
    split; [exact H1|]. split; [exact H2|]. now left.
  - injection Ha as -> ->.
    split; [now left|]. split; [now left|]. right. eapply Hon; eassumption.
Qed.

Lemma filled_in_range t v0 v :
  counts_in_range t ->
  (v0 = None \/ exists x, In x t /\ n_value x = v0) ->
  fillna_num 0 v0 = Some v -> exact_range v.
Proof.
  intros Ht [->|[x [Hx <-]]] Hv.
  - injection Hv as <-. unfold exact_range. lia.
  - destruct (n_value x) as [v'|] eqn:E; injection Hv as <-.
    + exact (Ht x v' Hx E).
    + unfold exact_range. lia.
Qed.

(** C2, as the code has it.  When the Merger returns a dataset and every
    count of the three tables is in the exact range (magnitude at most
    2^51), every row of the output carries numbers in its three metric
    fields, namely the values of the join with 0 in place of a missing
    one, and its [active] field is their difference
    confirmed - deaths - recovered over the integers, which is then also
    what the int64 and the float64 subtraction of pandas give: nothing is
    clamped or rounded, and the field is negative exactly when deaths +
    recovered exceed confirmed. *)
Theorem active_derivation c d r out row :
  counts_in_range c -> counts_in_range d -> counts_in_range r ->
  merge_datasets_checked c d r = Return out ->
  In row out ->
  exists k c0 d0 r0 cv dv rv,
    In (k, (c0, d0, r0)) (outer_join3 c d r)
    /\ fillna_num 0 c0 = Some cv
    /\ fillna_num 0 d0 = Some dv
    /\ fillna_num 0 r0 = Some rv
    /\ confirmed row = Some cv
    /\ deaths row = Some dv
    /\ recovered row = Some rv
    /\ active row = Some (cv - dv - rv)%Z
    /\ int64_sub (int64_sub cv dv) rv = (cv - dv - rv)%Z
    /\ float64_sub (float64_sub cv dv) rv = (cv - dv - rv)%Z.
Proof.
  intros Rc Rd Rr Hout H.
  apply merge_datasets_checked_Return in Hout. subst out.
  apply in_merge_datasets in H as [k [c0 [d0 [r0 [Hin ->]]]]].
  destruct (join3_values _ _ _ _ _ _ _ Hin) as [Oc [Od Or]].
  destruct k as [[cr ps] dt].
  exists (cr, ps, dt), c0, d0, r0.
  assert (Hc : exists cv, fillna_num 0 c0 = Some cv)
    by (destruct c0; eexists; reflexivity).
  assert (Hd : exists dv, fillna_num 0 d0 = Some dv)
    by (destruct d0; eexists; reflexivity).
  assert (Hr : exists rv, fillna_num 0 r0 = Some rv)
    by (destruct r0; eexists; reflexivity).
  destruct Hc as [cv Hc], Hd as [dv Hd], Hr as [rv Hr].
  exists cv, dv, rv.
  destruct (active_exact cv dv rv
              (filled_in_range c c0 cv Rc Oc Hc)
              (filled_in_range d d0 dv Rd Od Hd)
              (filled_in_range r r0 rv Rr Or Hr)) as [Hi Hf].
  split; [exact Hin|]. do 3 (split; [assumption|]).
  simpl. rewrite Hc, Hd, Hr. simpl. repeat split; assumption.
Qed.

(** C4.  When each of the three long tables has at most one row per
    (region, sub-region, date), so has the Merger's output. *)
Theorem merge_key_uniqueness c d r :
  NoDup (map merge_keys c) ->
  NoDup (map merge_keys d) ->
  NoDup (map merge_keys r) ->
  NoDup (map key_of (merge_datasets c d r)).
Proof.
  intros Hc Hd Hr. rewrite merge_datasets_eq, map_map.
  assert (Hj : NoDup (map fst (outer_join3 c d r))).
  { unfold outer_join3. apply NoDup_keys_merge_outer.
    - apply NoDup_keys_merge_outer; now rewrite keys_on_keys.
    - now rewrite keys_on_keys. }
  rewrite (map_ext _ (fun kv => fillna_key 0 (key_cells (fst kv))) key_of_merged).
  rewrite <- (map_map fst (fun k => fillna_key 0 (key_cells k))).
  apply NoDup_map_NoDup_ForallPairs; [|exact Hj].
  intros k1 k2 _ _. apply fillna_key_inj.
Qed.

(** The rows of the first join, the frame the second join receives: a metric
    whose table lacks the key is still missing there. *)
Lemma first_join_missing c d k cv dv :
  In (k, (cv, dv)) (merge_outer None None (on_keys c) (on_keys d)) ->
  (~ In k (map merge_keys c) -> cv = None)
  /\ (~ In k (map merge_keys d) -> dv = None).
Proof.
  intros H. apply in_merge_outer in H.
  rewrite !keys_on_keys in H.
  destruct H as [[Ha Hb]|[[Ha [Hb Hn]]|[Ha [Hb Hn]]]].
  - apply (in_map fst) in Ha, Hb. rewrite keys_on_keys in Ha, Hb.
    split; intros Hk; contradiction.
  - apply (in_map fst) in Ha. rewrite keys_on_keys in Ha.
    split; intros Hk; [contradiction|assumption].
  - apply (in_map fst) in Hb. rewrite keys_on_keys in Hb.
    split; intros Hk; [assumption|contradiction].
Qed.

Lemma outer_join3_missing c d r k cv dv rv :
  In (k, (cv, dv, rv)) (outer_join3 c d r) ->
  (~ In k (map merge_keys c) -> cv = None)
  /\ (~ In k (map merge_keys d) -> dv = None)
  /\ (~ In k (map merge_keys r) -> rv = None).
Proof.
  unfold outer_join3. intros H. apply in_merge_outer in H.
  rewrite keys_on_keys in H.
  destruct H as [[Ha Hb]|[[Ha [Hb Hn]]|[Ha [Hb Hn]]]].
  - apply first_join_missing in Ha as [Hc Hd].
    apply (in_map fst) in Hb. rewrite keys_on_keys in Hb.
    repeat split; auto. intros Hk. contradiction.
  - apply first_join_missing in Ha as [Hc Hd]. repeat split; auto.
  - injection Ha as -> ->.
    apply (in_map fst) in Hb. rewrite keys_on_keys in Hb.
    repeat split; auto. intros Hk. contradiction.
Qed.

(** C3.  The Merger's output is the fill applied to the rows of the
    completed three-way join, and only there: the first join hands its rows
    to the second with the absent metric still missing.  Each output row
    stems from a row of the three-way join; when a metric's table has no row
    with that row's join key, the metric is missing in the join row and is 0
    in the output row.  The output row carries the join key with 0 in place
    of a missing key cell. *)
Theorem zero_fill_after_join c d r :
  merge_datasets c d r
  = map assign_active (map (fillna 0) (map merged_row (outer_join3 c d r)))
  /\ (forall k cv dv,
        In (k, (cv, dv)) (merge_outer None None (on_keys c) (on_keys d)) ->
        (~ In k (map merge_keys c) -> cv = None)
        /\ (~ In k (map merge_keys d) -> dv = None))
  /\ (forall row,
        In row (merge_datasets c d r) ->
        exists k c0 d0 r0,
          In (k, (c0, d0, r0)) (outer_join3 c d r)
          /\ key_of row = fillna_key 0 (key_cells k)
          /\ (~ In k (map merge_keys c) ->
              c0 = None /\ confirmed row = Some 0%Z)
          /\ (~ In k (map merge_keys d) ->
              d0 = None /\ deaths row = Some 0%Z)
          /\ (~ In k (map merge_keys r) ->
              r0 = None /\ recovered row = Some 0%Z)).
Proof.
  split; [reflexivity|]. split; [intros k cv dv; apply first_join_missing|].
  intros row H. apply in_merge_datasets in H as [k [c0 [d0 [r0 [Hin ->]]]]].
  exists k, c0, d0, r0. split; [exact Hin|].
  split; [apply key_of_merged|].
  destruct (outer_join3_missing _ _ _ _ _ _ _ Hin) as [Hc [Hd Hr]].
  destruct k as [[cr ps] dt].
  split; [|split]; intros Hk;
    [rewrite (Hc Hk)|rewrite (Hd Hk)|rewrite (Hr Hk)]; split; reflexivity.
Qed.

(** The same, told from the key the output row carries: the keys of a table
    are then read with 0 in place of a missing cell, as the fill leaves
    them.  When no key cell of the table is missing this is the key as it
    stands in the table. *)
Lemma zero_fill_by_output_key c d r row :
  let filled_keys (t : list NormRecord) :=
    map (fun x => fillna_key 0 (key_cells (merge_keys x))) t in
  In row (merge_datasets c d r) ->
  (~ In (key_of row) (filled_keys c) -> confirmed row = Some 0%Z)
  /\ (~ In (key_of row) (filled_keys d) -> deaths row = Some 0%Z)
  /\ (~ In (key_of row) (filled_keys r) -> recovered row = Some 0%Z).
Proof.
  intros filled_keys H.
  apply in_merge_datasets in H as [k [c0 [d0 [r0 [Hin ->]]]]].
  destruct (outer_join3_missing _ _ _ _ _ _ _ Hin) as [Hc [Hd Hr]].
  assert (Hkey : forall t, In k (map merge_keys t) ->
                           In (fillna_key 0 (key_cells k)) (filled_keys t)).
  { intros t Ht. apply in_map_iff in Ht as [x [<- Hx]].
    unfold filled_keys. now apply (in_map (fun x => fillna_key 0 (key_cells (merge_keys x)))). }
  rewrite key_of_merged. simpl fst.
  destruct k as [[cr ps] dt].
  split; [|split]; intros Hn.
  - rewrite Hc; [reflexivity|]. intros Hk. apply Hn. now apply Hkey.
  - rewrite Hd; [reflexivity|]. intros Hk. apply Hn. now apply Hkey.
  - rewrite Hr; [reflexivity|]. intros Hk. apply Hn. now apply Hkey.
Qed.

Example merge_sample :
  merge_datasets Sample.confirmed_df Sample.deaths_df Sample.recovered_df
  = [ Sample.unified "Chad" "All" (ts_2020_01_01 + 21 * MDY.ns_per_day)%Z
                     1 0 0 1;
      Sample.unified "China" "Hubei" (ts_2020_01_01 + 21 * MDY.ns_per_day)%Z
                     444 17 28 399;
      Sample.france ].
Proof. reflexivity. Qed.

Lemma france_in_sample :
  In Sample.france
     (merge_datasets Sample.confirmed_df Sample.deaths_df Sample.recovered_df).
Proof. rewrite merge_sample. simpl. auto. Qed.

Lemma sample_counts_in_range :
  counts_in_range Sample.confirmed_df /\ counts_in_range Sample.deaths_df
  /\ counts_in_range Sample.recovered_df.
Proof.
  unfold counts_in_range, exact_range.
  split; [|split]; intros x v Hx Hv; simpl in Hx;
    repeat (destruct Hx as [E|Hx];
            [rewrite <- E in Hv; injection Hv as <-; lia|]);
    contradiction.
Qed.

(** A row with more deaths than confirmed cases: its [active] is negative. *)
Lemma active_derivation_witness :
  In Sample.france
     (merge_datasets Sample.confirmed_df Sample.deaths_df Sample.recovered_df)
  /\ active Sample.france = Some (0 - 2 - 0)%Z
  /\ active Sample.france = Some (-2)%Z
  /\ int64_sub (int64_sub 0 2) 0 = (-2)%Z.
Proof.
  split; [exact france_in_sample|].
  destruct sample_counts_in_range as [Rc [Rd Rr]].
  destruct (active_derivation Sample.confirmed_df Sample.deaths_df
              Sample.recovered_df _ Sample.france Rc Rd Rr eq_refl
              france_in_sample)
    as [k [c0 [d0 [r0 [cv [dv [rv
         [_ [_ [_ [_ [Hc [Hd [Hr [Ha [Hi _]]]]]]]]]]]]]]]].
  simpl in Hc, Hd, Hr.
  injection Hc as <-. injection Hd as <-. injection Hr as <-.
  repeat split; assumption.
Defined.

(** C2 as stated fails outside the exact range.  pandas subtracts int64
    columns in int64 and, once a metric is missing somewhere in the joined
    frame, in float64.  With confirmed 2^63 - 1, deaths -1 and recovered 0
    in three full int64 tables the subtraction wraps to -2^63; with
    confirmed 2^53 + 1 and empty deaths and recovered tables, whose
    columns are float64 after the join, it rounds to 2^53. *)
Lemma active_not_exact_on_machine_numbers :
  let key3 v := [ Sample.norm (Some "Chad") (Some "All") Sample.d22 v ] in
  (exists out row,
     merge_datasets_checked (key3 9223372036854775807%Z) (key3 (-1)%Z)
                            (key3 0%Z) = Return out
     /\ In row out
     /\ confirmed row = Some 9223372036854775807%Z
     /\ deaths row = Some (-1)%Z /\ recovered row = Some 0%Z)
  /\ int64_sub (int64_sub 9223372036854775807 (-1)) 0
     = (-9223372036854775808)%Z
  /\ int64_sub (int64_sub 9223372036854775807 (-1)) 0
     <> (9223372036854775807 - (-1) - 0)%Z
  /\ (exists out row,
        merge_datasets_checked (key3 9007199254740993%Z) [] [] = Return out
        /\ In row out
        /\ confirmed row = Some 9007199254740993%Z
        /\ deaths row = Some 0%Z /\ recovered row = Some 0%Z)
  /\ float64_sub (float64_sub 9007199254740993 0) 0 = 9007199254740992%Z
  /\ float64_sub (float64_sub 9007199254740993 0) 0
     <> (9007199254740993 - 0 - 0)%Z.
Proof.
  intros key3. split; [|split; [|split; [|split; [|split]]]].
  - eexists. eexists. split; [reflexivity|].
    split; [left; reflexivity|]. repeat split.
  - reflexivity.
  - vm_compute. discriminate.
  - eexists. eexists. split; [reflexivity|].
    split; [left; reflexivity|]. repeat split.
  - reflexivity.
  - vm_compute. discriminate.
Qed.

(** The gate receives these rows as they are; a negative [active] trips none
    of its rules. *)
Example negative_active_reaches_gate :
  validate_data Sample.mid_2023
    (merge_datasets Sample.confirmed_df Sample.deaths_df Sample.recovered_df)
  = Return (true, [], []).
Proof. reflexivity. Qed.

Ltac nodup_by_computation :=
  repeat (constructor; [simpl; intuition discriminate|]); constructor.

Lemma merge_key_uniqueness_witness :
  NoDup (map key_of
             (merge_datasets Sample.confirmed_df Sample.deaths_df
                             Sample.recovered_df)).
Proof.
  apply merge_key_uniqueness; nodup_by_computation.
Defined.

Lemma zero_fill_after_join_witness :
  ~ In (Some "France", Some "All", Sample.d22)
       (map merge_keys Sample.confirmed_df)
  /\ confirmed Sample.france = Some 0%Z.
Proof.
  assert (Hn : ~ In (Some "France", Some "All", Sample.d22)
                    (map merge_keys Sample.confirmed_df))
    by (simpl; intuition discriminate).
  split; [exact Hn|].
  destruct (zero_fill_after_join Sample.confirmed_df Sample.deaths_df
                                 Sample.recovered_df) as [_ [_ H]].
  destruct (H _ france_in_sample) as [k [c0 [d0 [r0 [_ [Hk [Hc _]]]]]]].
  apply (fillna_key_inj (Some "France", Some "All", Sample.d22)) in Hk.
  subst k. exact (proj2 (Hc Hn)).
Defined.

(** What the uniqueness premise is for: a key that occurs twice in one table
    occurs twice in the output. *)
Example duplicate_key_multiplies :
  let twice := [ Sample.norm (Some "Chad") (Some "All") Sample.d22 1;
                 Sample.norm (Some "Chad") (Some "All") Sample.d22 3 ] in
  map confirmed (merge_datasets twice [] []) = [Some 1%Z; Some 3%Z]
  /\ ~ NoDup (map key_of (merge_datasets twice [] [])).
Proof.
  split; [reflexivity|]. simpl. intros H.
  apply NoDup_cons_iff in H as [H _]. apply H. now left.
Qed.

(** ** Quality Gate: the checks one by one *)

Lemma add_errors_nil self : add_errors self [] = self.
Proof. destruct self. unfold add_errors. simpl. now rewrite app_nil_r. Qed.

Lemma add_warnings_nil self : add_warnings self [] = self.
Proof. destruct self. unfold add_warnings. simpl. now rewrite app_nil_r. Qed.

Lemma add_errors_app self m1 m2 :
  add_errors (add_errors self m1) m2 = add_errors self (m1 ++ m2).
Proof. unfold add_errors. simpl. now rewrite app_assoc. Qed.

Lemma add_warnings_app self m1 m2 :
  add_warnings (add_warnings self m1) m2 = add_warnings self (m1 ++ m2).
Proof. unfold add_warnings. simpl. now rewrite app_assoc. Qed.

Lemma length_eqb_0 {A} (l : list A) : (List.length l =? 0)%nat = is_empty l.
Proof. destruct l; reflexivity. Qed.

Lemma ltb_0_eqb_0 n : (0 <? n)%nat = negb (n =? 0)%nat.
Proof. destruct n; reflexivity. Qed.

(** A loop whose body only appends errors only appends errors. *)
Lemma for_each_add_errors {A} (body : A -> method unit) xs :
  (forall x self, In x xs ->
     exists msgs, body x self = Return (tt, add_errors self msgs)) ->
  forall self,
    exists msgs, for_each xs body self = Return (tt, add_errors self msgs).
Proof.
  induction xs as [|x xs IH]; intros Hb self; simpl.
  - exists []. unfold ret. now rewrite add_errors_nil.
  - unfold bind. destruct (Hb x self) as [m1 ->]; [now left|].
    destruct (IH (fun y s Hy => Hb y s (or_intror Hy)) (add_errors self m1))
      as [m2 ->].
    exists (m1 ++ m2). now rewrite add_errors_app.
Qed.

Lemma for_each_add_warnings {A} (body : A -> method unit) xs :
  (forall x self, In x xs ->
     exists msgs, body x self = Return (tt, add_warnings self msgs)) ->
  forall self,
    exists msgs, for_each xs body self = Return (tt, add_warnings self msgs).
Proof.
  induction xs as [|x xs IH]; intros Hb self; simpl.
  - exists []. unfold ret. now rewrite add_warnings_nil.
  - unfold bind. destruct (Hb x self) as [m1 ->]; [now left|].
    destruct (IH (fun y s Hy => Hb y s (or_intror Hy)) (add_warnings self m1))
      as [m2 ->].
    exists (m1 ++ m2). now rewrite add_warnings_app.
Qed.

(** The nullness rule appends to the errors and answers whether the list of
    errors is empty afterwards. *)
Lemma check_null_values_spec self :
  exists msgs,
    check_null_values self
    = Return (is_empty (errors self ++ msgs), add_errors self msgs).
Proof.
  unfold check_null_values, bind.
  destruct (for_each_add_errors null_values_in critical_columns)
    with (self := self) as [msgs Hm].
  - intros col s _. unfold null_values_in, bind, get_self.
    destruct (0 <? _)%nat.
    + eexists. reflexivity.
    + exists []. unfold ret. now rewrite add_errors_nil.
  - exists msgs. rewrite Hm.
    unfold get_self, ret. simpl. now rewrite length_eqb_0.
Qed.

(** The negative-values rule touches the warnings only, and passes. *)
Lemma check_negative_values_spec self :
  exists msgs,
    check_negative_values self = Return (true, add_warnings self msgs).
Proof.
  unfold check_negative_values, bind.
  destruct (for_each_add_warnings negative_values_in numeric_columns)
    with (self := self) as [msgs Hm].
  - intros col s _. unfold negative_values_in, bind, get_self.
    destruct (0 <? _)%nat.
    + eexists. reflexivity.
    + exists []. unfold ret. now rewrite add_warnings_nil.
  - exists msgs. rewrite Hm. reflexivity.
Qed.

Lemma compare_timestamp_datetime cmp c t :
  is_datetime c = true ->
  compare_timestamp cmp c t
  = Return (match c with Date d => cmp d t | _ => false end).
Proof. destruct c; simpl; intros H; [reflexivity|discriminate..|reflexivity]. Qed.

Lemma series_compare_datetime cmp (rows : list UnifiedRecord) t :
  datetime_dates rows ->
  mapM (fun c => compare_timestamp cmp c t) (map date rows)
  = Return (map (fun c => match c with Date d => cmp d t | _ => false end)
                (map date rows)).
Proof.
  intros H. apply mapM_total. intros c Hc.
  apply in_map_iff in Hc as [r [<- Hr]].
  apply compare_timestamp_datetime. now apply H.
Qed.

(** The date-range rule on a datetime column: it appends an error exactly
    when some date is out of range, and passes exactly when it appends
    none. *)
Lemma check_date_range_spec now self :
  datetime_dates (df self) ->
  exists msgs,
    check_date_range now self = Return (is_empty msgs, add_errors self msgs).
Proof.
  intros Hd. unfold check_date_range, bind, get_self, eval, series_lt, series_gt.
  rewrite !(series_compare_datetime _ _ _ Hd).
  set (invalid := select _ _).
  rewrite ltb_0_eqb_0. destruct (List.length invalid =? 0)%nat; simpl.
  - exists []. unfold ret. now rewrite add_errors_nil.
  - eexists [_]. reflexivity.
Qed.

(** A date cell that is no datetime makes the date-range rule raise. *)
Lemma check_date_range_raises now self :
  ~ datetime_dates (df self) ->
  exists e, check_date_range now self = Raise e.
Proof.
  intros Hn.
  assert (Hbad : exists c, In c (map date (df self))
                           /\ exists e, compare_timestamp Z.ltb c ts_2020_01_01
                                        = Raise e).
  { unfold datetime_dates in Hn.
    induction (df self) as [|r rows IH]; [exfalso; apply Hn; intros r []|].
    destruct (is_datetime (date r)) eqn:E.
    - destruct IH as [c [Hc He]].
      + intros H. apply Hn. intros r' [<-|Hr']; auto.
      + exists c. split; [now right|exact He].
    - exists (date r). split; [now left|].
      destruct (date r); simpl in *; try discriminate; eauto. }
  destruct (mapM_Raise _ _ Hbad) as [c [e [_ [_ Hm]]]].
  exists e. unfold check_date_range, bind, get_self, eval, series_lt.
  now rewrite Hm.
Qed.

Lemma check_logical_consistency_spec self :
  exists msgs,
    check_logical_consistency self
    = Return (is_empty msgs, add_errors self msgs).
Proof.
  unfold check_logical_consistency, bind, get_self.
  set (inconsistent := series_sum _).
  rewrite ltb_0_eqb_0. destruct (inconsistent =? 0)%nat; simpl.
  - exists []. unfold ret. now rewrite add_errors_nil.
  - eexists [_]. reflexivity.
Qed.

(** ** Quality Gate: [validate_all] *)

(** [validate_all] runs the four checks in order, each on the validator the
    previous one left behind. *)
Lemma validate_all_trace now s0 p1 s1 p2 s2 p3 s3 p4 s4 :
  check_null_values s0 = Return (p1, s1) ->
  check_negative_values s1 = Return (p2, s2) ->
  check_date_range now s2 = Return (p3, s3) ->
  check_logical_consistency s3 = Return (p4, s4) ->
  validate_all now s0
  = Return (p1 && p2 && p3 && p4, errors s4, warnings s4, s4).
Proof.
  intros H1 H2 H3 H4.
  unfold validate_all, checks. simpl run_checks. unfold bind.
  rewrite H1, H2, H3, H4. unfold ret, get_self.
  destruct p1, p2, p3, p4; reflexivity.
Qed.

(** C1.  On a dataset whose date column holds datetimes, [validate_data]
    returns a report, whatever the flag in it.  The report's errors are
    those the nullness, date-range and consistency rules appended, in that
    order, and the flag is true exactly when none of the three appended
    any.
    The negative-values rule, run second, always answers true, appends to
    the warnings only and leaves the errors as they were; its messages are
    the report's warnings. *)
Theorem passes_iff_no_blocking_error now df :
  datetime_dates df ->
  exists null_errors negative_warnings date_errors consistency_errors,
    let s0 := init df in
    let s1 := add_errors s0 null_errors in
    let s2 := add_warnings s1 negative_warnings in
    let s3 := add_errors s2 date_errors in
    let s4 := add_errors s3 consistency_errors in
    check_null_values s0 = Return (is_empty null_errors, s1)
    /\ check_negative_values s1 = Return (true, s2)
    /\ errors s2 = errors s1
    /\ check_date_range now s2 = Return (is_empty date_errors, s3)
    /\ check_logical_consistency s3 = Return (is_empty consistency_errors, s4)
    /\ exists all_passed,
         validate_data now df
         = Return (all_passed,
                   null_errors ++ date_errors ++ consistency_errors,
                   negative_warnings)
         /\ (all_passed = true <->
             null_errors = [] /\ date_errors = [] /\ consistency_errors = []).
Proof.
  intros Hd.
  destruct (check_null_values_spec (init df)) as [n Hn].
  destruct (check_negative_values_spec (add_errors (init df) n)) as [w Hw].
  destruct (check_date_range_spec now
              (add_warnings (add_errors (init df) n) w) Hd) as [d Hdr].
  destruct (check_logical_consistency_spec
              (add_errors (add_warnings (add_errors (init df) n) w) d))
    as [c Hc].
  exists n, w, d, c. cbv zeta.
  split; [exact Hn|]. split; [exact Hw|]. split; [reflexivity|].
  split; [exact Hdr|]. split; [exact Hc|].
  exists (is_empty n && true && is_empty d && is_empty c).
  split.
  - unfold validate_data.
    rewrite (validate_all_trace _ _ _ _ _ _ _ _ _ _ Hn Hw Hdr Hc).
    simpl. now rewrite <- app_assoc.
  - destruct n, d, c; simpl; split; try discriminate; intuition discriminate.
Qed.

Lemma passes_iff_no_blocking_error_witness :
  datetime_dates Sample.new_year_2021
  /\ exists all_passed errs warns,
       validate_data Sample.mid_2020 Sample.new_year_2021
       = Return (all_passed, errs, warns)
       /\ all_passed = false /\ errs <> [].
Proof.
  assert (Hd : datetime_dates Sample.new_year_2021).
  { intros r [<-|[]]. reflexivity. }
  split; [exact Hd|].
  destruct (passes_iff_no_blocking_error Sample.mid_2020 _ Hd)
    as [n [w [d [c [_ [_ [_ [_ [_ [all_passed [H Hiff]]]]]]]]]]].
  exists all_passed, (n ++ d ++ c), w. split; [exact H|].
  assert (Hv : validate_data Sample.mid_2020 Sample.new_year_2021
               = Return (false, ["Found 1 records with invalid dates"], []))
    by reflexivity.
  rewrite Hv in H. injection H as Ha He _.
  split; [now symmetry|]. rewrite <- He. discriminate.
Defined.

(** Without datetimes in the date column there is no report: the call
    raises out of the date-range rule. *)
Lemma validate_data_raises now df :
  ~ datetime_dates df -> exists e, validate_data now df = Raise e.
Proof.
  intros Hn. unfold validate_data, validate_all, checks. simpl run_checks.
  unfold bind.
  destruct (check_null_values_spec (init df)) as [n ->].
  destruct (check_negative_values_spec (add_errors (init df) n)) as [w ->].
  destruct (check_date_range_raises now
              (add_warnings (add_errors (init df) n) w) Hn) as [e ->].
  exists e. reflexivity.
Qed.

Lemma mapM_ext {A B} (f g : A -> result B) xs :
  (forall x, In x xs -> f x = g x) -> mapM f xs = mapM g xs.
Proof.
  induction xs as [|x xs IH]; simpl; intros H; [reflexivity|].
  rewrite (H x) by auto. rewrite IH by auto. reflexivity.
Qed.

(** The date-range rule looks at the clock through [date > now] only. *)
Lemma check_date_range_clock now1 now2 self :
  (forall r t, In r (df self) -> date r = Date t ->
               (t >? now1)%Z = (t >? now2)%Z) ->
  check_date_range now1 self = check_date_range now2 self.
Proof.
  intros H. unfold check_date_range, bind, get_self, eval, series_gt.
  rewrite (mapM_ext (fun c => compare_timestamp Z.gtb c now1)
                    (fun c => compare_timestamp Z.gtb c now2)).
  - reflexivity.
  - intros c Hc. apply in_map_iff in Hc as [r [<- Hr]].
    destruct (date r) as [| |z|t] eqn:E; simpl; try reflexivity.
    now rewrite (H r t Hr E).
Qed.

(** C8, as the code has it.  Two runs of the gate on the same dataset return
    the same (flag, errors, warnings), messages in the same order, provided
    the two readings of the clock put every date of the dataset on the same
    side: no date lies after one reading and not after the other.  This is
    so in particular when both runs read the same time. *)
Theorem gate_determinism_same_clock now1 now2 df :
  (forall r t, In r df -> date r = Date t -> (t >? now1)%Z = (t >? now2)%Z) ->
  validate_data now1 df = validate_data now2 df.
Proof.
  intros H. unfold validate_data, validate_all, checks. simpl run_checks.
  unfold bind.
  destruct (check_null_values_spec (init df)) as [n ->].
  destruct (check_negative_values_spec (add_errors (init df) n)) as [w ->].
  rewrite (check_date_range_clock now1 now2) by exact H.
  reflexivity.
Qed.

Lemma gate_determinism_same_clock_witness :
  validate_data Sample.early_2022 Sample.new_year_2021
  = validate_data Sample.mid_2023 Sample.new_year_2021.
Proof.
  apply gate_determinism_same_clock.
  intros r t [<-|[]] E. injection E as <-. reflexivity.
Defined.

(** C8 as stated fails: the date-range rule compares with the clock, so the
    same dataset is rejected by a run before the date of its record and
    accepted by a run after it. *)
Lemma gate_depends_on_clock :
  validate_data Sample.mid_2020 Sample.new_year_2021
  = Return (false, ["Found 1 records with invalid dates"], [])
  /\ validate_data Sample.early_2022 Sample.new_year_2021
     = Return (true, [], [])
  /\ validate_data Sample.mid_2020 Sample.new_year_2021
     <> validate_data Sample.early_2022 Sample.new_year_2021.
Proof.
  split; [reflexivity|]. split; [reflexivity|]. discriminate.
Qed.

(** ** The gate on the Merger's output *)

Lemma merged_row_filled c d r row :
  In row (merge_datasets c d r) ->
  country_region row <> Null /\ province_state row <> Null
  /\ date row <> Null
  /\ exists cv dv rv,
       confirmed row = Some cv /\ deaths row = Some dv
       /\ recovered row = Some rv /\ active row = Some (cv - dv - rv)%Z.
Proof.
  intros H. apply in_merge_datasets in H as [k [c0 [d0 [r0 [_ ->]]]]].
  destruct k as [[[cr|] [ps|]] [dt|]];
    destruct c0 as [cv|], d0 as [dv|], r0 as [rv|]; simpl;
    (repeat split; try discriminate); do 3 eexists; repeat split.
Qed.

Lemma sum_all_false {A} (p : A -> bool) xs :
  (forall x, In x xs -> p x = false) -> series_sum (map p xs) = 0.
Proof.
  unfold series_sum.
  induction xs as [|x xs IH]; simpl; intros H; [reflexivity|].
  rewrite (H x) by auto. apply IH. auto.
Qed.

Lemma combine_map_map {A B C} (f : A -> B) (g : A -> C) xs :
  combine (map f xs) (map g xs) = map (fun x => (f x, g x)) xs.
Proof. induction xs; simpl; congruence. Qed.

(** The mask of the consistency rule, row by row. *)
Lemma inconsistent_mask rows :
  series_ne (map active rows)
            (series_sub (series_sub (map confirmed rows) (map deaths rows))
                        (map recovered rows))
  = map (fun r => ne (active r)
                     (sub (sub (confirmed r) (deaths r)) (recovered r)))
        rows.
Proof.
  unfold series_ne, series_sub.
  rewrite combine_map_map, map_map.
  rewrite (combine_map_map
             (fun x => sub (fst (confirmed x, deaths x)) (snd (confirmed x, deaths x)))
             recovered), map_map.
  rewrite (combine_map_map active), map_map. reflexivity.
Qed.

(** C9.  On a dataset that [merge_datasets] produced, the consistency rule
    counts no inconsistent record: run on a validator holding that dataset,
    it passes and leaves the validator, its list of errors included, as it
    found it. *)
Theorem merger_output_consistent c d r errs warns :
  let df := merge_datasets c d r in
  let self := {| df := df; errors := errs; warnings := warns |} in
  series_sum (series_ne (map active df)
                 (series_sub (series_sub (map confirmed df) (map deaths df))
                             (map recovered df))) = 0
  /\ check_logical_consistency self = Return (true, self).
Proof.
  intros df0 self.
  assert (H0 : series_sum (series_ne (map active df0)
                      (series_sub (series_sub (map confirmed df0) (map deaths df0))
                                  (map recovered df0))) = 0).
  { rewrite inconsistent_mask. apply sum_all_false. intros row Hrow.
    apply merged_row_filled in Hrow
      as [_ [_ [_ [cv [dv [rv [-> [-> [-> ->]]]]]]]]].
    simpl. now rewrite Z.eqb_refl. }
  split; [exact H0|].
  unfold check_logical_consistency, bind, get_self.
  change (df self) with df0. rewrite H0. reflexivity.
Qed.

Lemma for_each_unchanged {A} (body : A -> method unit) xs self :
  (forall x, In x xs -> body x self = Return (tt, self)) ->
  for_each xs body self = Return (tt, self).
Proof.
  induction xs as [|x xs IH]; simpl; intros H; [reflexivity|].
  unfold bind. rewrite (H x) by auto. apply IH. auto.
Qed.

Lemma null_values_in_unchanged col self :
  (forall r, In r (df self) -> isnull (snd col r) = false) ->
  null_values_in col self = Return (tt, self).
Proof.
  intros H. unfold null_values_in, bind, get_self.
  rewrite (sum_all_false (fun r => isnull (snd col r)) (df self) H).
  reflexivity.
Qed.

Lemma keys_outer_join3 c d r k :
  In k (map fst (outer_join3 c d r)) <->
  In k (map merge_keys c) \/ In k (map merge_keys d) \/ In k (map merge_keys r).
Proof.
  unfold outer_join3. rewrite !keys_merge_outer, !keys_on_keys. tauto.
Qed.

(** The merges raise when a table none of whose rows names a region meets
    a table that names one: the first region column is float64, the other
    object. *)
Example merge_raises_on_region_dtypes :
  merge_datasets_checked
    [ Sample.norm None (Some "All") Sample.d22 5 ]
    [ Sample.norm (Some "Chad") (Some "All") Sample.d22 1 ]
    []
  = Raise (ValueError "float64 and object").
Proof. reflexivity. Qed.

(** C10.  [fillna(0)] runs over every column of the joined frame, the key
    columns included.  So whenever the Merger returns a dataset, no field
    of a row of it is missing; the nullness rule, run on a validator
    holding that dataset, appends nothing and leaves the validator as it
    found it; and every row of the three input tables shows in the
    dataset under its key with the number 0 in place of a missing region,
    sub-region or date. *)
Theorem fill_covers_every_column c d r out :
  merge_datasets_checked c d r = Return out ->
  (forall row,
     In row out ->
     country_region row <> Null /\ province_state row <> Null
     /\ date row <> Null /\ confirmed row <> None /\ deaths row <> None
     /\ recovered row <> None /\ active row <> None)
  /\ (forall errs warns,
        check_null_values
          {| df := out; errors := errs; warnings := warns |}
        = Return (is_empty errs,
                  {| df := out; errors := errs; warnings := warns |}))
  /\ (forall x,
        In x c \/ In x d \/ In x r ->
        exists row,
          In row out
          /\ key_of row = fillna_key 0 (key_cells (merge_keys x))
          /\ (n_country_region x = None -> country_region row = Num 0)
          /\ (n_date x = None -> date row = Num 0)).
Proof.
  intros Hout. apply merge_datasets_checked_Return in Hout. subst out.
  split; [|split].
  - intros row H. apply merged_row_filled in H
      as [H1 [H2 [H3 [cv [dv [rv [Hc [Hd [Hr Ha]]]]]]]]].
    rewrite Hc, Hd, Hr, Ha. repeat split; auto; discriminate.
  - intros errs warns. unfold check_null_values, bind.
    rewrite for_each_unchanged.
    + unfold get_self, ret. simpl. now rewrite length_eqb_0.
    + intros col Hcol. apply null_values_in_unchanged. simpl df.
      intros row Hrow. apply merged_row_filled in Hrow
        as [H1 [H2 [H3 [cv [dv [rv [Hc [Hd _]]]]]]]].
      destruct Hcol as [<-|[<-|[<-|[<-|[]]]]]; simpl.
      * destruct (country_region row); simpl; congruence.
      * destruct (date row); simpl; congruence.
      * now rewrite Hc.
      * now rewrite Hd.
  - intros x Hx.
    assert (Hk : In (merge_keys x) (map fst (outer_join3 c d r))).
    { apply keys_outer_join3.
      destruct Hx as [Hx|[Hx|Hx]]; [left|right; left|right; right];
        now apply in_map. }
    apply in_map_iff in Hk as [[k [[c0 d0] r0]] [Hk Hin]]. simpl in Hk.
    exists (assign_active (fillna 0 (merged_row (k, (c0, d0, r0))))).
    split; [apply in_merge_datasets; eauto 6|].
    rewrite key_of_merged. simpl fst. rewrite Hk.
    split; [reflexivity|].
    subst k. destruct x as [ps cr dt v]. simpl.
    split; intros ->; reflexivity.
Qed.

Lemma fill_covers_every_column_witness :
  let named := Sample.norm (Some "Chad") (Some "All") Sample.d22 1 in
  let lost := Sample.norm None (Some "All") None 5 in
  exists out row,
    merge_datasets_checked [named] [named; lost] [] = Return out
    /\ In row out
    /\ country_region row = Num 0 /\ date row = Num 0
    /\ check_null_values (init out) = Return (true, init out).
Proof.
  intros named lost.
  destruct (merge_datasets_checked [named] [named; lost] []) as [out|e] eqn:E;
    [|discriminate E].
  destruct (fill_covers_every_column [named] [named; lost] [] out E)
    as [_ [Hnull Hkeep]].
  destruct (Hkeep lost) as [row [Hin [_ [Hcr Hdt]]]].
  { right. left. simpl. auto. }
  exists out, row. split; [reflexivity|]. split; [exact Hin|].
  split; [now apply Hcr|]. split; [now apply Hdt|].
  apply (Hnull [] []).
Defined.

(** The 0 that took the place of a missing date is no datetime: the
    date-range rule cannot compare it and the gate raises. *)
Example missing_date_raises :
  validate_data Sample.mid_2023
    (merge_datasets [] [ Sample.norm (Some "Chad") (Some "All") None 5 ] [])
  = Raise (TypeError "int").
Proof. reflexivity. Qed.

(** C1 as stated fails on a dataset whose date column does not hold
    datetimes only.  The Merger makes one from a table with a missing
    date: the fill puts the number 0 in its place, the date-range rule
    cannot compare a number with a Timestamp, and the gate raises
    [TypeError] where the claim has it return a report. *)
Lemma gate_raises_on_filled_date :
  exists out what,
    merge_datasets_checked
      [] [ Sample.norm (Some "Chad") (Some "All") None 5 ] []
    = Return out
    /\ validate_data Sample.mid_2023 out = Raise (TypeError what)
    /\ forall report, validate_data Sample.mid_2023 out <> Return report.
Proof.
  eexists. eexists. split; [reflexivity|]. split; [reflexivity|].
  intros report. discriminate.
Qed.

(** ** The scenarios of the gate *)

Example scenario_clean :
  validate_data Sample.mid_2023
    [ Sample.unified "Chad" "All" (Sample.ts 2021 1 1) 100 5 10 85;
      Sample.unified "Chad" "All" (Sample.ts 2021 1 2) 110 5 10 95;
      Sample.unified "Peru" "All" (Sample.ts 2021 1 1) 7 0 0 7;
      Sample.unified "Peru" "All" (Sample.ts 2021 1 2) 9 1 0 8 ]
  = Return (true, [], []).
Proof. reflexivity. Qed.

(** A missing confirmed count fails the nullness rule and, since a missing
    value differs from everything, the consistency rule as well. *)
Example scenario_null_confirmed :
  validate_data Sample.mid_2023
    [ {| country_region := Str "Chad"; province_state := Str "All";
         date := Date (Sample.ts 2021 1 1);
         confirmed := None; deaths := Some 5%Z; recovered := Some 10%Z;
         active := None |} ]
  = Return (false,
            [ "Found 1 NULL values in confirmed";
              "Found 1 records with inconsistent active calculation" ],
            []).
Proof. reflexivity. Qed.

Example scenario_negative_recovered :
  validate_data Sample.mid_2023
    [ Sample.unified "Chad" "All" (Sample.ts 2021 1 1) 100 5 (-5) 100 ]
  = Return (true, [], ["Found 1 negative values in recovered"]).
Proof. reflexivity. Qed.

Example scenario_inconsistent_active :
  validate_data Sample.mid_2023
    [ Sample.unified "Chad" "All" (Sample.ts 2021 1 1) 100 5 10 50 ]
  = Return (false,
            ["Found 1 records with inconsistent active calculation"], []).
Proof. reflexivity. Qed.

(** All four rules run and report in the order of [checks], an earlier
    failure not stopping a later rule. *)
Example scenario_everything_wrong :
  validate_data Sample.mid_2023
    [ {| country_region := Null; province_state := Str "All";
         date := Date (Sample.ts 2019 12 31);
         confirmed := Some (-1)%Z; deaths := Some 5%Z; recovered := Some 10%Z;
         active := Some 0%Z |} ]
  = Return (false,
            [ "Found 1 NULL values in country_region";
              "Found 1 records with invalid dates";
              "Found 1 records with inconsistent active calculation" ],
            [ "Found 1 negative values in confirmed" ]).
Proof. reflexivity. Qed.

(** A second [validate_all] on the same validator object starts from the
    lists the first one filled: the report repeats the old messages. *)
Example validator_reuse :
  exists self,
    validate_all Sample.mid_2020 (init Sample.new_year_2021)
    = Return (false, ["Found 1 records with invalid dates"], [], self)
    /\ returned (validate_all Sample.mid_2020 self)
       = Return (false,
                 [ "Found 1 records with invalid dates";
                   "Found 1 records with invalid dates" ], []).
Proof. eexists. split; reflexivity. Qed.

(** ** The whole transformation on a small input *)

Example transform_all_sample :
  transform_all MDY.parse Sample.wide Sample.no_rows Sample.no_rows
  = Return
      [ Sample.unified "Chad" "All" (Sample.ts 2020 1 22) 1 0 0 1;
        Sample.unified "China" "Hubei" (Sample.ts 2020 1 22) 444 0 0 444;
        Sample.unified "Chad" "All" (Sample.ts 2020 1 23) 2 0 0 2;
        Sample.unified "China" "Hubei" (Sample.ts 2020 1 23) 0 0 0 0 ].
Proof. reflexivity. Qed.

(** A row without country under a column labelled [NaT], next to a dated
    column.  The merged dataset holds the number 0 as region, and as date
    in one of its two rows; the date range of such a column cannot be
    printed, and [transform_all] raises. *)
Example transform_all_missing_key :
  (exists out,
     pivot_to_long_format MDY.parse Sample.wide_nat_label = Return out
     /\ merge_datasets (clean_data out) [] []
        = [ {| country_region := Num 0; province_state := Str "All";
               date := Date (Sample.ts 2020 1 22);
               confirmed := Some 3%Z; deaths := Some 0%Z;
               recovered := Some 0%Z; active := Some 3%Z |};
            {| country_region := Num 0; province_state := Str "All";
               date := Num 0;
               confirmed := Some 4%Z; deaths := Some 0%Z;
               recovered := Some 0%Z; active := Some 4%Z |} ])
  /\ transform_all MDY.parse Sample.wide_nat_label Sample.no_rows Sample.no_rows
     = Raise (TypeError "'<=' not supported between instances").
Proof. split; [eexists; split; reflexivity | reflexivity]. Qed.

(** * Further properties *)

(** ** The report of the gate in closed form *)

Lemma found_zero what : found 0 what = [].
Proof. reflexivity. Qed.

Lemma found_nil_iff n what : found n what = [] <-> n = 0.
Proof. unfold found. destruct n; simpl; split; congruence. Qed.

Lemma series_sum_zero_iff {A} (p : A -> bool) xs :
  series_sum (map p xs) = 0 <-> forall x, In x xs -> p x = false.
Proof.
  split; [|apply sum_all_false].
  unfold series_sum. induction xs as [|x xs IH]; simpl; intros H y Hy;
    [contradiction|].
  destruct (p x) eqn:E; simpl in H; [discriminate|].
  destruct Hy as [<-|Hy]; auto.
Qed.

Lemma length_filter_zero_iff {A} (p : A -> bool) xs :
  List.length (filter p xs) = 0 <-> forall x, In x xs -> p x = false.
Proof.
  induction xs as [|x xs IH]; simpl.
  - split; [intros _ y []|reflexivity].
  - destruct (p x) eqn:E; simpl.
    + split; [discriminate|]. intros H. specialize (H x (or_introl eq_refl)).
      congruence.
    + rewrite IH. split; intros H y; [intros [<-|Hy]; auto|auto].
Qed.

(** A loop whose body appends the messages [msg x] of the dataset appends
    them for every [x] in turn. *)
Lemma for_each_errors_exact {A} (body : A -> method unit)
      (msg : A -> list UnifiedRecord -> list string) xs :
  (forall x self, body x self = Return (tt, add_errors self (msg x (df self)))) ->
  forall self,
    for_each xs body self
    = Return (tt, add_errors self (flat_map (fun x => msg x (df self)) xs)).
Proof.
  intros Hb. induction xs as [|x xs IH]; intros self; simpl.
  - unfold ret. now rewrite add_errors_nil.
  - unfold bind. rewrite Hb, IH. simpl df. now rewrite add_errors_app.
Qed.

Lemma for_each_warnings_exact {A} (body : A -> method unit)
      (msg : A -> list UnifiedRecord -> list string) xs :
  (forall x self,
     body x self = Return (tt, add_warnings self (msg x (df self)))) ->
  forall self,
    for_each xs body self
    = Return (tt, add_warnings self (flat_map (fun x => msg x (df self)) xs)).
Proof.
  intros Hb. induction xs as [|x xs IH]; intros self; simpl.
  - unfold ret. now rewrite add_warnings_nil.
  - unfold bind. rewrite Hb, IH. simpl df. now rewrite add_warnings_app.
Qed.

Lemma null_values_in_exact col self :
  null_values_in col self
  = Return (tt, add_errors self (found (null_count col (df self))
                                       (" NULL values in " ++ fst col))).
Proof.
  unfold null_values_in, bind, get_self, found, null_count.
  destruct (0 <? _)%nat; [reflexivity|].
  unfold ret. now rewrite add_errors_nil.
Qed.

Lemma negative_values_in_exact col self :
  negative_values_in col self
  = Return (tt, add_warnings self (found (negative_count col (df self))
                                         (" negative values in " ++ fst col))).
Proof.
  unfold negative_values_in, bind, get_self, found, negative_count.
  destruct (0 <? _)%nat; [reflexivity|].
  unfold ret. now rewrite add_warnings_nil.
Qed.

Lemma check_null_values_exact self :
  check_null_values self
  = Return (is_empty (errors self ++ null_messages (df self)),
            add_errors self (null_messages (df self))).
Proof.
  unfold check_null_values, bind.
  rewrite (for_each_errors_exact null_values_in
             (fun col rows => found (null_count col rows)
                                    (" NULL values in " ++ fst col)))
    by (intros; apply null_values_in_exact).
  unfold get_self, ret. simpl. now rewrite length_eqb_0.
Qed.

Lemma check_negative_values_exact self :
  check_negative_values self
  = Return (true, add_warnings self (negative_messages (df self))).
Proof.
  unfold check_negative_values, bind.
  rewrite (for_each_warnings_exact negative_values_in
             (fun col rows => found (negative_count col rows)
                                    (" negative values in " ++ fst col)))
    by (intros; apply negative_values_in_exact).
  reflexivity.
Qed.

Lemma select_map {A} (h : A -> bool) rows :
  select rows (map h rows) = filter h rows.
Proof.
  unfold select. induction rows as [|r rows IH]; simpl; [reflexivity|].
  destruct (h r); simpl; now rewrite IH.
Qed.

Lemma check_date_range_exact now self :
  datetime_dates (df self) ->
  check_date_range now self
  = Return (is_empty (date_messages now (df self)),
            add_errors self (date_messages now (df self))).
Proof.
  intros Hd. unfold check_date_range, bind, get_self, eval, series_lt, series_gt.
  rewrite !(series_compare_datetime _ _ _ Hd).
  unfold series_or. rewrite combine_map_map, !map_map, select_map.
  rewrite (filter_ext _ (fun r => out_of_range now (date r)))
    by (intros r; simpl; destruct (date r); reflexivity).
  fold (invalid_dates now (df self)).
  unfold date_messages, found.
  destruct (List.length (invalid_dates now (df self))) as [|n]; simpl.
  - unfold ret. now rewrite add_errors_nil.
  - reflexivity.
Qed.

Lemma check_logical_consistency_exact self :
  check_logical_consistency self
  = Return (is_empty (consistency_messages (df self)),
            add_errors self (consistency_messages (df self))).
Proof.
  unfold check_logical_consistency, bind, get_self.
  rewrite inconsistent_mask. fold inconsistent.
  change (fun r : UnifiedRecord =>
            ne (active r) (sub (sub (confirmed r) (deaths r)) (recovered r)))
    with inconsistent.
  unfold consistency_messages, found.
  destruct (series_sum (map inconsistent (df self))) as [|n]; simpl.
  - unfold ret. now rewrite add_errors_nil.
  - reflexivity.
Qed.

(** The report of a run on a fresh validator, rule by rule. *)
Lemma validate_data_exact now df :
  datetime_dates df ->
  validate_data now df
  = Return (is_empty (null_messages df ++ date_messages now df
                      ++ consistency_messages df),
            null_messages df ++ date_messages now df
            ++ consistency_messages df,
            negative_messages df).
Proof.
  intros Hd. unfold validate_data.
  erewrite validate_all_trace.
  2: apply check_null_values_exact.
  2: apply check_negative_values_exact.
  2: apply check_date_range_exact; exact Hd.
  2: apply check_logical_consistency_exact.
  simpl. rewrite <- app_assoc.
  destruct (null_messages df), (date_messages now df),
    (consistency_messages df); reflexivity.
Qed.

Lemma app_eq_nil_iff {A} (l l' : list A) :
  l ++ l' = [] <-> l = [] /\ l' = [].
Proof.
  split; [apply app_eq_nil|]. intros [-> ->]. reflexivity.
Qed.

Lemma datetime_dates_dec df : datetime_dates df \/ ~ datetime_dates df.
Proof.
  induction df as [|r df IH].
  - left. intros r [].
  - destruct (is_datetime (date r)) eqn:E.
    + destruct IH as [H|H].
      * left. intros r' [<-|Hr']; auto.
      * right. intros H'. apply H. intros r' Hr'. apply H'. now right.
    + right. intros H'. specialize (H' r (or_introl eq_refl)). congruence.
Qed.

(** The only exception the gate can end in is the [TypeError] of a date
    comparison. *)
Lemma check_date_range_type_error now self :
  ~ datetime_dates (df self) ->
  exists what, check_date_range now self = Raise (TypeError what).
Proof.
  intros Hn.
  assert (Hbad : exists c, In c (map date (df self))
                           /\ exists e, compare_timestamp Z.ltb c ts_2020_01_01
                                        = Raise e).
  { unfold datetime_dates in Hn.
    induction (df self) as [|r rows IH]; [exfalso; apply Hn; intros r []|].
    destruct (is_datetime (date r)) eqn:E.
    - destruct IH as [c [Hc He]].
      + intros H. apply Hn. intros r' [<-|Hr']; auto.
      + exists c. split; [now right|exact He].
    - exists (date r). split; [now left|].
      destruct (date r); simpl in *; try discriminate; eauto. }
  destruct (mapM_Raise _ _ Hbad) as [c [e [_ [Hc Hm]]]].
  assert (He : exists what, e = TypeError what).
  { destruct c; simpl in Hc; try discriminate; injection Hc as <-; eauto. }
  destruct He as [what ->].
  exists what. unfold check_date_range, bind, get_self, eval, series_lt.
  now rewrite Hm.
Qed.

Lemma validate_data_type_error now rows :
  ~ datetime_dates rows ->
  exists what, validate_data now rows = Raise (TypeError what).
Proof.
  intros Hn. unfold validate_data, validate_all, checks. simpl run_checks.
  unfold bind.
  rewrite check_null_values_exact, check_negative_values_exact.
  destruct (check_date_range_type_error now
              (add_warnings
                 (add_errors (init rows) (null_messages (df (init rows))))
                 (negative_messages
                    (df (add_errors (init rows)
                           (null_messages (df (init rows)))))))
              Hn) as [what ->].
  exists what. reflexivity.
Qed.

(** X1.  The gate raises exactly on a dataset whose date column holds something
    that is neither a Timestamp nor NaT, and then with [TypeError]: the
    three other rules cannot raise, and on a datetime column the run ends
    in a report. *)
Theorem gate_raises_iff_date_not_datetime now df :
  ((exists e, validate_data now df = Raise e) <-> ~ datetime_dates df)
  /\ (forall e, validate_data now df = Raise e -> exists what, e = TypeError what).
Proof.
  assert (Hret : datetime_dates df ->
                 forall e, validate_data now df <> Raise e).
  { intros Hd e. rewrite (validate_data_exact now df Hd). discriminate. }
  split; [split|].
  - intros [e He] Hd. exact (Hret Hd e He).
  - intros Hn. destruct (validate_data_type_error now df Hn) as [what H].
    eauto.
  - intros e He. destruct (datetime_dates_dec df) as [Hd|Hn].
    + exfalso. exact (Hret Hd e He).
    + destruct (validate_data_type_error now df Hn) as [what H].
      exists what. congruence.
Qed.

Lemma null_messages_nil_iff df :
  null_messages df = [] <->
  forall r, In r df ->
    country_region r <> Null /\ date r <> Null
    /\ confirmed r <> None /\ deaths r <> None.
Proof.
  unfold null_messages, critical_columns. cbn [flat_map]. rewrite app_nil_r.
  rewrite !app_eq_nil_iff, !found_nil_iff.
  unfold null_count. rewrite !series_sum_zero_iff. cbn [snd].
  split.
  - intros [H1 [H2 [H3 H4]]] r Hr.
    specialize (H1 r Hr). specialize (H2 r Hr).
    specialize (H3 r Hr). specialize (H4 r Hr).
    destruct (country_region r), (date r), (confirmed r), (deaths r);
      simpl in *; repeat split; congruence.
  - intros H. repeat split; intros r Hr; destruct (H r Hr) as [H1 [H2 [H3 H4]]].
    + destruct (country_region r); simpl; congruence.
    + destruct (date r); simpl; congruence.
    + destruct (confirmed r); simpl; congruence.
    + destruct (deaths r); simpl; congruence.
Qed.

Lemma negative_messages_nil_iff df :
  negative_messages df = [] <-> forall r, In r df -> no_negative_count r.
Proof.
  unfold negative_messages, numeric_columns. cbn [flat_map]. rewrite app_nil_r.
  rewrite !app_eq_nil_iff, !found_nil_iff.
  unfold negative_count. rewrite !series_sum_zero_iff. cbn [snd].
  unfold no_negative_count. split.
  - intros [H1 [H2 H3]] r Hr. auto.
  - intros H. repeat split; intros r Hr; apply (H r Hr).
Qed.

Lemma date_messages_nil_iff now df :
  date_messages now df = [] <->
  forall r, In r df -> out_of_range now (date r) = false.
Proof.
  unfold date_messages, invalid_dates.
  rewrite found_nil_iff. apply length_filter_zero_iff.
Qed.

Lemma consistency_messages_nil_iff df :
  consistency_messages df = [] <-> forall r, In r df -> inconsistent r = false.
Proof.
  unfold consistency_messages. rewrite found_nil_iff.
  apply series_sum_zero_iff.
Qed.

Lemma inconsistent_false_iff r :
  inconsistent r = false <->
  exists c d rec,
    confirmed r = Some c /\ deaths r = Some d /\ recovered r = Some rec
    /\ active r = Some (c - d - rec)%Z.
Proof.
  unfold inconsistent. split.
  - destruct (active r) as [a|], (confirmed r) as [c|], (deaths r) as [d|],
      (recovered r) as [rec|]; simpl; try discriminate.
    intros H. apply negb_false_iff, Z.eqb_eq in H. subst a. eauto 7.
  - intros [c [d [rec [-> [-> [-> ->]]]]]]. simpl. now rewrite Z.eqb_refl.
Qed.

Lemma clean_records_datetime now df :
  (forall r, In r df -> clean_record now r) -> datetime_dates df.
Proof.
  intros H r Hr. destruct (H r Hr) as [_ [[t [-> _]] _]]. reflexivity.
Qed.

Lemma validate_true_iff_clean now df :
  (exists errs warns, validate_data now df = Return (true, errs, warns))
  <-> (forall r, In r df -> clean_record now r).
Proof.
  split.
  - intros [errs [warns H]].
    destruct (datetime_dates_dec df) as [Hd|Hn].
    2: { destruct (validate_data_type_error now df Hn) as [what Hr].
         congruence. }
    rewrite (validate_data_exact now df Hd) in H.
    injection H as Hflag _ _.
    destruct (null_messages df) eqn:En; [|discriminate].
    destruct (date_messages now df) eqn:Ed; [|discriminate].
    destruct (consistency_messages df) eqn:Ec; [|discriminate].
    pose proof (proj1 (null_messages_nil_iff df) En) as Hnull.
    pose proof (proj1 (date_messages_nil_iff now df) Ed) as Hdate.
    pose proof (proj1 (consistency_messages_nil_iff df) Ec) as Hcons.
    clear En Ed Ec.
    intros r Hr. destruct (Hnull r Hr) as [H1 [H2 _]].
    pose proof (Hdate r Hr) as Ed. pose proof (Hcons r Hr) as Ec.
    specialize (Hd r Hr).
    split; [exact H1|]. split; [|now apply inconsistent_false_iff].
    destruct (date r) as [| |z|t]; simpl in *; try congruence.
    exists t. split; [reflexivity|].
    apply orb_false_iff in Ed as [Hlo Hhi].
    apply Z.ltb_ge in Hlo. rewrite Z.gtb_ltb in Hhi. apply Z.ltb_ge in Hhi.
    lia.
  - intros H. pose proof (clean_records_datetime now df H) as Hd.
    rewrite (validate_data_exact now df Hd).
    assert (En : null_messages df = []).
    { apply null_messages_nil_iff. intros r Hr.
      destruct (H r Hr) as [H1 [[t [Ht _]] [c [d [rec [Hc [Hde _]]]]]]].
      rewrite Ht, Hc, Hde. repeat split; congruence. }
    assert (Ed : date_messages now df = []).
    { apply date_messages_nil_iff. intros r Hr.
      destruct (H r Hr) as [_ [[t [-> Ht]] _]]. simpl.
      apply orb_false_iff. split; [apply Z.ltb_ge; lia|].
      rewrite Z.gtb_ltb. apply Z.ltb_ge. lia. }
    assert (Ec : consistency_messages df = []).
    { apply consistency_messages_nil_iff. intros r Hr.
      apply inconsistent_false_iff. apply (H r Hr). }
    rewrite En, Ed, Ec. simpl. eauto.
Qed.


(** X3.  The warnings of a report are empty exactly when no record has a
    negative confirmed, deaths or recovered count; a negative [active] is
    never warned about. *)
Theorem warnings_iff_negative_count now df flag errs warns :
  validate_data now df = Return (flag, errs, warns) ->
  (warns = [] <-> forall r, In r df -> no_negative_count r).
Proof.
  intros H. destruct (datetime_dates_dec df) as [Hd|Hn].
  2: { destruct (validate_data_type_error now df Hn) as [what Hr].
       congruence. }
  rewrite (validate_data_exact now df Hd) in H. injection H as _ _ <-.
  apply negative_messages_nil_iff.
Qed.

(** X4.  The verdict of the nullness rule is about the validator's whole list of
    errors: it answers [true] exactly when the list was empty before the
    call and no record lacks region, date, confirmed or deaths.  A missing
    sub-region, recovered or active is not looked at. *)
Theorem check_null_values_verdict self :
  exists self',
    check_null_values self
    = Return (is_empty (errors self'), self')
    /\ df self' = df self /\ warnings self' = warnings self
    /\ (errors self' = [] <->
        errors self = []
        /\ forall r, In r (df self) ->
             country_region r <> Null /\ date r <> Null
             /\ confirmed r <> None /\ deaths r <> None).
Proof.
  exists (add_errors self (null_messages (df self))).
  rewrite check_null_values_exact. simpl.
  split; [reflexivity|]. split; [reflexivity|]. split; [reflexivity|].
  rewrite app_eq_nil_iff, null_messages_nil_iff. reflexivity.
Qed.

(** X5.  Running [validate_all] a second time on the same validator object
    reports everything twice: the lists of the first run are still there
    and the second run appends the same messages again.  The flag is the
    same. *)
Theorem second_run_repeats_messages now df flag errs warns self :
  validate_all now (init df) = Return (flag, errs, warns, self) ->
  returned (validate_all now self) = Return (flag, errs ++ errs, warns ++ warns).
Proof.
  intros H. destruct (datetime_dates_dec df) as [Hd|Hn].
  2: { destruct (validate_data_type_error now df Hn) as [what Hr].
       unfold validate_data in Hr. simpl in Hr. rewrite H in Hr.
       discriminate. }
  erewrite validate_all_trace in H.
  2: apply check_null_values_exact.
  2: apply check_negative_values_exact.
  2: apply check_date_range_exact; exact Hd.
  2: apply check_logical_consistency_exact.
  simpl in H. injection H as Hf He Hw Hs.
  erewrite validate_all_trace.
  2: apply check_null_values_exact.
  2: apply check_negative_values_exact.
  2: apply check_date_range_exact; rewrite <- Hs; exact Hd.
  2: apply check_logical_consistency_exact.
  rewrite <- Hs. simpl. rewrite <- He, <- Hw, <- Hf.
  rewrite <- !app_assoc.
  destruct (null_messages df), (date_messages now df),
    (consistency_messages df); reflexivity.
Qed.

Lemma gate_raises_iff_date_not_datetime_witness :
  ~ datetime_dates GateSample.date_filled
  /\ exists e, validate_data Sample.mid_2023 GateSample.date_filled = Raise e.
Proof.
  assert (Hn : ~ datetime_dates GateSample.date_filled).
  { intros H. specialize (H _ (or_introl eq_refl)). discriminate. }
  split; [exact Hn|].
  exact (proj2 (proj1 (gate_raises_iff_date_not_datetime
                         Sample.mid_2023 GateSample.date_filled)) Hn).
Defined.


Lemma warnings_iff_negative_count_witness :
  validate_data Sample.mid_2023 GateSample.negative_recovered
  = Return (true, [], ["Found 1 negative values in recovered"])
  /\ ~ (forall r, In r GateSample.negative_recovered -> no_negative_count r).
Proof.
  assert (H : validate_data Sample.mid_2023 GateSample.negative_recovered
              = Return (true, [], ["Found 1 negative values in recovered"]))
    by reflexivity.
  split; [exact H|].
  intros Hno.
  apply (warnings_iff_negative_count _ _ _ _ _ H) in Hno. discriminate Hno.
Defined.

Lemma check_null_values_verdict_witness :
  exists self',
    check_null_values
      {| df := Sample.new_year_2021; errors := ["earlier"]; warnings := [] |}
    = Return (false, self')
    /\ errors self' = ["earlier"].
Proof.
  destruct (check_null_values_verdict
              {| df := Sample.new_year_2021; errors := ["earlier"];
                 warnings := [] |}) as [self' [H [_ [_ Hiff]]]].
  exists self'.
  assert (He : errors self' = ["earlier"]).
  { vm_compute in H. injection H as _ <-. reflexivity. }
  split; [|exact He]. rewrite H, He. reflexivity.
Defined.

Lemma second_run_repeats_messages_witness :
  exists self,
    validate_all Sample.mid_2020 (init Sample.new_year_2021)
    = Return (false, ["Found 1 records with invalid dates"], [], self)
    /\ returned (validate_all Sample.mid_2020 self)
       = Return (false,
                 [ "Found 1 records with invalid dates";
                   "Found 1 records with invalid dates" ], []).
Proof.
  eexists. split; [reflexivity|].
  apply (second_run_repeats_messages Sample.mid_2020 Sample.new_year_2021
           false ["Found 1 records with invalid dates"] []).
  reflexivity.
Defined.

(** ** The outer join, row by row *)

Lemma key_eqb_sym k1 k2 : key_eqb k1 k2 = key_eqb k2 k1.
Proof.
  destruct (key_eqb k1 k2) eqn:E1, (key_eqb k2 k1) eqn:E2; try reflexivity.
  - apply key_eqb_eq in E1. subst. now rewrite key_eqb_refl in E2.
  - apply key_eqb_eq in E2. subst. now rewrite key_eqb_refl in E1.
Qed.

Section OuterMergeCount.

Context {A B : Type}.
Variable null_left : A.
Variable null_right : B.

Lemma length_join_left_row (right : keyed B) (ka : MergeKey * A) :
  List.length (join_left_row null_right right ka)
  = Nat.max 1 (List.length (matches (fst ka) right)).
Proof.
  unfold join_left_row.
  destruct (matches (fst ka) right) as [|kb ms]; [reflexivity|].
  rewrite length_map. reflexivity.
Qed.

Lemma fst_join_left_row (right : keyed B) (ka : MergeKey * A) row :
  In row (join_left_row null_right right ka) -> fst row = fst ka.
Proof.
  unfold join_left_row.
  destruct (matches (fst ka) right) as [|kb ms].
  - intros [<-|[]]. reflexivity.
  - intros H. apply in_map_iff in H as [kb' [<- _]]. reflexivity.
Qed.

Lemma filter_const {V} (p : V -> bool) (b : bool) rows :
  (forall x, In x rows -> p x = b) ->
  filter p rows = if b then rows else [].
Proof.
  induction rows as [|x rows IH]; simpl; intros H; [now destruct b|].
  rewrite (H x) by auto. rewrite IH by auto. now destruct b.
Qed.

Lemma matches_join_left_row k (right : keyed B) (ka : MergeKey * A) :
  matches k (join_left_row null_right right ka)
  = if key_eqb k (fst ka) then join_left_row null_right right ka else [].
Proof.
  unfold matches at 1. apply filter_const.
  intros row Hrow. now rewrite (fst_join_left_row _ _ _ Hrow).
Qed.

Lemma matches_app {V} k (xs ys : keyed V) :
  matches k (xs ++ ys) = matches k xs ++ matches k ys.
Proof. unfold matches. apply filter_app. Qed.

Lemma count_left_part k (left : keyed A) (right : keyed B) :
  List.length (matches k (flat_map (join_left_row null_right right) left))
  = List.length (matches k left) * Nat.max 1 (List.length (matches k right)).
Proof.
  induction left as [|ka left IH]; [reflexivity|].
  cbn [flat_map]. rewrite matches_app, length_app, IH, matches_join_left_row.
  unfold matches at 3. cbn [filter].
  destruct (key_eqb k (fst ka)) eqn:E.
  - apply key_eqb_eq in E. subst k. rewrite length_join_left_row.
    cbn [List.length]. fold (matches (fst ka) left). lia.
  - cbn [List.length]. fold (matches k left). lia.
Qed.

Lemma count_right_part k (left : keyed A) (right : keyed B) :
  List.length
    (matches k (map (fun kb => (fst kb, (null_left, snd kb)))
                    (filter (fun kb => negb (has_key (fst kb) left)) right)))
  = if has_key k left then 0 else List.length (matches k right).
Proof.
  induction right as [|kb right IH]; [now destruct (has_key k left)|].
  cbn [filter]. unfold matches at 2. cbn [filter]. fold (matches k right).
  destruct (key_eqb k (fst kb)) eqn:E.
  - apply key_eqb_eq in E. subst k.
    destruct (has_key (fst kb) left) eqn:Hk; cbn [negb].
    + exact IH.
    + cbn [map]. unfold matches at 1. cbn [filter fst].
      rewrite key_eqb_refl. cbn [List.length].
      f_equal. exact IH.
  - destruct (has_key (fst kb) left) eqn:Hk; cbn [negb].
    + exact IH.
    + cbn [map]. unfold matches at 1. cbn [filter fst]. rewrite E.
      exact IH.
Qed.

Lemma has_key_matches k (left : keyed A) :
  has_key k left = negb (List.length (matches k left) =? 0)%nat.
Proof.
  destruct (has_key k left) eqn:E.
  - apply has_key_true in E.
    destruct (matches k left) eqn:M; [|reflexivity].
    apply matches_nil in M. contradiction.
  - apply has_key_false, matches_nil in E. now rewrite E.
Qed.

(** How often a key occurs in an outer join. *)
Lemma count_merge_outer k (left : keyed A) (right : keyed B) :
  List.length (matches k (merge_outer null_left null_right left right))
  = joined_rows (List.length (matches k left))
                (List.length (matches k right)).
Proof.
  unfold merge_outer.
  rewrite matches_app, length_app, count_left_part, count_right_part,
    has_key_matches.
  unfold joined_rows.
  destruct (List.length (matches k left) =? 0)%nat eqn:E; cbn [negb].
  - apply Nat.eqb_eq in E. rewrite E. lia.
  - lia.
Qed.

(** A row of the left frame is kept with its values. *)
Lemma left_row_kept (left : keyed A) (right : keyed B) k a :
  In (k, a) left ->
  exists b, In (k, (a, b)) (merge_outer null_left null_right left right).
Proof.
  intros Ha. destruct (matches k right) as [|[k2 b] ms] eqn:E.
  - exists null_right. apply in_merge_outer. right. left.
    apply matches_nil in E. auto.
  - assert (H : In (k2, b) (matches k right)) by (rewrite E; now left).
    apply in_matches in H as [Hb Hk]. simpl in Hk. subst k2.
    exists b. apply in_merge_outer. auto.
Qed.

Lemma right_row_kept (left : keyed A) (right : keyed B) k b :
  In (k, b) right ->
  exists a, In (k, (a, b)) (merge_outer null_left null_right left right).
Proof.
  intros Hb. destruct (has_key k left) eqn:E.
  - apply has_key_true, in_map_iff in E as [[k2 a] [Hk Ha]].
    simpl in Hk. subst k2. exists a. apply in_merge_outer. auto.
  - exists null_left. apply in_merge_outer. right. right.
    apply has_key_false in E. auto.
Qed.

End OuterMergeCount.

(** ** [merge_datasets]: which rows, how many, with what values *)

Lemma cells_eqb_filled k1 k2 :
  cells_eqb (fillna_key 0 (key_cells k1)) (fillna_key 0 (key_cells k2))
  = key_eqb k1 k2.
Proof.
  destruct k1 as [[[r1|] [p1|]] [d1|]], k2 as [[[r2|] [p2|]] [d2|]];
    reflexivity.
Qed.

Lemma length_filter_map {X Y} (p : Y -> bool) (f : X -> Y) xs :
  List.length (filter p (map f xs))
  = List.length (filter (fun x => p (f x)) xs).
Proof.
  induction xs as [|x xs IH]; simpl; [reflexivity|].
  destruct (p (f x)); simpl; now rewrite IH.
Qed.

(** X6.  Rows with equal keys are paired in all combinations.  Whenever the
    Merger returns a dataset, then with [a], [b] and
    [c] the numbers of rows under one key in the confirmed, deaths and
    recovered tables, the output has, under that key (0 in place of a
    missing key cell), the number of rows of joining [a] with [b] and the
    result with [c], where joining [x] with [y] gives [y] rows when [x] is
    0 and [x * max 1 y] rows otherwise.  So a key present once everywhere
    gives one row, a key occurring twice in one table gives two, and no
    row is dropped in favour of a later one. *)
Theorem rows_per_key c d r out k :
  merge_datasets_checked c d r = Return out ->
  List.length (rows_with_key (fillna_key 0 (key_cells k)) out)
  = joined_rows (joined_rows (occurrences k c) (occurrences k d))
                (occurrences k r).
Proof.
  intros Hout. apply merge_datasets_checked_Return in Hout. subst out.
  unfold rows_with_key. rewrite merge_datasets_eq, length_filter_map.
  rewrite (filter_ext _ (fun kv => key_eqb k (fst kv))).
  - change (List.length (matches k (outer_join3 c d r))
            = joined_rows (joined_rows (occurrences k c) (occurrences k d))
                          (occurrences k r)).
    unfold outer_join3. rewrite !count_merge_outer. reflexivity.
  - intros kv. rewrite key_of_merged, cells_eqb_filled. apply key_eqb_sym.
Qed.

(** X7.  Whenever the Merger returns a dataset, its keys are the keys of
    the three tables, 0 standing for a missing key cell: the outer joins
    lose no key and invent none. *)
Theorem merged_keys_are_input_keys c d r out cells :
  merge_datasets_checked c d r = Return out ->
  (In cells (map key_of out) <->
   exists x,
     (In x c \/ In x d \/ In x r)
     /\ cells = fillna_key 0 (key_cells (merge_keys x))).
Proof.
  intros Hout. apply merge_datasets_checked_Return in Hout. subst out.
  rewrite merge_datasets_eq, map_map, in_map_iff. split.
  - intros [kv [Hk Hin]]. rewrite key_of_merged in Hk.
    assert (H : In (fst kv) (map fst (outer_join3 c d r))) by now apply in_map.
    apply keys_outer_join3 in H.
    rewrite !in_map_iff in H.
    destruct H as [[x [Hx Hin']]|[[x [Hx Hin']]|[x [Hx Hin']]]];
      exists x; rewrite Hx; auto.
  - intros [x [Hx ->]].
    assert (H : In (merge_keys x) (map fst (outer_join3 c d r))).
    { apply keys_outer_join3.
      destruct Hx as [Hx|[Hx|Hx]]; [left|right; left|right; right];
        now apply in_map. }
    apply in_map_iff in H as [kv [Hk Hin]].
    exists kv. split; [|exact Hin]. now rewrite key_of_merged, Hk.
Qed.

Lemma in_on_keys table k v :
  In (k, v) (on_keys table) <->
  exists x, In x table /\ merge_keys x = k /\ n_value x = v.
Proof.
  unfold on_keys. rewrite in_map_iff. split.
  - intros [x [H Hin]]. injection H as <- <-. eauto.
  - intros [x [Hin [<- <-]]]. eauto.
Qed.

Lemma join3_confirmed_kept c d r k v :
  In (k, v) (on_keys c) ->
  exists dv rv, In (k, (v, dv, rv)) (outer_join3 c d r).
Proof.
  intros H. unfold outer_join3.
  destruct (left_row_kept None None _ (on_keys d) _ _ H) as [dv H1].
  destruct (left_row_kept (None, None) None _ (on_keys r) _ _ H1) as [rv H2].
  eauto.
Qed.

Lemma join3_deaths_kept c d r k v :
  In (k, v) (on_keys d) ->
  exists cv rv, In (k, (cv, v, rv)) (outer_join3 c d r).
Proof.
  intros H. unfold outer_join3.
  destruct (right_row_kept None None (on_keys c) _ _ _ H) as [cv H1].
  destruct (left_row_kept (None, None) None _ (on_keys r) _ _ H1) as [rv H2].
  eauto.
Qed.

Lemma join3_recovered_kept c d r k v :
  In (k, v) (on_keys r) ->
  exists cv dv, In (k, (cv, dv, v)) (outer_join3 c d r).
Proof.
  intros H. unfold outer_join3.
  destruct (right_row_kept (None, None) None
              (merge_outer None None (on_keys c) (on_keys d)) _ _ _ H)
    as [[cv dv] H1].
  eauto.
Qed.

(** X8.  No observation is lost: whenever the Merger returns a dataset,
    the counts of the tables being in the exact range, every row of a
    metric's table shows in the dataset under its key, with its value in
    that metric's field (0 when the value itself was missing). *)
Theorem every_value_reaches_output c d r out x :
  counts_in_range c -> counts_in_range d -> counts_in_range r ->
  merge_datasets_checked c d r = Return out ->
  (In x c ->
   exists row, In row out
     /\ key_of row = fillna_key 0 (key_cells (merge_keys x))
     /\ confirmed row = fillna_num 0 (n_value x))
  /\ (In x d ->
      exists row, In row out
        /\ key_of row = fillna_key 0 (key_cells (merge_keys x))
        /\ deaths row = fillna_num 0 (n_value x))
  /\ (In x r ->
      exists row, In row out
        /\ key_of row = fillna_key 0 (key_cells (merge_keys x))
        /\ recovered row = fillna_num 0 (n_value x)).
Proof.
  intros _ _ _ Hout. apply merge_datasets_checked_Return in Hout. subst out.
  split; [|split]; intros Hx.
  - assert (H : In (merge_keys x, n_value x) (on_keys c))
      by (apply in_on_keys; eauto).
    destruct (join3_confirmed_kept c d r _ _ H) as [dv [rv H3]].
    eexists. split; [apply in_merge_datasets; eauto 6|].
    split; [apply key_of_merged|].
    destruct (merge_keys x) as [[cr ps] dt]. reflexivity.
  - assert (H : In (merge_keys x, n_value x) (on_keys d))
      by (apply in_on_keys; eauto).
    destruct (join3_deaths_kept c d r _ _ H) as [cv [rv H3]].
    eexists. split; [apply in_merge_datasets; eauto 6|].
    split; [apply key_of_merged|].
    destruct (merge_keys x) as [[cr ps] dt]. reflexivity.
  - assert (H : In (merge_keys x, n_value x) (on_keys r))
      by (apply in_on_keys; eauto).
    destruct (join3_recovered_kept c d r _ _ H) as [cv [dv H3]].
    eexists. split; [apply in_merge_datasets; eauto 6|].
    split; [apply key_of_merged|].
    destruct (merge_keys x) as [[cr ps] dt]. reflexivity.
Qed.


Lemma rows_per_key_witness :
  exists out,
    merge_datasets_checked MergeSample.confirmed_twice
                           MergeSample.deaths_twice [] = Return out
    /\ List.length
         (rows_with_key (fillna_key 0 (key_cells MergeSample.chad_key)) out)
       = 4.
Proof.
  eexists. split; [reflexivity|].
  exact (rows_per_key MergeSample.confirmed_twice MergeSample.deaths_twice []
           _ MergeSample.chad_key eq_refl).
Defined.

Example rows_per_key_twice_twice :
  Permutation
    (map (fun row => (confirmed row, deaths row))
         (merge_datasets MergeSample.confirmed_twice
                         MergeSample.deaths_twice []))
    [ (Some 1, Some 0); (Some 1, Some 2);
      (Some 3, Some 0); (Some 3, Some 2) ]%Z.
Proof. apply Permutation_refl. Qed.

Lemma merged_keys_are_input_keys_witness :
  exists out,
    merge_datasets_checked Sample.confirmed_df Sample.deaths_df
                           Sample.recovered_df = Return out
    /\ In (Str "France", Str "All", date_cell Sample.d22) (map key_of out).
Proof.
  eexists. split; [reflexivity|].
  apply (merged_keys_are_input_keys Sample.confirmed_df Sample.deaths_df
           Sample.recovered_df _ _ eq_refl).
  exists (Sample.norm (Some "France") (Some "All") Sample.d22 2).
  split; [|reflexivity]. right. left. simpl. auto.
Defined.

Lemma every_value_reaches_output_witness :
  exists out row,
    merge_datasets_checked Sample.confirmed_df Sample.deaths_df
                           Sample.recovered_df = Return out
    /\ In row out
    /\ key_of row = (Str "China", Str "Hubei", date_cell Sample.d22)
    /\ deaths row = Some 17%Z.
Proof.
  destruct sample_counts_in_range as [Rc [Rd Rr]].
  destruct (every_value_reaches_output Sample.confirmed_df Sample.deaths_df
              Sample.recovered_df _ MergeSample.hubei_deaths Rc Rd Rr eq_refl)
    as [_ [H _]].
  destruct H as [row [Hin [Hk Hv]]]; [simpl; auto|].
  eexists. exists row. split; [reflexivity|]. auto.
Defined.


Lemma merge_outer_right_nil {A B} (null_left : A) (null_right : B)
      (left : keyed A) :
  merge_outer null_left null_right left []
  = map (fun ka => (fst ka, (snd ka, null_right))) left.
Proof.
  unfold merge_outer. cbn [filter map]. rewrite app_nil_r.
  induction left as [|ka left IH]; [reflexivity|].
  cbn [flat_map map]. rewrite IH. reflexivity.
Qed.

(** X10.  With nothing in the deaths and recovered tables the Merger
    returns a dataset that has, up to the order of the rows, one row per
    row of the confirmed table: key and confirmed count with 0 for what is
    missing, deaths and recovered 0, and [active] equal to confirmed.  The
    counts are taken in the exact range, where the float64 subtraction of
    the two zeros, which is what pandas computes here, gives back the
    count.  Three empty tables give the empty dataset. *)
Theorem merge_confirmed_only c :
  counts_in_range c ->
  (exists out,
     merge_datasets_checked c [] [] = Return out
     /\ Permutation out
          (map (fun x =>
                  {| country_region :=
                       fillna_cell 0 (str_cell (n_country_region x));
                     province_state :=
                       fillna_cell 0 (str_cell (n_province_state x));
                     date := fillna_cell 0 (date_cell (n_date x));
                     confirmed := fillna_num 0 (n_value x);
                     deaths := Some 0%Z;
                     recovered := Some 0%Z;
                     active := fillna_num 0 (n_value x) |}) c))
  /\ (forall x v, In x c -> n_value x = Some v ->
                  float64_sub (float64_sub v 0) 0 = v)
  /\ merge_datasets_checked [] [] [] = Return [].
Proof.
  intros Rc. split; [|split; [|reflexivity]].
  - exists (merge_datasets c [] []). split.
    + unfold merge_datasets_checked. cbn [region_dtype].
      destruct (region_dtype c); reflexivity.
    + rewrite merge_datasets_eq. unfold outer_join3.
      cbn [on_keys map]. rewrite !merge_outer_right_nil.
      unfold on_keys. rewrite !map_map.
      erewrite map_ext; [apply Permutation_refl|].
      intros [ps cr dt [v|]]; cbn; [|reflexivity].
      destruct v; reflexivity.
  - intros x v Hx Hv. pose proof (Rc x v Hx Hv) as Hr.
    unfold exact_range in Hr.
    rewrite (float64_sub_exact v 0) by lia.
    replace (v - 0)%Z with v by lia.
    rewrite (float64_sub_exact v 0) by lia. lia.
Qed.

Lemma merge_confirmed_only_witness :
  exists out,
    merge_datasets_checked Sample.confirmed_df [] [] = Return out
    /\ List.length out = 2.
Proof.
  destruct (merge_confirmed_only Sample.confirmed_df
              (proj1 sample_counts_in_range)) as [[out [Hout Hperm]] _].
  exists out. split; [exact Hout|].
  rewrite (Permutation_length Hperm). reflexivity.
Defined.

Lemma merged_rows_pass_null_and_consistency c d r :
  null_messages (merge_datasets c d r) = []
  /\ consistency_messages (merge_datasets c d r) = [].
Proof.
  split.
  - apply null_messages_nil_iff. intros row Hrow.
    apply merged_row_filled in Hrow
      as [H1 [_ [H3 [cv [dv [rv [Hc [Hd _]]]]]]]].
    rewrite Hc, Hd. repeat split; auto; discriminate.
  - apply consistency_messages_nil_iff. intros row Hrow.
    apply inconsistent_false_iff.
    apply merged_row_filled in Hrow as [_ [_ [_ H]]]. exact H.
Qed.

(** X11.  On a dataset straight from [merge_datasets] the date rule alone decides:
    whenever the gate returns a report, its errors are those of the
    date-range rule (one message at most) and the flag is true exactly when
    no date is out of range.  The nullness and consistency rules have
    nothing to find there. *)
Theorem merger_output_verdict now c d r flag errs warns :
  validate_data now (merge_datasets c d r) = Return (flag, errs, warns) ->
  errs = date_messages now (merge_datasets c d r)
  /\ List.length errs <= 1
  /\ (flag = true <->
      forall row, In row (merge_datasets c d r) ->
                  out_of_range now (date row) = false).
Proof.
  intros H. destruct (datetime_dates_dec (merge_datasets c d r)) as [Hd|Hn].
  2: { destruct (validate_data_type_error now _ Hn) as [what Hr].
       congruence. }
  rewrite (validate_data_exact now _ Hd) in H.
  destruct (merged_rows_pass_null_and_consistency c d r) as [En Ec].
  rewrite En, Ec, app_nil_r in H. cbn [app] in H.
  injection H as Hf He _. subst errs flag.
  split; [reflexivity|]. split.
  - unfold date_messages, found. destruct (0 <? _)%nat; simpl; lia.
  - rewrite <- date_messages_nil_iff.
    destruct (date_messages now (merge_datasets c d r)); simpl;
      split; congruence.
Qed.

Lemma merger_output_verdict_witness :
  validate_data Sample.mid_2023
    (merge_datasets Sample.confirmed_df Sample.deaths_df Sample.recovered_df)
  = Return (true, [], [])
  /\ forall row,
       In row (merge_datasets Sample.confirmed_df Sample.deaths_df
                              Sample.recovered_df) ->
       out_of_range Sample.mid_2023 (date row) = false.
Proof.
  assert (H : validate_data Sample.mid_2023
                (merge_datasets Sample.confirmed_df Sample.deaths_df
                                Sample.recovered_df)
              = Return (true, [], [])) by reflexivity.
  split; [exact H|].
  destruct (merger_output_verdict _ _ _ _ _ _ _ H) as [_ [_ Hiff]].
  now apply Hiff.
Defined.

(** ** Reshaper: when it raises, and on what *)

Lemma mapM_app {A B} (f : A -> result B) xs ys :
  mapM f (xs ++ ys)
  = (a <- mapM f xs ;; b <- mapM f ys ;; Return (a ++ b))%result.
Proof.
  induction xs as [|x xs IH]; simpl.
  - destruct (mapM f ys); reflexivity.
  - destruct (f x) as [y|e]; simpl; [|reflexivity].
    rewrite IH. destruct (mapM f xs) as [a|e]; simpl; [|reflexivity].
    destruct (mapM f ys); reflexivity.
Qed.

Lemma convert_good_block (read : string -> option (option Timestamp))
      (rows : list RawRow) labels :
  (forall l, In l labels -> read l <> None) ->
  exists dates,
    mapM (to_datetime_scalar read)
         (flat_map (fun l => map (fun _ : RawRow => l) rows) labels)
    = Return dates.
Proof.
  intros H. eexists.
  apply mapM_total
    with (g := fun s => match read s with Some d => d | None => None end).
  intros s Hs. apply in_flat_map in Hs as [l [Hl Hs]].
  apply in_map_iff in Hs as [_ [<- _]].
  unfold to_datetime_scalar. specialize (H l Hl).
  destruct (read l); congruence.
Qed.

Lemma forallb_map {A B} (f : A -> B) (p : B -> bool) xs :
  forallb p (map f xs) = forallb (fun x => p (f x)) xs.
Proof.
  induction xs as [|x xs IH]; [reflexivity|]. cbn. now rewrite IH.
Qed.

Lemma forallb_flat_map_const {A B} (p : B -> bool) (block : list B)
      (x : A) (xs : list A) :
  forallb p (flat_map (fun _ => block) (x :: xs)) = forallb p block.
Proof.
  revert x. induction xs as [|y xs IH]; intros x; cbn [flat_map].
  - now rewrite app_nil_r.
  - rewrite forallb_app. cbn [flat_map] in IH. rewrite (IH y).
    apply andb_diag.
Qed.

Section ReshaperErrors.

Variable parse_datetime : DateParser.

(** X12.  The error of the Reshaper names the first label, in header
    order, that the conversion of the column refuses.  The way of reading
    is the one the header fixes: the format inferred from its first label
    that is not passed over, or each label on its own when no format is
    inferred.  On a table with at least one row whose header is
    [good ++ bad :: rest], with every label of [good] accepted under it
    and [bad] refused, the call raises [ValueError] on [bad], whatever
    [rest] holds. *)
Theorem first_bad_label_is_reported df good bad rest :
  raw_rows df <> [] ->
  date_labels df = good ++ bad :: rest ->
  (forall l, In l good -> reader parse_datetime (date_labels df) l <> None) ->
  reader parse_datetime (date_labels df) bad = None ->
  pivot_to_long_format parse_datetime df = Raise (ValueError bad).
Proof.
  intros Hrows Hlabels Hgood Hbad.
  unfold pivot_to_long_format, to_datetime.
  rewrite (reader_melt parse_datetime df Hrows).
  remember (reader parse_datetime (date_labels df)) as read eqn:Eread.
  rewrite melt_dates, Hlabels.
  rewrite flat_map_app, mapM_app.
  destruct (convert_good_block read (raw_rows df) good Hgood) as [dates Hd].
  rewrite Hd.
  destruct (raw_rows df) as [|r rows]; [congruence|].
  cbn. unfold to_datetime_scalar. rewrite Hbad. reflexivity.
Qed.

Lemma pivot_returns_readable df :
  (exists out, pivot_to_long_format parse_datetime df = Return out)
  <-> readable parse_datetime df.
Proof.
  split.
  - intros [out Hout]. destruct (raw_rows df) as [|r rows] eqn:Er.
    + left. exact Er.
    + right. intros l Hl.
      destruct (label_in_melt df l r Hl) as [m [Hm <-]];
        [rewrite Er; now left|].
      apply pivot_Return_inv in Hout.
      apply In_nth_error in Hm as [i Hi].
      destruct (Forall2_nth_error_l _ _ _ Hout _ _ Hi) as [o [_ [dt [Hp _]]]].
      congruence.
  - intros [Hr|Hl].
    + exists []. now apply pivot_no_rows.
    + now apply pivot_total.
Qed.

(** X13.  The Reshaper returns a long table exactly for a readable wide
    table: one without rows, whatever its header, or one all of whose
    labels are accepted under the way of reading that the header fixes
    (the format inferred from its first label, or each label on its own
    when none is inferred). *)
Theorem pivot_returns_iff_readable df :
  (exists out, pivot_to_long_format parse_datetime df = Return out)
  <-> readable parse_datetime df.
Proof. exact (pivot_returns_readable df). Qed.

(** ** [transform_all] *)

Lemma Forall2_in_l {X Y} (P : X -> Y -> Prop) xs ys x :
  Forall2 P xs ys -> In x xs -> exists y, In y ys /\ P x y.
Proof.
  induction 1 as [|x0 y0 xs ys HP _ IH]; intros Hx; [contradiction|].
  destruct Hx as [<-|Hx].
  - exists y0. split; [now left|exact HP].
  - destruct (IH Hx) as [y [Hy Hp]]. exists y. split; [now right|exact Hp].
Qed.

Lemma Forall2_in_r {X Y} (P : X -> Y -> Prop) xs ys y :
  Forall2 P xs ys -> In y ys -> exists x, In x xs /\ P x y.
Proof.
  induction 1 as [|x0 y0 xs ys HP _ IH]; intros Hy; [contradiction|].
  destruct Hy as [<-|Hy].
  - exists x0. split; [now left|exact HP].
  - destruct (IH Hy) as [x [Hx Hp]]. exists x. split; [now right|exact Hp].
Qed.

Lemma mapM_Raise_inv {A B} (f : A -> result B) xs e :
  mapM f xs = Raise e -> exists x, In x xs /\ f x = Raise e.
Proof.
  induction xs as [|x xs IH]; simpl; [discriminate|].
  destruct (f x) as [y|e0] eqn:Hx; simpl.
  - destruct (mapM f xs) as [ys|e1]; simpl; [discriminate|].
    intros H. injection H as <-.
    destruct (IH eq_refl) as [x1 [Hin Hf]]. eauto.
  - intros H. injection H as <-. eauto.
Qed.

Lemma labels_in_use_in df l :
  In l (labels_in_use df) <-> raw_rows df <> [] /\ In l (date_labels df).
Proof.
  unfold labels_in_use. destruct (raw_rows df); simpl; split.
  - contradiction.
  - intros [H _]. congruence.
  - intros H. split; [discriminate|exact H].
  - intros [_ H]. exact H.
Qed.

Lemma pivot_Raise_inv df e :
  pivot_to_long_format parse_datetime df = Raise e ->
  exists l, In l (labels_in_use df)
            /\ reader parse_datetime (date_labels df) l = None
            /\ e = ValueError l.
Proof.
  intros Hraise.
  assert (Hrows : raw_rows df <> []).
  { intros E. rewrite (pivot_no_rows parse_datetime df E) in Hraise.
    discriminate Hraise. }
  revert Hraise. unfold pivot_to_long_format, to_datetime.
  rewrite (reader_melt parse_datetime df Hrows).
  destruct (mapM _ _) as [dates|e0] eqn:Hm; simpl; [discriminate|].
  intros H. injection H as <-.
  apply mapM_Raise_inv in Hm as [l [Hl Hf]].
  apply in_map_iff in Hl as [m [<- Hm]].
  exists (lr_date m). unfold to_datetime_scalar in Hf.
  destruct (reader parse_datetime (date_labels df) (lr_date m)) eqn:Hp;
    [discriminate|].
  injection Hf as <-. split; [|auto].
  apply labels_in_use_in. split; [exact Hrows|now apply in_melt_date].
Qed.

Lemma pivot_Return_labels df out l :
  pivot_to_long_format parse_datetime df = Return out ->
  In l (labels_in_use df) ->
  reader parse_datetime (date_labels df) l <> None.
Proof.
  intros Hout Hl. apply labels_in_use_in in Hl as [Hrows Hl].
  destruct (proj1 (pivot_returns_readable df) (ex_intro _ out Hout))
    as [H|H]; [contradiction|auto].
Qed.

(** The dates of a normalised long table are the readings of the labels in
    use. *)
Lemma clean_dates df out d :
  pivot_to_long_format parse_datetime df = Return out ->
  (exists x, In x (clean_data out) /\ n_date x = d)
  <-> In (Some d) (dates_read parse_datetime df).
Proof.
  intros Hout. pose proof (pivot_Return_inv parse_datetime df out Hout) as HF.
  unfold dates_read. rewrite clean_data_map, in_map_iff. split.
  - intros [x [Hx <-]]. apply in_map_iff in Hx as [o [<- Ho]]. simpl.
    destruct (Forall2_in_r _ _ _ _ HF Ho) as [m [Hm [d' [Hp ->]]]].
    exists (lr_date m). split; [exact Hp|].
    apply labels_in_use_in. split.
    + intros E. rewrite (melt_no_rows df E) in Hm. contradiction.
    + now apply in_melt_date.
  - intros [l [Hp Hl]]. apply labels_in_use_in in Hl as [Hrows Hl].
    destruct (raw_rows df) as [|r rows] eqn:Er; [congruence|].
    destruct (label_in_melt df l r Hl) as [m [Hm Hd]];
      [rewrite Er; now left|].
    destruct (Forall2_in_l _ _ _ _ HF Hm) as [o [Ho [d' [Hp' ->]]]].
    exists (drop_coordinates
              (fillna_province_state "All" (rename (with_date m d')))).
    split; [apply in_map_iff; eexists; split; [reflexivity|exact Ho]|].
    simpl. rewrite Hd in Hp'. congruence.
Qed.

(** The regions of a normalised long table are those of the rows of the
    wide table, once per date column. *)
Lemma clean_regions df out :
  pivot_to_long_format parse_datetime df = Return out ->
  map n_country_region (clean_data out)
  = flat_map (fun _ => map Country_Region (raw_rows df)) (date_labels df).
Proof.
  intros Hout. pose proof (pivot_Return_inv parse_datetime df out Hout) as HF.
  assert (E : map n_country_region (clean_data out)
              = map lr_Country_Region (melt df)).
  { rewrite clean_data_map, map_map. cbn.
    remember (melt df) as ms eqn:Ems. clear Ems Hout.
    induction HF as [|m o ms os [d [_ ->]] _ IH]; [reflexivity|].
    cbn. now rewrite IH. }
  rewrite E. clear E HF Hout. unfold melt, enumerate.
  generalize 0. induction (date_labels df) as [|l ls IH]; intros s;
    [reflexivity|].
  cbn [List.length seq combine flat_map]. rewrite map_app, IH, map_map.
  reflexivity.
Qed.

Lemma region_dtype_column t :
  region_dtype t
  = match map n_country_region t with
    | [] => None
    | col => Some (if forallb is_none col then float64 else object)
    end.
Proof.
  destruct t as [|x t]; [reflexivity|].
  unfold region_dtype.
  rewrite <- (forallb_map n_country_region is_none (x :: t)).
  reflexivity.
Qed.

Lemma dtype_of_blocks {A} (block : list (option string)) (labels : list A) :
  match flat_map (fun _ => block) labels with
  | [] => None
  | col => Some (if forallb is_none col then float64 else object)
  end
  = match block, labels with
    | _ :: _, _ :: _ =>
        Some (if forallb is_none block then float64 else object)
    | _, _ => None
    end.
Proof.
  destruct block as [|o block].
  - induction labels as [|l labels IH]; [reflexivity|exact IH].
  - destruct labels as [|l labels]; [reflexivity|].
    pose proof (forallb_flat_map_const is_none (o :: block) l labels) as H.
    destruct (flat_map (fun _ => o :: block) (l :: labels)) as [|o' col] eqn:E.
    + discriminate E.
    + rewrite H. reflexivity.
Qed.

Lemma clean_region_dtype df out :
  pivot_to_long_format parse_datetime df = Return out ->
  region_dtype (clean_data out) = long_region_dtype df.
Proof.
  intros Hout.
  rewrite region_dtype_column, (clean_regions df out Hout), dtype_of_blocks.
  unfold long_region_dtype.
  destruct (raw_rows df) as [|r rows]; [reflexivity|].
  destruct (date_labels df) as [|l ls]; [reflexivity|].
  cbn [map]. rewrite <- (forallb_map Country_Region is_none (r :: rows)).
  reflexivity.
Qed.

(** The date column of the merged dataset: the dates of the three tables,
    0 for a missing one. *)
Lemma merged_dates c d r cell0 :
  In cell0 (map date (merge_datasets c d r)) <->
  exists x, (In x c \/ In x d \/ In x r)
            /\ cell0 = fillna_cell 0 (date_cell (n_date x)).
Proof.
  assert (Hdate : forall kv,
            date (assign_active (fillna 0 (merged_row kv)))
            = fillna_cell 0 (date_cell (snd (fst kv)))).
  { intros [[[cr ps] dt] [[c0 d0] r0]]. reflexivity. }
  rewrite merge_datasets_eq, map_map, in_map_iff. split.
  - intros [kv [<- Hin]]. rewrite Hdate.
    assert (H : In (fst kv) (map fst (outer_join3 c d r))) by now apply in_map.
    apply keys_outer_join3 in H. rewrite !in_map_iff in H.
    destruct H as [[x [Hx Hin']]|[[x [Hx Hin']]|[x [Hx Hin']]]];
      exists x; rewrite <- Hx; auto.
  - intros [x [Hx ->]].
    assert (H : In (merge_keys x) (map fst (outer_join3 c d r))).
    { apply keys_outer_join3.
      destruct Hx as [Hx|[Hx|Hx]]; [left|right; left|right; right];
        now apply in_map. }
    apply in_map_iff in H as [kv [Hk Hin]].
    exists kv. split; [|exact Hin]. now rewrite Hdate, Hk.
Qed.

Lemma output_dates c_raw d_raw r_raw c d r cell0 :
  pivot_to_long_format parse_datetime c_raw = Return c ->
  pivot_to_long_format parse_datetime d_raw = Return d ->
  pivot_to_long_format parse_datetime r_raw = Return r ->
  In cell0 (map date (merge_datasets (clean_data c) (clean_data d)
                                     (clean_data r)))
  <-> exists dt,
        In (Some dt) (dates_read parse_datetime c_raw
                      ++ dates_read parse_datetime d_raw
                      ++ dates_read parse_datetime r_raw)
        /\ cell0 = fillna_cell 0 (date_cell dt).
Proof.
  intros Hc Hd Hr. rewrite merged_dates. split.
  - intros [x [Hx ->]]. exists (n_date x). split; [|reflexivity].
    rewrite !in_app_iff.
    destruct Hx as [Hx|[Hx|Hx]]; [left|right; left|right; right].
    + apply (clean_dates _ _ _ Hc). eauto.
    + apply (clean_dates _ _ _ Hd). eauto.
    + apply (clean_dates _ _ _ Hr). eauto.
  - intros [dt [Hl ->]]. rewrite !in_app_iff in Hl.
    destruct Hl as [Hl|[Hl|Hl]].
    + apply (clean_dates _ _ _ Hc) in Hl as [x [Hx <-]]. eauto.
    + apply (clean_dates _ _ _ Hd) in Hl as [x [Hx <-]]. eauto.
    + apply (clean_dates _ _ _ Hr) in Hl as [x [Hx <-]]. eauto 6.
Qed.

(** *** The reductions of the date column *)

Lemma same_kind_trans a b c :
  same_kind a b = true -> same_kind a c = same_kind b c.
Proof. destruct a, b, c; simpl; congruence. Qed.

Lemma same_kind_refl a : a <> Null -> same_kind a a = true.
Proof. destruct a; simpl; congruence. Qed.

Lemma minimum_spec a b :
  match minimum a b with
  | Return m => same_kind a b = true /\ (m = a \/ m = b)
  | Raise e => same_kind a b = false /\ exists what, e = TypeError what
  end.
Proof.
  destruct a, b; simpl; eauto;
    match goal with |- context [if ?c then _ else _] => destruct c end; auto.
Qed.

Lemma maximum_spec a b :
  match maximum a b with
  | Return m => same_kind a b = true /\ (m = a \/ m = b)
  | Raise e => same_kind a b = false /\ exists what, e = TypeError what
  end.
Proof.
  destruct a, b; simpl; eauto;
    match goal with |- context [if ?c then _ else _] => destruct c end; auto.
Qed.

Lemma reduce_spec pick :
  (forall a b,
     match pick a b with
     | Return m => same_kind a b = true /\ (m = a \/ m = b)
     | Raise e => same_kind a b = false /\ exists what, e = TypeError what
     end) ->
  forall xs acc,
    match reduce pick acc xs with
    | Return m => forall x, In x xs -> same_kind acc x = true
    | Raise e => (exists x, In x xs /\ same_kind acc x = false)
                 /\ exists what, e = TypeError what
    end.
Proof.
  intros Hp. induction xs as [|x xs IH]; intros acc; simpl.
  - intros x [].
  - specialize (Hp acc x). destruct (pick acc x) as [m|e]; simpl.
    + destruct Hp as [Hk Hm]. specialize (IH m).
      assert (Hsame : forall y, same_kind m y = same_kind acc y).
      { intros y. destruct Hm as [->| ->]; [reflexivity|].
        symmetry. now apply same_kind_trans. }
      destruct (reduce pick m xs) as [m'|e].
      * intros y [<-|Hy]; [exact Hk|]. rewrite <- Hsame. now apply IH.
      * destruct IH as [[y [Hy Hky]] Hw]. split; [|exact Hw].
        exists y. split; [now right|]. now rewrite <- Hsame.
    + destruct Hp as [Hk Hw]. split; [|exact Hw].
      exists x. split; [now left|exact Hk].
Qed.

Lemma filter_notnull col :
  (forall c, In c col -> c <> Null) ->
  filter (fun c => negb (isnull c)) col = col.
Proof.
  induction col as [|c col IH]; intros H; simpl; [reflexivity|].
  assert (Hc : c <> Null) by (apply H; now left).
  destruct c; simpl; try congruence; rewrite IH; auto;
    intros c' Hc'; apply H; now right.
Qed.

(** On a column without missing cells a reduction returns exactly when the
    cells are pairwise of one kind; failing that it raises [TypeError]. *)
Lemma series_reduce_spec pick col :
  (forall a b,
     match pick a b with
     | Return m => same_kind a b = true /\ (m = a \/ m = b)
     | Raise e => same_kind a b = false /\ exists what, e = TypeError what
     end) ->
  (forall c, In c col -> c <> Null) ->
  match series_reduce pick col with
  | Return _ => forall a b, In a col -> In b col -> same_kind a b = true
  | Raise e => (exists a b, In a col /\ In b col /\ same_kind a b = false)
               /\ exists what, e = TypeError what
  end.
Proof.
  intros Hp Hnn. unfold series_reduce. rewrite (filter_notnull col Hnn).
  destruct col as [|x xs]; [intros a b []|].
  pose proof (reduce_spec pick Hp xs x) as H.
  assert (Hx : same_kind x x = true)
    by (apply same_kind_refl, Hnn; now left).
  destruct (reduce pick x xs) as [m|e]; simpl.
  - assert (Hall : forall a, In a (x :: xs) -> same_kind x a = true).
    { intros a [<-|Ha]; auto. }
    intros a b Ha Hb.
    rewrite <- (same_kind_trans x a b (Hall a Ha)). now apply Hall.
  - destruct H as [[y [Hy Hk]] Hw]. split; [|exact Hw].
    exists x, y. simpl. auto.
Qed.

Lemma merged_dates_notnull c d r cell0 :
  In cell0 (map date (merge_datasets c d r)) -> cell0 <> Null.
Proof.
  intros H. apply merged_dates in H as [x [_ ->]].
  destruct (n_date x); discriminate.
Qed.

Lemma merge_region_dtype_cases a b :
  (exists ab, merge_region_dtype a b = Return ab)
  \/ exists what, merge_region_dtype a b = Raise (ValueError what).
Proof. destruct a as [[]|], b as [[]|]; cbn; eauto. Qed.

(** The Merger returns exactly when the region columns of its tables
    merge, and then the dataset of [merge_datasets]; otherwise it raises
    [ValueError]. *)
Lemma merge_datasets_checked_cases c d r :
  (regions_merge (region_dtype c) (region_dtype d) (region_dtype r)
   /\ merge_datasets_checked c d r = Return (merge_datasets c d r))
  \/ (~ regions_merge (region_dtype c) (region_dtype d) (region_dtype r)
      /\ exists what, merge_datasets_checked c d r = Raise (ValueError what)).
Proof.
  unfold merge_datasets_checked, regions_merge.
  destruct (merge_region_dtype_cases (region_dtype c) (region_dtype d))
    as [[ab E1]|[w E1]]; rewrite E1; cbn.
  - destruct (merge_region_dtype_cases ab (region_dtype r))
      as [[abc E2]|[w E2]]; rewrite E2; cbn.
    + left. split; [eauto|reflexivity].
    + right. split; [|eauto].
      intros [ab' [abc' [H1 H2]]]. injection H1 as <-. congruence.
  - right. split; [|eauto].
    intros [ab' [abc' [H1 _]]]. discriminate H1.
Qed.

(** The two merges accept the region columns exactly when these agree. *)
Lemma regions_merge_iff_agree a b c :
  regions_merge a b c <-> regions_agree a b c.
Proof.
  unfold regions_merge, regions_agree.
  destruct a as [[]|], b as [[]|], c as [[]|]; cbn; split;
    try (intros _; do 2 eexists; split; reflexivity);
    try (intros _ x y Hx Hy;
         repeat (destruct Hx as [Hx|Hx]; try discriminate Hx;
                 try (injection Hx as <-));
         repeat (destruct Hy as [Hy|Hy]; try discriminate Hy;
                 try (injection Hy as <-));
         try reflexivity; contradiction);
    try (intros [ab [abc [H1 H2]]];
         first [discriminate H1 | injection H1 as <-; discriminate H2]);
    intros H;
    first [ discriminate (H object float64
                             ltac:(auto 6) ltac:(auto 6))
          | discriminate (H float64 object
                             ltac:(auto 6) ltac:(auto 6)) ].
Qed.

(** What [transform_all] does, by what the labels in use of the three
    tables are read as and by the dtypes of their region columns. *)
Lemma transform_all_cases confirmed_raw deaths_raw recovered_raw :
  let dates := dates_read parse_datetime confirmed_raw
               ++ dates_read parse_datetime deaths_raw
               ++ dates_read parse_datetime recovered_raw in
  let mergeable := regions_merge (long_region_dtype confirmed_raw)
                                 (long_region_dtype deaths_raw)
                                 (long_region_dtype recovered_raw) in
  match transform_all parse_datetime confirmed_raw deaths_raw recovered_raw
  with
  | Return out =>
      (exists c d r,
         pivot_to_long_format parse_datetime confirmed_raw = Return c
         /\ pivot_to_long_format parse_datetime deaths_raw = Return d
         /\ pivot_to_long_format parse_datetime recovered_raw = Return r
         /\ out = merge_datasets (clean_data c) (clean_data d) (clean_data r))
      /\ mergeable
      /\ ((forall x, In x dates -> exists t, x = Some (Some t))
          \/ (forall x, In x dates -> x = Some None))
  | Raise e =>
      (exists df l,
         In df [confirmed_raw; deaths_raw; recovered_raw]
         /\ In l (labels_in_use df)
         /\ reader parse_datetime (date_labels df) l = None
         /\ e = ValueError l)
      \/ ((forall x, In x dates -> x <> None)
          /\ ~ mergeable
          /\ exists what, e = ValueError what)
      \/ ((forall x, In x dates -> x <> None)
          /\ mergeable
          /\ In (Some None) dates
          /\ (exists t, In (Some (Some t)) dates)
          /\ exists what, e = TypeError what)
  end.
Proof.
  intros dates mergeable. unfold transform_all.
  destruct (pivot_to_long_format parse_datetime confirmed_raw) as [c|e]
    eqn:Hc; simpl.
  2: { left. apply pivot_Raise_inv in Hc as [l [Hl [Hp ->]]].
       exists confirmed_raw, l. simpl. auto. }
  destruct (pivot_to_long_format parse_datetime deaths_raw) as [d|e]
    eqn:Hd; simpl.
  2: { left. apply pivot_Raise_inv in Hd as [l [Hl [Hp ->]]].
       exists deaths_raw, l. simpl. auto. }
  destruct (pivot_to_long_format parse_datetime recovered_raw) as [r|e]
    eqn:Hr; simpl.
  2: { left. apply pivot_Raise_inv in Hr as [l [Hl [Hp ->]]].
       exists recovered_raw, l. simpl. auto 6. }
  assert (Hread : forall x, In x dates -> x <> None).
  { intros x Hx. unfold dates, dates_read in Hx. rewrite !in_app_iff in Hx.
    destruct Hx as [Hx|[Hx|Hx]]; apply in_map_iff in Hx as [l [<- Hl]].
    - exact (pivot_Return_labels _ _ _ Hc Hl).
    - exact (pivot_Return_labels _ _ _ Hd Hl).
    - exact (pivot_Return_labels _ _ _ Hr Hl). }
  destruct (merge_datasets_checked_cases (clean_data c) (clean_data d)
              (clean_data r)) as [[Hm ->]|[Hm [w ->]]];
    rewrite (clean_region_dtype _ _ Hc), (clean_region_dtype _ _ Hd),
      (clean_region_dtype _ _ Hr) in Hm; cbn [rbind].
  2: { right. left. split; [exact Hread|]. split; [exact Hm|]. eauto. }
  set (out := merge_datasets (clean_data c) (clean_data d) (clean_data r)).
  assert (Hdates : forall cell0,
            In cell0 (map date out) <->
            exists dt, In (Some dt) dates
                       /\ cell0 = fillna_cell 0 (date_cell dt))
    by (intros cell0; now apply output_dates).
  assert (Hnn : forall cell0, In cell0 (map date out) -> cell0 <> Null)
    by (intros cell0; apply merged_dates_notnull).
  pose proof (series_reduce_spec minimum (map date out) minimum_spec Hnn)
    as Hmin.
  pose proof (series_reduce_spec maximum (map date out) maximum_spec Hnn)
    as Hmax.
  fold (series_min (map date out)) in Hmin.
  fold (series_max (map date out)) in Hmax.
  destruct (series_min (map date out)) as [earliest|e]; simpl.
  - destruct (series_max (map date out)) as [latest|e]; simpl.
    + split; [exists c, d, r; auto|]. split; [exact Hm|].
      clear Hmax. destruct dates as [|x0 dates'] eqn:El;
        [left; intros x []|].
      assert (H0 : In x0 (x0 :: dates')) by now left.
      destruct x0 as [[t0|]|].
      * left. intros x Hx.
        destruct x as [[t|]|] eqn:Ex; [eauto | | now apply Hread in Hx].
        assert (Hk : same_kind (Date t0) (Num 0) = true).
        { apply Hmin; apply Hdates.
          - exists (Some t0). auto.
          - exists None. auto. }
        discriminate Hk.
      * right. intros x Hx.
        destruct x as [[t|]|] eqn:Ex;
          [ | reflexivity | now apply Hread in Hx].
        assert (Hk : same_kind (Num 0) (Date t) = true).
        { apply Hmin; apply Hdates.
          - exists None. auto.
          - exists (Some t). auto. }
        discriminate Hk.
      * now apply Hread in H0.
    + destruct Hmax as [[a [b [Ha [Hb Hk]]]] _].
      rewrite (Hmin a b Ha Hb) in Hk. discriminate Hk.
  - right. right. split; [exact Hread|]. split; [exact Hm|].
    destruct Hmin as [[a [b [Ha [Hb Hk]]]] Hw].
    apply Hdates in Ha as [da [Hla ->]].
    apply Hdates in Hb as [db [Hlb ->]].
    destruct da as [ta|], db as [tb|]; simpl in Hk; try discriminate Hk.
    + split; [exact Hlb|]. split; [eauto|exact Hw].
    + split; [exact Hla|]. split; [eauto|exact Hw].
Qed.

(** X14.  [transform_all] hands back a dataset exactly when the region
    columns of the three long tables agree (no table with rows lacks a
    region in every row while another with rows names one) and the labels
    in use, those of a table with at least one row, each under the way of
    reading of its own header, are all read as dates or all read as NaT.
    The labels of a table without rows do not matter. *)
Theorem transform_all_returns_iff confirmed_raw deaths_raw recovered_raw :
  let dates := dates_read parse_datetime confirmed_raw
               ++ dates_read parse_datetime deaths_raw
               ++ dates_read parse_datetime recovered_raw in
  (exists out,
     transform_all parse_datetime confirmed_raw deaths_raw recovered_raw
     = Return out)
  <-> regions_agree (long_region_dtype confirmed_raw)
                    (long_region_dtype deaths_raw)
                    (long_region_dtype recovered_raw)
      /\ ((forall x, In x dates -> exists t, x = Some (Some t))
          \/ (forall x, In x dates -> x = Some None)).
Proof.
  intros dates. rewrite <- regions_merge_iff_agree.
  pose proof (transform_all_cases confirmed_raw deaths_raw recovered_raw)
    as H. cbv zeta in H. fold dates in H.
  destruct (transform_all parse_datetime confirmed_raw deaths_raw
              recovered_raw) as [out|e].
  - split; [intros _; apply H | eauto].
  - split; [intros [out Hout]; discriminate Hout|].
    intros [Hm Hu]. exfalso.
    destruct H as [[df [l [Hdf [Hl [Hp _]]]]]
                  |[[_ [Hn _]]|[_ [_ [Hnat [[t Ht] _]]]]]].
    + assert (Hin : In None dates).
      { unfold dates, dates_read. rewrite !in_app_iff, !in_map_iff.
        destruct Hdf as [<-|[<-|[<-|[]]]]; eauto 6. }
      destruct Hu as [Hu|Hu].
      * destruct (Hu _ Hin) as [t Ht]. discriminate Ht.
      * specialize (Hu _ Hin). discriminate Hu.
    + contradiction.
    + destruct Hu as [Hu|Hu].
      * destruct (Hu _ Hnat) as [t' Ht']. discriminate Ht'.
      * specialize (Hu _ Ht). discriminate Hu.
Qed.

(** X15.  The three ways [transform_all] fails: with the [ValueError] of a
    label in use that the conversion of its column refuses; or, all
    labels being accepted, with the [ValueError] of a merge whose region
    columns do not agree; or, the merges done, with a [TypeError]
    from the date range it prints, when one label in use is read as NaT
    and another as a date (the date column then holds the 0 of the fill
    beside a Timestamp). *)
Theorem transform_all_raises confirmed_raw deaths_raw recovered_raw e :
  let dates := dates_read parse_datetime confirmed_raw
               ++ dates_read parse_datetime deaths_raw
               ++ dates_read parse_datetime recovered_raw in
  let mergeable := regions_agree (long_region_dtype confirmed_raw)
                                 (long_region_dtype deaths_raw)
                                 (long_region_dtype recovered_raw) in
  transform_all parse_datetime confirmed_raw deaths_raw recovered_raw
  = Raise e ->
  (exists df l,
     In df [confirmed_raw; deaths_raw; recovered_raw]
     /\ In l (labels_in_use df)
     /\ reader parse_datetime (date_labels df) l = None
     /\ e = ValueError l)
  \/ ((forall x, In x dates -> x <> None)
      /\ ~ mergeable
      /\ exists what, e = ValueError what)
  \/ ((forall x, In x dates -> x <> None)
      /\ mergeable
      /\ In (Some None) dates
      /\ (exists t, In (Some (Some t)) dates)
      /\ exists what, e = TypeError what).
Proof.
  intros dates mergeable Hraise.
  pose proof (transform_all_cases confirmed_raw deaths_raw recovered_raw)
    as H. cbv zeta in H. fold dates in H.
  rewrite Hraise in H. unfold mergeable.
  rewrite <- regions_merge_iff_agree. exact H.
Qed.

Lemma transform_all_dates confirmed_raw deaths_raw recovered_raw out :
  transform_all parse_datetime confirmed_raw deaths_raw recovered_raw
  = Return out ->
  (forall row, In row out -> exists t, date row = Date t)
  \/ (forall row, In row out -> date row = Num 0).
Proof.
  intros Hout.
  pose proof (transform_all_cases confirmed_raw deaths_raw recovered_raw)
    as H. cbv zeta in H. rewrite Hout in H.
  destruct H as [[c [d [r [Hc [Hd [Hr ->]]]]]] [_ Hu]].
  destruct Hu as [Hu|Hu]; [left|right]; intros row Hrow;
    apply (in_map date) in Hrow;
    apply (output_dates _ _ _ _ _ _ _ Hc Hd Hr) in Hrow
      as [dt [Hl ->]].
  - destruct (Hu _ Hl) as [t Ht]. injection Ht as ->. simpl. eauto.
  - specialize (Hu _ Hl). injection Hu as ->. reflexivity.
Qed.

(** X16.  A dataset from [transform_all] always has a text in the sub-region
    field, the sentinel included, never a missing value and never the 0 of
    the fill; the region is a text or that 0; and the date column holds
    Timestamps throughout or the 0 of the fill throughout. *)
Theorem transform_all_key_cells confirmed_raw deaths_raw recovered_raw out :
  transform_all parse_datetime confirmed_raw deaths_raw recovered_raw
  = Return out ->
  (forall row, In row out ->
     (exists s, province_state row = Str s)
     /\ (country_region row = Num 0 \/ exists s, country_region row = Str s))
  /\ ((forall row, In row out -> exists t, date row = Date t)
      \/ (forall row, In row out -> date row = Num 0)).
Proof.
  intros Hout. split; [|exact (transform_all_dates _ _ _ _ Hout)].
  pose proof (transform_all_cases confirmed_raw deaths_raw recovered_raw)
    as H. cbv zeta in H. rewrite Hout in H.
  destruct H as [[c [d [r [Hc [Hd [Hr ->]]]]]] _].
  intros row Hrow.
  apply in_merge_datasets in Hrow as [k [c0 [d0 [r0 [Hin ->]]]]].
  assert (Hk : In k (map fst (outer_join3 (clean_data c) (clean_data d)
                                          (clean_data r))))
    by (apply (in_map fst) in Hin; exact Hin).
  apply keys_outer_join3 in Hk.
  assert (Hps : forall l, In k (map merge_keys (clean_data l)) ->
                          exists s, snd (fst k) = Some s).
  { intros l Hl. apply in_map_iff in Hl as [x [<- Hx]].
    rewrite clean_data_map in Hx. apply in_map_iff in Hx as [o [<- _]].
    simpl. destruct (lr_Province_State o); eexists; reflexivity. }
  assert (Hs : exists s, snd (fst k) = Some s).
  { destruct Hk as [Hk|[Hk|Hk]]; eapply Hps; exact Hk. }
  destruct k as [[cr ps] dt]. destruct Hs as [s Hs]. simpl in Hs. subst ps.
  simpl. split; [eauto|]. destruct cr; simpl; eauto.
Qed.

(** X17.  The gate after [transform_all].  On a dataset that [transform_all]
    returned the gate raises exactly when the dataset has a row and its
    dates are the 0 of the fill, which is when every label in use was read
    as NaT; on any other it returns a report. *)
Theorem gate_after_transform_all now confirmed_raw deaths_raw recovered_raw out :
  transform_all parse_datetime confirmed_raw deaths_raw recovered_raw
  = Return out ->
  ((exists e, validate_data now out = Raise e)
   <-> out <> [] /\ forall row, In row out -> date row = Num 0).
Proof.
  intros Hout.
  destruct (transform_all_dates _ _ _ _ Hout) as [Hd|Hd].
  - assert (Hdt : datetime_dates out).
    { intros row Hrow. destruct (Hd row Hrow) as [t ->]. reflexivity. }
    split.
    + intros [e He]. rewrite (validate_data_exact now out Hdt) in He.
      discriminate He.
    + intros [Hne H0]. destruct out as [|row out']; [congruence|].
      destruct (Hd row (or_introl eq_refl)) as [t Ht].
      rewrite (H0 row (or_introl eq_refl)) in Ht. discriminate Ht.
  - destruct out as [|row out'].
    + split; [|intros [Hne _]; congruence].
      intros [e He].
      rewrite (validate_data_exact now [] (fun r (H : In r []) =>
                 match H with end)) in He.
      discriminate He.
    + split; [intros _; split; [discriminate|exact Hd]|].
      intros _.
      destruct (validate_data_type_error now (row :: out')) as [what Hw];
        [|eauto].
      intros Hdt. specialize (Hdt row (or_introl eq_refl)).
      rewrite (Hd row (or_introl eq_refl)) in Hdt. discriminate Hdt.
Qed.

End ReshaperErrors.

Lemma first_bad_label_is_reported_witness :
  pivot_to_long_format MDY.parse ReshapeSample.mixed_years
  = Raise (ValueError "1/23/20")
  /\ parse_datetime_string MDY.parse "1/23/20"
     = Some (Some (Sample.ts 2020 1 23)).
Proof.
  split; [|reflexivity].
  apply (first_bad_label_is_reported MDY.parse ReshapeSample.mixed_years
           ["1/22/2020"] "1/23/20" []).
  - discriminate.
  - reflexivity.
  - intros l [<-|[]]. vm_compute. discriminate.
  - reflexivity.
Defined.

Lemma pivot_returns_iff_readable_witness :
  readable MDY.parse Sample.header_only
  /\ exists out, pivot_to_long_format MDY.parse Sample.header_only = Return out.
Proof.
  assert (H : readable MDY.parse Sample.header_only) by (left; reflexivity).
  split; [exact H|].
  exact (proj2 (pivot_returns_iff_readable MDY.parse Sample.header_only) H).
Defined.

Lemma transform_all_returns_iff_witness :
  exists out,
    transform_all MDY.parse Sample.wide Sample.header_only
                  ReshapeSample.two_bad_labels_no_rows
    = Return out.
Proof.
  apply (proj2 (transform_all_returns_iff MDY.parse Sample.wide
                  Sample.header_only ReshapeSample.two_bad_labels_no_rows)).
  split.
  - intros x y Hx Hy. vm_compute in Hx, Hy.
    destruct Hx as [Hx|[Hx|[Hx|[]]]]; try discriminate Hx.
    destruct Hy as [Hy|[Hy|[Hy|[]]]]; try discriminate Hy.
    congruence.
  - left. intros x Hx. vm_compute in Hx.
    destruct Hx as [<-|[<-|[]]]; eexists; reflexivity.
Defined.

Lemma transform_all_raises_witness :
  exists what,
    transform_all MDY.parse Sample.wide ReshapeSample.nat_only Sample.no_rows
    = Raise (ValueError what).
Proof.
  destruct (transform_all MDY.parse Sample.wide ReshapeSample.nat_only
              Sample.no_rows) as [out|e] eqn:E; [discriminate E|].
  destruct (transform_all_raises MDY.parse Sample.wide ReshapeSample.nat_only
              Sample.no_rows e E)
    as [[df [l [_ [_ [_ ->]]]]]|[[_ [_ [what ->]]]|[_ [_ [_ [_ [what ->]]]]]]].
  - exists l. reflexivity.
  - exists what. reflexivity.
  - vm_compute in E. discriminate E.
Defined.

Lemma transform_all_key_cells_witness :
  exists out,
    transform_all MDY.parse ReshapeSample.nat_only Sample.no_rows Sample.no_rows
    = Return out
    /\ forall row, In row out ->
         province_state row = Str "All" /\ date row = Num 0.
Proof.
  eexists. split; [vm_compute; reflexivity|].
  destruct (transform_all_key_cells MDY.parse ReshapeSample.nat_only
              Sample.no_rows Sample.no_rows _ eq_refl) as [Hrow Hdates].
  intros row Hin. split.
  - destruct Hin as [<-|[]]. reflexivity.
  - destruct Hdates as [Hd|Hd]; [|exact (Hd row Hin)].
    destruct (Hd row Hin) as [t Ht].
    destruct Hin as [<-|[]]. discriminate Ht.
Defined.

Lemma gate_after_transform_all_witness :
  exists out e,
    transform_all MDY.parse ReshapeSample.nat_only Sample.no_rows Sample.no_rows
    = Return out
    /\ validate_data Sample.mid_2023 out = Raise e.
Proof.
  destruct (transform_all MDY.parse ReshapeSample.nat_only Sample.no_rows
              Sample.no_rows) as [out|e] eqn:E; [|discriminate E].
  destruct (proj2 (gate_after_transform_all MDY.parse Sample.mid_2023
                     ReshapeSample.nat_only Sample.no_rows Sample.no_rows
                     out E)) as [e He].
  - vm_compute in E. injection E as <-.
    split; [discriminate|]. intros row [<-|[]]. reflexivity.
  - exists out, e. split; [reflexivity|exact He].
Defined.

(** ** Loader: the batches of [load_data] *)

Section Batches.

Context {A : Type}.
Variable size : nat.
Hypothesis size_positive : 0 < size.

Lemma slice_window (data : list A) i :
  slice data i (i + size) = firstn size (skipn i data).
Proof. unfold slice. now replace (i + size - i) with size by lia. Qed.

Lemma batches_windows (data : list A) :
  batches size data
  = map (fun q => firstn size (skipn (q * size) data))
        (seq 0 ((List.length data + size - 1) / size)).
Proof.
  unfold batches, range_step. rewrite map_map. apply map_ext.
  intros q. apply slice_window.
Qed.

Lemma concat_windows q :
  forall data : list A,
    List.length data <= q * size ->
    List.concat (map (fun j => firstn size (skipn (j * size) data)) (seq 0 q))
    = data.
Proof.
  induction q as [|q IH]; intros data Hlen.
  - destruct data; [reflexivity|simpl in Hlen; lia].
  - cbn [seq map List.concat]. rewrite <- seq_shift, map_map.
    rewrite (map_ext _ (fun j => firstn size (skipn (j * size) (skipn size data)))).
    + rewrite IH.
      * apply firstn_skipn.
      * rewrite length_skipn. lia.
    + intros j. rewrite skipn_skipn. f_equal. f_equal. lia.
Qed.

(** The number of windows covers the data and is not one too many. *)
Lemma window_count_bounds n :
  let q := (n + size - 1) / size in
  n <= q * size /\ (0 < n -> (q - 1) * size < n /\ 0 < q).
Proof.
  intros q.
  pose proof (Nat.div_mod_eq (n + size - 1) size) as E.
  pose proof (Nat.mod_upper_bound (n + size - 1) size) as U.
  fold q in E. rewrite (Nat.mul_comm size q) in E.
  assert (Hq : 0 < n -> 0 < q).
  { intros Hn. destruct q; [|lia]. simpl in E. lia. }
  split; [lia|]. intros Hn. specialize (Hq Hn). split; [|exact Hq].
  replace (q * size) with ((q - 1) * size + size) in E by nia. lia.
Qed.

Lemma in_batches_inv (data : list A) b :
  In b (batches size data) ->
  exists j, j < (List.length data + size - 1) / size
            /\ b = firstn size (skipn (j * size) data).
Proof.
  rewrite batches_windows, in_map_iff. intros [j [<- Hj]].
  apply in_seq in Hj. exists j. split; [lia|reflexivity].
Qed.

Lemma batches_concat (data : list A) : List.concat (batches size data) = data.
Proof.
  rewrite batches_windows. apply concat_windows.
  apply (window_count_bounds (List.length data)).
Qed.

Lemma batches_sizes (data : list A) b :
  In b (batches size data) -> 1 <= List.length b <= size.
Proof.
  intros H. apply in_batches_inv in H as [j [Hj ->]].
  rewrite length_firstn, length_skipn.
  destruct (window_count_bounds (List.length data)) as [_ Hb].
  assert (Hn : 0 < List.length data).
  { destruct (List.length data); [|lia].
    simpl in Hj. rewrite Nat.div_small in Hj by lia. lia. }
  destruct (Hb Hn) as [Hlast _].
  assert (j * size <= ((List.length data + size - 1) / size - 1) * size)
    by (apply Nat.mul_le_mono_r; lia).
  lia.
Qed.

Lemma batches_full (data : list A) i b :
  nth_error (batches size data) i = Some b ->
  S i < List.length (batches size data) ->
  List.length b = size.
Proof.
  rewrite batches_windows, length_map, length_seq. intros Hb Hi.
  rewrite nth_error_map in Hb.
  rewrite nth_error_seq in Hb.
  destruct (Nat.ltb_spec i ((List.length data + size - 1) / size)) as [_|Hge];
    [|lia].
  simpl in Hb. injection Hb as <-.
  rewrite length_firstn, length_skipn.
  destruct (window_count_bounds (List.length data)) as [_ Hbound].
  assert (Hn : 0 < List.length data).
  { destruct (List.length data); [|lia].
    simpl in Hi. rewrite Nat.div_small in Hi by lia. lia. }
  destruct (Hbound Hn) as [Hlast _].
  assert (S i * size <= ((List.length data + size - 1) / size - 1) * size)
    by (apply Nat.mul_le_mono_r; lia).
  simpl in H. lia.
Qed.

End Batches.

Lemma batch_size_positive : 0 < batch_size.
Proof. unfold batch_size. lia. Qed.

(** X18.  The loop of [load_data] cuts the tuples into consecutive batches that
    put together give the tuples back, each once and in order; no batch is
    empty, none has more than 1000 tuples, and every batch but the last has
    exactly 1000.  No tuples, no batch. *)
Theorem batches_partition {A} (data : list A) :
  List.concat (batches batch_size data) = data
  /\ (forall b, In b (batches batch_size data) ->
                1 <= List.length b <= batch_size)
  /\ (forall i b,
        nth_error (batches batch_size data) i = Some b ->
        S i < List.length (batches batch_size data) ->
        List.length b = batch_size)
  /\ (data = [] -> batches batch_size data = []).
Proof.
  split; [apply batches_concat, batch_size_positive|].
  split; [intros b; apply batches_sizes, batch_size_positive|].
  split; [intros i b; apply batches_full, batch_size_positive|].
  intros ->. reflexivity.
Qed.

(** ** Loader: [load_data] *)

Section LoaderFacts.

Variable W : World.

(** The loop over the batches: it sends batch after batch and stops at the
    first one the database refuses. *)
Lemma execute_loop bs log :
  exists sent rest o,
    bs = sent ++ rest
    /\ io_for_each bs
         (fun batch => perform (Execute batch)
                         (fun log => w_execute_values W log batch)) log
       = (log ++ map Execute sent, o)
    /\ ((o = Done tt /\ rest = [])
        \/ (exists e, o = Failed e /\ sent <> [])).
Proof.
  revert log. induction bs as [|b bs IH]; intros log.
  - exists [], [], (Done tt). cbn. rewrite app_nil_r. auto.
  - cbn [io_for_each]. unfold io_bind.
    change (perform (Execute b) (fun log0 => w_execute_values W log0 b) log)
      with (log ++ [Execute b], w_execute_values W log b).
    destruct (w_execute_values W log b) as [[]|e].
    + destruct (IH (log ++ [Execute b])) as [sent [rest [o [Hbs [Hrun Hout]]]]].
      exists (b :: sent), rest, o. split; [now rewrite Hbs|]. split.
      * rewrite Hrun, <- app_assoc. reflexivity.
      * destruct Hout as [[Hd Hr]|[e [He _]]].
        -- left. split; [exact Hd|exact Hr].
        -- right. exists e. split; [exact He|discriminate].
    + exists [b], bs, (Failed e). split; [reflexivity|]. split; [reflexivity|].
      right. exists e. split; [reflexivity|discriminate].
Qed.

(** [load_data], call by call. *)
Lemma load_data_unfold df run_id log :
  load_data W df run_id log
  = match mapM (data_tuple run_id) df with
    | Raise e => (log, Failed (Exn e))
    | Return data =>
        match io_for_each (batches batch_size data)
                (fun batch => perform (Execute batch)
                                (fun log => w_execute_values W log batch)) log
        with
        | (log1, Done _) =>
            match w_commit W log1 with
            | Done _ => (log1 ++ [Commit], Done (List.length data))
            | Failed e =>
                ((log1 ++ [Commit]) ++ [Rollback],
                 match w_rollback W (log1 ++ [Commit]) with
                 | Done _ => Failed e
                 | Failed e' => Failed e'
                 end)
            end
        | (log1, Failed e) =>
            (log1 ++ [Rollback],
             match w_rollback W log1 with
             | Done _ => Failed e
             | Failed e' => Failed e'
             end)
        end
    end.
Proof.
  unfold load_data, io_bind, try_except, perform, io_raise, io_ret.
  destruct (mapM (data_tuple run_id) df) as [data|e]; [|reflexivity].
  cbn [io_eval]. unfold io_ret.
  destruct (io_for_each _ _ log) as [log1 [[]|e]].
  - destruct (w_commit W log1) as [[]|e]; [reflexivity|].
    destruct (w_rollback W _) as [[]|e']; reflexivity.
  - destruct (w_rollback W log1) as [[]|e']; reflexivity.
Qed.

(** The three ways a call of [load_data] can go. *)
Lemma load_data_cases df run_id log :
  (exists e,
     mapM (data_tuple run_id) df = Raise e
     /\ load_data W df run_id log = (log, Failed (Exn e)))
  \/ exists data,
       mapM (data_tuple run_id) df = Return data
       /\ (load_data W df run_id log
           = (log ++ map Execute (batches batch_size data) ++ [Commit],
              Done (List.length data))
           \/ exists e sent rest,
                batches batch_size data = sent ++ rest
                /\ (load_data W df run_id log
                    = (log ++ map Execute sent ++ [Rollback], Failed e)
                    \/ (rest = []
                        /\ load_data W df run_id log
                           = (log ++ map Execute sent ++ [Commit; Rollback],
                              Failed e)))).
Proof.
  rewrite load_data_unfold.
  destruct (mapM (data_tuple run_id) df) as [data|e].
  2: { left. exists e. split; reflexivity. }
  right. exists data. split; [reflexivity|].
  destruct (execute_loop (batches batch_size data) log)
    as [sent [rest [o [Hbs [Hrun Hout]]]]].
  rewrite Hrun.
  destruct Hout as [[-> ->]|[e [-> Hne]]].
  - rewrite app_nil_r in Hbs. subst sent.
    destruct (w_commit W _) as [[]|e].
    + left. now rewrite <- app_assoc.
    + right.
      exists (match w_rollback W
                      ((log ++ map Execute (batches batch_size data)) ++ [Commit])
              with Done _ => e | Failed e' => e' end),
        (batches batch_size data), [].
      split; [now rewrite app_nil_r|]. right. split; [reflexivity|].
      rewrite <- !app_assoc. cbn [app].
      destruct (w_rollback W _); reflexivity.
  - right.
    exists (match w_rollback W (log ++ map Execute sent)
            with Done _ => e | Failed e' => e' end), sent, rest.
    split; [exact Hbs|]. left.
    rewrite <- app_assoc.
    destruct (w_rollback W _); reflexivity.
Qed.

Lemma data_tuples_length run_id df data :
  mapM (data_tuple run_id) df = Return data ->
  List.length data = List.length df.
Proof.
  intros H. apply mapM_Return_inv in H. symmetry.
  exact (Forall2_length_eq _ _ _ H).
Qed.

(** X19.  When [load_data] returns, it returns the number of records of the
    dataset, and by then it has sent the tuple of every record exactly
    once, in the order of the dataset, in batches, and has committed once,
    as its last call; it has not rolled back. *)
Theorem load_data_returns df run_id log log' n :
  load_data W df run_id log = (log', Done n) ->
  n = List.length df
  /\ exists data,
       mapM (data_tuple run_id) df = Return data
       /\ List.concat (batches batch_size data) = data
       /\ log' = log ++ map Execute (batches batch_size data) ++ [Commit].
Proof.
  intros H.
  destruct (load_data_cases df run_id log) as [[e [_ He]]|[data [Hd Hc]]].
  - rewrite He in H. discriminate.
  - destruct Hc as [Hok|[e [sent [rest [_ [He|[_ He]]]]]]].
    + rewrite Hok in H. injection H as <- <-.
      split; [now apply data_tuples_length with (run_id := run_id)|].
      exists data. split; [exact Hd|]. split; [|reflexivity].
      apply batches_concat, batch_size_positive.
    + rewrite H in He. discriminate.
    + rewrite H in He. discriminate.
Qed.

(** X20.  When [load_data] raises, either the tuples could not be prepared, and
    then the database has seen no call at all, not even a rollback; or the
    last call it made is the rollback, after a first part of the batches
    (and the commit, when that is what failed). *)
Theorem load_data_raises df run_id log log' e :
  load_data W df run_id log = (log', Failed e) ->
  (log' = log
   /\ exists e', mapM (data_tuple run_id) df = Raise e' /\ e = Exn e')
  \/ exists data sent rest,
       mapM (data_tuple run_id) df = Return data
       /\ batches batch_size data = sent ++ rest
       /\ (log' = log ++ map Execute sent ++ [Rollback]
           \/ (rest = []
               /\ log' = log ++ map Execute sent ++ [Commit; Rollback])).
Proof.
  intros H.
  destruct (load_data_cases df run_id log) as [[e' [Hd He]]|[data [Hd Hc]]].
  - left. rewrite He in H. injection H as <- <-. eauto.
  - right. destruct Hc as [Hok|[e' [sent [rest [Hbs [He|[Hr He]]]]]]].
    + rewrite Hok in H. discriminate.
    + rewrite H in He. injection He as -> _.
      exists data, sent, rest. auto.
    + rewrite H in He. injection He as -> _.
      exists data, sent, rest. auto.
Qed.

End LoaderFacts.

Lemma data_tuple_clean now run_id row :
  clean_record now row ->
  exists t, data_tuple run_id row = Return t
            /\ t_country_region t = country_region row
            /\ t_province_state t = province_state row
            /\ t_date t = date row
            /\ confirmed row = Some (t_confirmed t)
            /\ deaths row = Some (t_deaths t)
            /\ recovered row = Some (t_recovered t)
            /\ active row = Some (t_active t)
            /\ t_run_id t = run_id.
Proof.
  intros [_ [_ [c [d [rec [Hc [Hd [Hr Ha]]]]]]]].
  unfold data_tuple. rewrite Hc, Hd, Hr, Ha. cbn.
  eexists. split; [reflexivity|]. cbn. repeat split; reflexivity.
Qed.

(** X21.  A dataset the gate let through can always be sent: preparing the
    tuples raises nothing, since no count is missing, and gives one tuple
    per record, with the record's key cells and counts and the run id. *)
Theorem passed_data_is_loadable now df errs warns run_id :
  validate_data now df = Return (true, errs, warns) ->
  exists data,
    mapM (data_tuple run_id) df = Return data
    /\ Forall2 (fun row t =>
                  t_country_region t = country_region row
                  /\ t_province_state t = province_state row
                  /\ t_date t = date row
                  /\ confirmed row = Some (t_confirmed t)
                  /\ deaths row = Some (t_deaths t)
                  /\ recovered row = Some (t_recovered t)
                  /\ active row = Some (t_active t)
                  /\ t_run_id t = run_id)
               df data.
Proof.
  intros H.
  assert (Hclean : forall r, In r df -> clean_record now r).
  { apply validate_true_iff_clean. eauto. }
  clear H. induction df as [|row df IH].
  - exists []. split; [reflexivity|constructor].
  - destruct (data_tuple_clean now run_id row) as [t [Ht Hfields]];
      [apply Hclean; now left|].
    destruct IH as [data [Hd Hf]]; [intros r Hr; apply Hclean; now right|].
    exists (t :: data). split.
    + cbn [mapM]. rewrite Ht. cbn. rewrite Hd. reflexivity.
    + constructor; assumption.
Qed.

(** ** Orchestrator: [run_pipeline] *)

(** One step of running a computation by hand: case on the answer of the
    next call to the outside. *)
Ltac next_answer :=
  cbv beta iota zeta;
  match goal with
  | |- context [match ?x with Done _ => _ | Failed _ => _ end] =>
      lazymatch x with
      | context [match _ with _ => _ end] => fail
      | _ => destruct x as [?|?] eqn:?
      end
  end.

Section PipelineFacts.

Variable W : World.

(** Up to the gate.  Either the run ends there, having made no call to the
    database, or the three tables were read, [transform_all] made a dataset
    of them, the gate returned [true] for it, and the run goes on with the
    load stage. *)
Lemma pipeline_steps_front log o :
  pipeline_steps W [] = (log, o) ->
  (Forall (fun a => touches_database a = false) log /\ o <> Done true)
  \/ exists confirmed_raw deaths_raw recovered_raw df errs warns,
       w_read_csv W (firstn 4 calls_before_gate)
         "time_series_covid19_confirmed_global.csv" = Done confirmed_raw
       /\ w_read_csv W (firstn 5 calls_before_gate)
            "time_series_covid19_deaths_global.csv" = Done deaths_raw
       /\ w_read_csv W (firstn 6 calls_before_gate)
            "time_series_covid19_recovered_global.csv" = Done recovered_raw
       /\ transform_all (w_parse_datetime W)
            confirmed_raw deaths_raw recovered_raw = Return df
       /\ validate_data (w_now W) df = Return (true, errs, warns)
       /\ load_stage W df calls_before_gate = (log, o).
Proof.
  unfold pipeline_steps, extract_all, transform_all_from_files, load_raw_data,
    files.
  cbn [io_mapM]. unfold io_bind, perform, io_ret. cbv beta.
  repeat next_answer;
    try (intros H; injection H as <- <-; left;
         split; [repeat constructor|discriminate]).
  destruct (transform_all _ _ _ _) as [df|e] eqn:Ht; cbn [io_eval];
    unfold io_ret, io_raise.
  2: { intros H; injection H as <- <-; left.
       split; [repeat constructor|discriminate]. }
  destruct (validate_data _ _) as [[[passed errs] warns]|e] eqn:Hv;
    cbn [io_eval]; unfold io_ret, io_raise.
  2: { intros H; injection H as <- <-; left.
       split; [repeat constructor|discriminate]. }
  destruct passed; cbn [negb].
  - intros H. right. exists a3, a4, a5, df, errs, warns.
    repeat split; assumption.
  - intros H; injection H as <- <-; left.
    split; [repeat constructor|discriminate].
Qed.

(** The load stage, by where it ends. *)
Lemma load_stage_cases df front log o :
  load_stage W df front = (log, o) ->
  (exists e, o = Failed e
     /\ (log = front ++ [Connect]
         \/ log = front ++ [Connect; CreateRunMetadata data_source_url]))
  \/ exists run_id data,
       mapM (data_tuple run_id) df = Return data
       /\ ((exists e sent rest,
              o = Failed e
              /\ batches batch_size data = sent ++ rest
              /\ (log = front ++ [Connect; CreateRunMetadata data_source_url]
                          ++ map Execute sent ++ [Rollback]
                  \/ (rest = []
                      /\ log = front
                               ++ [Connect; CreateRunMetadata data_source_url]
                               ++ map Execute sent ++ [Commit; Rollback])))
           \/ (exists e,
                 o = Failed e
                 /\ log = front ++ [Connect; CreateRunMetadata data_source_url]
                          ++ map Execute (batches batch_size data)
                          ++ [Commit;
                              UpdateMetadata run_id (List.length data) "SUCCESS"])
           \/ ((o = Done true \/ exists e, o = Failed e)
               /\ log = front ++ calls_of_load run_id data)).
Proof.
  unfold load_stage, io_bind, perform, io_ret. cbv beta.
  next_answer.
  2: { intros H; injection H as <- <-. left. eauto. }
  next_answer.
  2: { intros H; injection H as <- <-. left. eexists. split; [reflexivity|].
       right. now rewrite <- app_assoc. }
  cbv beta iota zeta.
  match goal with
  | |- context [load_data W df ?r ?l] =>
      pose proof (load_data_cases W df r l) as Hcases;
      destruct (load_data W df r l) as [log1 o1]
  end.
  intros Hrun.
  destruct Hcases as [[e [Hd He]]|[data [Hd Hc]]].
  - injection He as He1 He2. subst log1 o1. revert Hrun.
    intros H; injection H as <- <-. left. eexists. split; [reflexivity|].
    right. now rewrite <- app_assoc.
  - right. exists a0, data. split; [exact Hd|].
    destruct Hc as [He|[e [sent [rest [Hbs [He|[Hr He]]]]]]];
      injection He as He1 He2; subst log1 o1; revert Hrun.
    + next_answer.
      2: { intros H; injection H as <- <-. right. left.
           exists e. split; [reflexivity|].
           rewrite <- !app_assoc. reflexivity. }
      next_answer.
      * intros H; injection H as <- <-. right. right.
        split; [now left|]. unfold calls_of_load.
        rewrite <- !app_assoc. reflexivity.
      * intros H; injection H as <- <-. right. right.
        split; [right; eauto|]. unfold calls_of_load.
        rewrite <- !app_assoc. reflexivity.
    + intros H; injection H as <- <-. left. exists e, sent, rest.
      split; [reflexivity|]. split; [exact Hbs|]. left.
      rewrite <- !app_assoc. reflexivity.
    + intros H; injection H as <- <-. left. exists e, sent, rest.
      split; [reflexivity|]. split; [exact Hbs|]. right.
      split; [exact Hr|]. rewrite <- !app_assoc. reflexivity.
Qed.

Lemma run_pipeline_steps log ok :
  run_pipeline W = (log, ok) ->
  exists o, pipeline_steps W [] = (log, o) /\ (ok = true <-> o = Done true).
Proof.
  unfold run_pipeline, try_except, io_ret.
  destruct (pipeline_steps W []) as [log1 [b|e]]; intros H;
    injection H as <- <-; eexists; (split; [reflexivity|]).
  - split; congruence.
  - split; discriminate.
Qed.

Lemma data_tuple_run_id run_id row t :
  data_tuple run_id row = Return t -> t_run_id t = run_id.
Proof.
  unfold data_tuple.
  destruct (confirmed row), (deaths row), (recovered row), (active row);
    cbn; intros H; try discriminate.
  injection H as <-. reflexivity.
Qed.

(** A tuple of a prepared dataset is the tuple of one of its records. *)
Lemma prepared_tuple_origin run_id df data batch t :
  mapM (data_tuple run_id) df = Return data ->
  In batch (batches batch_size data) ->
  In t batch ->
  exists row, In row df /\ data_tuple (t_run_id t) row = Return t.
Proof.
  intros Hd Hb Ht.
  assert (Hin : In t data).
  { rewrite <- (batches_concat batch_size batch_size_positive data).
    apply in_concat. eauto. }
  apply mapM_Return_inv in Hd.
  destruct (Forall2_in_r _ _ _ _ Hd Hin) as [row [Hrow Hp]].
  exists row. split; [exact Hrow|].
  now rewrite (data_tuple_run_id _ _ _ Hp).
Qed.

(** Membership in a list of calls put together from explicit calls and
    batches. *)
Ltac split_calls H :=
  repeat (apply in_app_or in H; destruct H as [H|H]).

Ltac no_such_call H :=
  solve [ apply in_map_iff in H; destruct H as [? [H _]]; discriminate H
        | simpl in H; intuition discriminate ].

Lemma no_database_call_before_gate a :
  In a calls_before_gate -> touches_database a = false.
Proof. simpl. intuition subst; reflexivity. Qed.

Lemma prefix_in {X} (x : X) (sent rest all : list X) :
  all = sent ++ rest -> In x sent -> In x all.
Proof. intros -> H. apply in_or_app. now left. Qed.

(** X22.  The gate guards the loader.  When a run makes any call to the database,
    then the three tables had been read, [transform_all] had made a dataset
    of them, and the gate had returned [true] for that dataset; and every
    tuple the run ever sends is the tuple of a record of that dataset.
    When the gate rejects, or anything before it fails, the database is not
    touched, not even connected to. *)
Theorem gate_guards_loader log ok :
  run_pipeline W = (log, ok) ->
  (exists a, In a log /\ touches_database a = true) ->
  exists confirmed_raw deaths_raw recovered_raw df errs warns,
    w_read_csv W (firstn 4 calls_before_gate)
      "time_series_covid19_confirmed_global.csv" = Done confirmed_raw
    /\ w_read_csv W (firstn 5 calls_before_gate)
         "time_series_covid19_deaths_global.csv" = Done deaths_raw
    /\ w_read_csv W (firstn 6 calls_before_gate)
         "time_series_covid19_recovered_global.csv" = Done recovered_raw
    /\ transform_all (w_parse_datetime W)
         confirmed_raw deaths_raw recovered_raw = Return df
    /\ validate_data (w_now W) df = Return (true, errs, warns)
    /\ forall batch t,
         In (Execute batch) log -> In t batch ->
         exists row, In row df /\ data_tuple (t_run_id t) row = Return t.
Proof.
  intros Hrun [a [Ha Hdb]].
  apply run_pipeline_steps in Hrun as [o [Hsteps _]].
  apply pipeline_steps_front in Hsteps
    as [[Hnone _]|[c [d [r [df0 [errs [warns [Hc [Hd [Hr [Ht [Hv Hload]]]]]]]]]]]].
  { rewrite Forall_forall in Hnone. rewrite (Hnone a Ha) in Hdb. discriminate. }
  exists c, d, r, df0, errs, warns. repeat (split; [assumption|]).
  intros batch t Hbatch Hin.
  apply load_stage_cases in Hload
    as [[e [_ [ -> | -> ]]]|[run_id [data [Hdata Hshape]]]].
  - split_calls Hbatch; no_such_call Hbatch.
  - split_calls Hbatch; no_such_call Hbatch.
  - assert (Hb : In batch (batches batch_size data)).
    { destruct Hshape as [[e [sent [rest [_ [Hbs [ -> | [_ ->]]]]]]]|[[e [_ ->]] | [_ ->]]];
        unfold calls_of_load in *; split_calls Hbatch;
        try no_such_call Hbatch;
        apply in_map_iff in Hbatch as [b [Hb Hin']]; injection Hb as ->;
        try exact Hin'; eapply prefix_in; eauto. }
    eapply prepared_tuple_origin; eauto.
Qed.


(** X24.  A failed load ends the run on the spot.  When [load_data] rolls back,
    the rollback is the last call of the run: the run is not marked as
    failed ([update_metadata] is not called at all, so the metadata row
    stays as [create_run_metadata] left it), the connection is not closed,
    and the run returns [False]. *)
Theorem rollback_is_last_call log ok :
  run_pipeline W = (log, ok) ->
  In Rollback log ->
  ok = false
  /\ exists before,
       log = before ++ [Rollback]
       /\ ~ In Rollback before
       /\ ~ In Close before
       /\ forall run_id n status, ~ In (UpdateMetadata run_id n status) before.
Proof.
  intros Hrun Hrb.
  apply run_pipeline_steps in Hrun as [o [Hsteps Hok]].
  apply pipeline_steps_front in Hsteps
    as [[Hnone _]|[c [d [r [df0 [errs [warns [_ [_ [_ [_ [_ Hload]]]]]]]]]]]].
  { rewrite Forall_forall in Hnone. specialize (Hnone _ Hrb). discriminate. }
  apply load_stage_cases in Hload
    as [[e [_ [ -> | -> ]]]|[run_id [data [Hdata Hshape]]]].
  - split_calls Hrb; no_such_call Hrb.
  - split_calls Hrb; no_such_call Hrb.
  - destruct Hshape
      as [[e [sent [rest [-> [Hbs [ -> | [_ ->]]]]]]]|[[e [_ ->]] | [_ ->]]].
    + split; [destruct ok; [|reflexivity];
              pose proof (proj1 Hok eq_refl) as Hc; discriminate Hc|].
      exists (calls_before_gate
                ++ [Connect; CreateRunMetadata data_source_url]
                ++ map Execute sent).
      split; [now rewrite <- !app_assoc|].
      repeat split; try (intros ? ? ?); intros H;
        split_calls H; no_such_call H.
    + split; [destruct ok; [|reflexivity];
              pose proof (proj1 Hok eq_refl) as Hc; discriminate Hc|].
      exists (calls_before_gate
                ++ [Connect; CreateRunMetadata data_source_url]
                ++ map Execute sent ++ [Commit]).
      split; [now rewrite <- !app_assoc|].
      repeat split; try (intros ? ? ?); intros H;
        split_calls H; no_such_call H.
    + unfold calls_of_load in Hrb. split_calls Hrb; no_such_call Hrb.
    + unfold calls_of_load in Hrb. split_calls Hrb; no_such_call Hrb.
Qed.

(** X25.  The metadata of a run is only ever updated to [SUCCESS], and only
    after everything was sent and committed.  Whenever a run calls
    [update_metadata], the status is [SUCCESS], the count is the number of
    tuples, all the batches and the commit came before and no rollback was
    made; what follows is nothing (the update itself failed), or the
    statistics and the close.  So a failed run never marks itself as
    failed.  The run may still return [False] after the update, but
    returns [True] only with the statistics and the close made. *)
Theorem metadata_update_means_committed log ok run_id n status :
  run_pipeline W = (log, ok) ->
  In (UpdateMetadata run_id n status) log ->
  status = "SUCCESS"
  /\ exists data rest,
       n = List.length data
       /\ log = calls_before_gate
                ++ [Connect; CreateRunMetadata data_source_url]
                ++ map Execute (batches batch_size data)
                ++ [Commit; UpdateMetadata run_id n "SUCCESS"] ++ rest
       /\ (rest = [] \/ rest = [GetLatestStats; Close])
       /\ (ok = true -> rest = [GetLatestStats; Close]).
Proof.
  intros Hrun Hup.
  apply run_pipeline_steps in Hrun as [o [Hsteps Hok]].
  apply pipeline_steps_front in Hsteps
    as [[Hnone _]|[c [d [r [df0 [errs [warns [_ [_ [_ [_ [_ Hload]]]]]]]]]]]].
  { rewrite Forall_forall in Hnone. specialize (Hnone _ Hup). discriminate. }
  apply load_stage_cases in Hload
    as [[e [_ [ -> | -> ]]]|[run_id' [data [Hdata Hshape]]]].
  - split_calls Hup; no_such_call Hup.
  - split_calls Hup; no_such_call Hup.
  - destruct Hshape
      as [[e [sent [rest [-> [Hbs [ -> | [_ ->]]]]]]]|[[e [-> ->]] | [Ho ->]]].
    + split_calls Hup; no_such_call Hup.
    + split_calls Hup; no_such_call Hup.
    + split_calls Hup; try no_such_call Hup.
      destruct Hup as [Hup|[Hup|[]]]; [discriminate Hup|].
      injection Hup as -> <- <-.
      split; [reflexivity|]. exists data, []. rewrite app_nil_r.
      split; [reflexivity|]. split; [reflexivity|]. split; [now left|].
      intros ->. pose proof (proj1 Hok eq_refl) as Hc. discriminate Hc.
    + unfold calls_of_load in *. split_calls Hup; try no_such_call Hup.
      destruct Hup as [Hup|[Hup|[Hup|[Hup|[]]]]]; try discriminate Hup.
      injection Hup as -> <- <-.
      split; [reflexivity|]. exists data, [GetLatestStats; Close].
      split; [reflexivity|]. split; [reflexivity|]. split; [now right|].
      reflexivity.
Qed.

End PipelineFacts.

Lemma batches_partition_witness :
  In [1; 2; 3] (batches batch_size [1; 2; 3])
  /\ 1 <= List.length [1; 2; 3] <= batch_size.
Proof.
  assert (H : In [1; 2; 3] (batches batch_size [1; 2; 3]))
    by (vm_compute; auto).
  split; [exact H|].
  destruct (batches_partition [1; 2; 3]) as [_ [Hsize _]].
  exact (Hsize _ H).
Defined.

Lemma load_data_returns_witness :
  exists log,
    load_data WorldSample.calm Sample.new_year_2021 7 [] = (log, Done 1)
    /\ 1 = List.length Sample.new_year_2021.
Proof.
  eexists. split; [vm_compute; reflexivity|].
  refine (proj1 (load_data_returns WorldSample.calm Sample.new_year_2021 7
                   [] _ 1 _)).
  vm_compute. reflexivity.
Defined.

Lemma load_data_raises_witness :
  exists e',
    load_data WorldSample.calm WorldSample.recovered_missing 7 [Connect]
    = ([Connect], Failed (Exn e'))
    /\ mapM (data_tuple 7) WorldSample.recovered_missing = Raise e'.
Proof.
  destruct (load_data_raises WorldSample.calm WorldSample.recovered_missing 7
              [Connect] [Connect] _ eq_refl)
    as [[_ [e' [Hm He]]]|[data [sent [rest [Hm _]]]]].
  - exists e'. split; [|exact Hm]. injection He as <-. reflexivity.
  - vm_compute in Hm. discriminate Hm.
Defined.

Lemma passed_data_is_loadable_witness :
  exists data,
    mapM (data_tuple 7) Sample.new_year_2021 = Return data
    /\ List.length data = 1.
Proof.
  destruct (passed_data_is_loadable Sample.early_2022 Sample.new_year_2021
              [] [] 7 eq_refl) as [data [Hd Hf]].
  exists data. split; [exact Hd|].
  symmetry. exact (Forall2_length_eq _ _ _ Hf).
Defined.

Lemma calm_run :
  run_pipeline WorldSample.calm
  = (calls_before_gate
       ++ calls_of_load 7
            [ {| t_country_region := Str "Chad"; t_province_state := Str "All";
                 t_date := Date (Sample.ts 2020 1 22);
                 t_confirmed := 1; t_deaths := 1; t_recovered := 1;
                 t_active := -1; t_run_id := 7 |};
              {| t_country_region := Str "China";
                 t_province_state := Str "Hubei";
                 t_date := Date (Sample.ts 2020 1 22);
                 t_confirmed := 444; t_deaths := 444; t_recovered := 444;
                 t_active := -444; t_run_id := 7 |};
              {| t_country_region := Str "Chad"; t_province_state := Str "All";
                 t_date := Date (Sample.ts 2020 1 23);
                 t_confirmed := 2; t_deaths := 2; t_recovered := 2;
                 t_active := -2; t_run_id := 7 |};
              {| t_country_region := Str "China";
                 t_province_state := Str "Hubei";
                 t_date := Date (Sample.ts 2020 1 23);
                 t_confirmed := 0; t_deaths := 0; t_recovered := 0;
                 t_active := 0; t_run_id := 7 |} ],
     true).
Proof. vm_compute. reflexivity. Qed.

Lemma gate_guards_loader_witness :
  exists df errs warns,
    validate_data (w_now WorldSample.calm) df = Return (true, errs, warns)
    /\ List.length df = 4.
Proof.
  destruct (gate_guards_loader WorldSample.calm _ _ calm_run)
    as [c [d [r [df0 [errs [warns [Hc [Hd [Hr [Ht [Hv _]]]]]]]]]]].
  { exists Connect. split; [|reflexivity].
    apply in_or_app. right. simpl. auto. }
  exists df0, errs, warns. split; [exact Hv|].
  vm_compute in Hc, Hd, Hr.
  injection Hc as <-. injection Hd as <-. injection Hr as <-.
  vm_compute in Ht. injection Ht as <-. reflexivity.
Defined.


Lemma commit_refused_run :
  exists before,
    run_pipeline WorldSample.commit_refused = (before ++ [Rollback], false).
Proof. eexists (_ :: _ :: _ :: _ :: _ :: _ :: _ :: _ :: _ :: _ :: [_]). vm_compute. reflexivity. Qed.

Lemma rollback_is_last_call_witness :
  exists before,
    fst (run_pipeline WorldSample.commit_refused) = before ++ [Rollback]
    /\ ~ In Close before.
Proof.
  destruct commit_refused_run as [b Hb].
  destruct (rollback_is_last_call WorldSample.commit_refused _ _ Hb)
    as [_ [before [Hlog [_ [Hclose _]]]]].
  { apply in_or_app. right. left. reflexivity. }
  exists before. split; [rewrite Hb; exact Hlog | exact Hclose].
Defined.

Lemma metadata_update_means_committed_witness :
  exists data,
    fst (run_pipeline WorldSample.calm)
    = calls_before_gate
        ++ [Connect; CreateRunMetadata data_source_url]
        ++ map Execute (batches batch_size data)
        ++ [Commit; UpdateMetadata 7 4 "SUCCESS"; GetLatestStats; Close]
    /\ 4 = List.length data.
Proof.
  destruct (metadata_update_means_committed WorldSample.calm _ _ 7 4 "SUCCESS"
              calm_run)
    as [_ [data [rest [Hn [Hlog [_ Hrest]]]]]].
  { apply in_or_app. right. unfold calls_of_load.
    apply in_or_app. right. apply in_or_app. right. simpl. auto. }
  exists data. split; [|exact Hn].
  rewrite calm_run. cbn [fst]. rewrite Hlog, (Hrest eq_refl). reflexivity.
Defined.
